(** * soda-can: mesh builder, normal calculator and OBJ/MTL loader

  A shallow embedding of [soda-can.js] (the mesh builder: [circle],
  [cylinder], [add_truncated_cone], [add_circle_fill], [soda_can]; the
  texture coordinates of [init]; the movement handlers [onMouseDown],
  [onMouseMove], [onMouseUp], [onWheel]), of [tools.js] ([ensure_vec4],
  [calc_normals], [line_seg_triangle_intersection], [generate_mesh]) and
  of [objloader.js] ([load_obj], [load_mtl], [get_idx], [_read_lines]).

  Conventions of the embedding:
  - a JavaScript number that carries geometry is a real number ([R]) in
    the mesh builder and in the normal calculator: arithmetic is exact,
    rounding is outside the model; the loader does no arithmetic on the
    numbers of a file and takes their type and conversions as parameters;
  - a JavaScript number that is an array index or a count is an
    integer ([Z], or [nat] for a loop counter and a length);
  - a JavaScript array is a [list]; a function that pushes onto an
    array passed by its caller takes the array and returns it; where a
    statement is about aliasing, arrays live in a store and are passed by
    reference ([Normals.calc_normals_st]);
  - a thrown exception is [None];
  - the asynchronous loading is a transition system: the state of the
    callbacks of [load_obj] and [load_mtl], and one transition for each
    event that the browser reports ([Loader.handle]);
  - [console.warn]/[console.log] output is not modelled.

  The definitions come first, module by module; the properties follow. *)

From Stdlib Require Import Reals Lra Lia ZArith List Ascii String.
From stdpp Require Import gmap strings list sorting.

(** ** Vectors of the MV.js package *)

(** A vector is a JavaScript array of numbers. *)
Definition vec : Type := list R.

(** Modelled from the spec: MV.js is not part of the sources; its
  documentation says of [vec4([a], [b], [c], [d])] that it constructs a
  4 element vector and that missing values are assumed to be 0. *)
Definition vec4 (a b c d : R) : vec := [a; b; c; d].

(** [v[k]]. Reading past the end of a JavaScript array gives [undefined];
  the statements below only read components that exist. *)
Definition elt (v : vec) (k : nat) : R := nth k v 0%R.

(** ** The mesh builder (soda-can.js) *)

Module Mesh.

(** [circle(c, r, n, verts)] *)
Definition circle (c : vec) (r : R) (n : nat) (verts : list vec) : list vec :=
  let theta := (2 * PI / INR n)%R in
  fold_left
    (fun verts i =>
       let b := vec4 (elt c 0 + cos (INR i * theta) * r) (elt c 2)
                     (elt c 1 + sin (INR i * theta) * r) 1 in
       verts ++ [b])
    (seq 0 n) verts.

(** [cylinder(c, r, n, h, verts, inds)] *)
Definition cylinder (c : vec) (r : R) (n : nat) (h : R)
    (verts : list vec) (inds : list Z) : list vec * list Z :=
  let offset := Z.of_nat (length verts) in
  let verts := circle (vec4 (elt c 0) (elt c 1) h 0) r n verts in
  let verts := circle (vec4 (elt c 0) (elt c 1) (- h) 0) r n verts in
  let inds :=
    fold_left
      (fun inds i =>
         (inds ++ [Z.of_nat i + offset]) ++ [Z.of_nat i + Z.of_nat n + offset])%Z
      (seq 0 n) inds in
  let inds := inds ++ [offset] in
  let inds := inds ++ [offset + Z.of_nat n]%Z in
  let inds := inds ++ [offset + Z.of_nat n]%Z in
  (verts, inds).

(** [add_truncated_cone(mult_1, mult_2, n, offset, inds)] *)
Definition add_truncated_cone (mult_1 mult_2 : Z) (n : nat) (offset : Z)
    (inds : list Z) : list Z :=
  let inds := inds ++ [mult_1 * Z.of_nat n + offset]%Z in
  let inds :=
    fold_left
      (fun inds i =>
         (inds ++ [Z.of_nat i + mult_1 * Z.of_nat n + offset])
           ++ [Z.of_nat i + mult_2 * Z.of_nat n + offset])%Z
      (seq 0 n) inds in
  let inds := inds ++ [mult_1 * Z.of_nat n + offset]%Z in
  let inds := inds ++ [mult_2 * Z.of_nat n + offset]%Z in
  let inds := inds ++ [mult_2 * Z.of_nat n + offset]%Z in
  inds.

(** The number of values [i = 0, 1, ...] with [i < n / 2], the division
    being the one of real numbers (see [half_up_spec]). *)
Definition half_up (n : nat) : nat := Nat.div2 (n + 1).

(** [add_circle_fill(n, offset, inds, reverse)]; [reverse] is [None] when
    the caller leaves it out. *)
Definition add_circle_fill (n : nat) (offset : Z) (inds : list Z)
    (reverse : option bool) : list Z :=
  let inds := inds ++ [offset] in
  let inds := inds ++ [offset] in
  match reverse with
  | Some true =>
      fold_left
        (fun inds i =>
           (inds ++ [Z.of_nat n - Z.of_nat i - 1 + offset])
             ++ [Z.of_nat i + 1 + offset])%Z
        (seq 0 (half_up n)) inds
  | _ =>
      fold_left
        (fun inds i =>
           (inds ++ [Z.of_nat i + 1 + offset])
             ++ [Z.of_nat n - Z.of_nat i - 1 + offset])%Z
        (seq 0 (half_up n)) inds
  end.

(** [soda_can(c, r1, r2, n, h, verts, inds)] *)
Definition soda_can (c : vec) (r1 r2 : R) (n : nat) (h : R)
    (verts : list vec) (inds : list Z) : list vec * list Z :=
  let offset := Z.of_nat (length verts) in
  let verts := circle (vec4 (elt c 0) (elt c 1) h 0) r2 n verts in
  let '(verts, inds) := cylinder c r1 n (h - 2 * (r1 - r2)) verts inds in
  let verts := circle (vec4 (elt c 0) (elt c 1) (- h) 0) r2 n verts in
  let inds := add_truncated_cone 0 1 n offset inds in
  let inds := add_truncated_cone 2 3 n offset inds in
  let inds := add_circle_fill n offset inds None in
  let inds := add_circle_fill n (offset + 3 * Z.of_nat n) inds (Some true) in
  (verts, inds).

(** The vertices one call of [circle] appends. *)
Definition circle_point (c : vec) (r : R) (n i : nat) : vec :=
  vec4 (elt c 0 + cos (INR i * (2 * PI / INR n)) * r) (elt c 2)
       (elt c 1 + sin (INR i * (2 * PI / INR n)) * r) 1.

(** Euclidean distance of the points [(x, y, z)] of two vectors. *)
Definition dist3 (u v : vec) : R :=
  sqrt ((elt u 0 - elt v 0)² + (elt u 1 - elt v 1)² + (elt u 2 - elt v 2)²).

(** Modelled from the spec: MV.js's [vec2([a], [b])], a 2 element
    vector. *)
Definition vec2 (a b : R) : vec := [a; b].

(** The texture coordinates that [init] builds for the can of [n] sides:
    [hyp], [cone], [heights] and the two nested loops. *)
Definition can_tex_heights (r1 r2 h : R) : list R :=
  let hyp := sqrt (8 * (r1 - r2) * (r1 - r2)) in
  let cone := (hyp / (2 * hyp + h))%R in
  [0; cone; 1 - cone; 1]%R.

Definition can_tex_coords (r1 r2 : R) (n : nat) (h : R) : list vec :=
  let heights := can_tex_heights r1 r2 h in
  fold_left
    (fun texCoords i =>
       fold_left
         (fun texCoords j => texCoords ++ [vec2 (INR j / INR n) (nth i heights 0%R)])
         (seq 0 n) texCoords)
    (seq 0 4) [].

(** *** Vocabulary of the statements *)

(** The indices that [cylinder], [add_truncated_cone] and
    [add_circle_fill] push. *)
Definition cylinder_strip (n : nat) (off : Z) : list Z :=
  flat_map (fun i => [Z.of_nat i + off; Z.of_nat i + Z.of_nat n + off]%Z) (seq 0 n)
  ++ [off; off + Z.of_nat n; off + Z.of_nat n]%Z.

Definition cone_strip (m1 m2 : Z) (n : nat) (off : Z) : list Z :=
  [m1 * Z.of_nat n + off]%Z
  ++ flat_map (fun i => [Z.of_nat i + m1 * Z.of_nat n + off;
                         Z.of_nat i + m2 * Z.of_nat n + off]%Z) (seq 0 n)
  ++ [m1 * Z.of_nat n + off; m2 * Z.of_nat n + off; m2 * Z.of_nat n + off]%Z.

Definition fill_strip (n : nat) (off : Z) (reverse : bool) : list Z :=
  [off; off]
  ++ flat_map
       (fun i =>
          if reverse
          then [Z.of_nat n - Z.of_nat i - 1 + off; Z.of_nat i + 1 + off]%Z
          else [Z.of_nat i + 1 + off; Z.of_nat n - Z.of_nat i - 1 + off]%Z)
       (seq 0 (half_up n)).

(** The center and the radius of ring [i] of the can, from the top inner
    circle (0) to the bottom inner circle (3). *)
Definition ring_center (c : vec) (r1 r2 h : R) (i : nat) : vec :=
  match i with
  | 0%nat => vec4 (elt c 0) (elt c 1) h 0
  | 1%nat => vec4 (elt c 0) (elt c 1) (h - 2 * (r1 - r2)) 0
  | 2%nat => vec4 (elt c 0) (elt c 1) (- (h - 2 * (r1 - r2))) 0
  | _ => vec4 (elt c 0) (elt c 1) (- h) 0
  end.

Definition ring_radius (r1 r2 : R) (i : nat) : R :=
  match i with 1%nat | 2%nat => r1 | _ => r2 end.

(** The strip triple at position [p] of an index sequence repeats an
    index, or is cut short by the end of the sequence. *)
Definition degenerate_at (inds : list Z) (p : nat) : Prop :=
  forall j k l, inds !! p = Some j -> inds !! (p + 1)%nat = Some k ->
                inds !! (p + 2)%nat = Some l -> j = k \/ k = l \/ l = j.

End Mesh.


(** ** The normal calculator (tools.js) *)

Module Normals.

#[global] Instance R_eq_dec : EqDecision R := Req_dec_T.

(** Modelled from the spec: MV.js is not part of the sources. Its
    documentation gives [add] and [subtract] as the element-wise sum and
    difference of two vectors, [dot] as the dot product, [length] as the
    square root of the dot product of a vector with itself and [cross] as
    the cross product of two vectors. The cross product of two [vec4]
    directions is taken as the spatial cross product with last component
    0, so that it can be added to a [vec4] accumulator. *)
Definition add (u v : vec) : vec := zip_with Rplus u v.
Definition subtract (u v : vec) : vec := zip_with Rminus u v.
Definition dot (u v : vec) : R := fold_right Rplus 0%R (zip_with Rmult u v).
Definition vlength (u : vec) : R := sqrt (dot u u).
Definition cross (u v : vec) : vec :=
  vec4 (elt u 1 * elt v 2 - elt u 2 * elt v 1)
       (elt u 2 * elt v 0 - elt u 0 * elt v 2)
       (elt u 0 * elt v 1 - elt u 1 * elt v 0)
       0.

(** Modelled from the spec: MV.js's [normalize(u)], documented as
    normalizing the vector so that its length is 1, divides each component
    by [length(u)]. What the JavaScript function returns for the zero
    vector is not documented; [calc_normals] below takes the function as
    an argument, and no statement depends on the value of this instance at
    the zero vector. *)
Definition unit_normalize (u : vec) : vec := map (fun x => (x / vlength u)%R) u.

(** [arr[j]] for a number [j]: [None] stands for [undefined]. *)
Definition lookupZ {A : Type} (arr : list A) (j : Z) : option A :=
  if decide (0 <= j)%Z then arr !! Z.to_nat j else None.

(** [ensure_vec4(v, last)]; [None] stands for the thrown exception. *)
Definition ensure_vec4 (v : vec) (last : R) : option vec :=
  if decide (length v = 3%nat) then Some (v ++ [last])
  else if decide (length v ≠ 4%nat ∨ elt v 3 ≠ last) then None
  else Some v.

(** [skip.sort(function (a, b) { return a - b; })]: ascending numeric
    order. *)
Fixpoint insert_num (x : Z) (l : list Z) : list Z :=
  match l with
  | [] => [x]
  | y :: l' => if (x <=? y)%Z then x :: l else y :: insert_num x l'
  end.

Definition sort_num (l : list Z) : list Z := foldr insert_num [] l.

(** The values of [i] in [for (let i = 0; i < len - 2; i += inc)]. *)
Definition face_starts (inc len : nat) : list nat :=
  filter (fun i => i `mod` inc = 0%nat) (seq 0 (len - 2)).

(** The variables the face loop of [calc_normals] updates. *)
Record loop_state := LoopState { skipInd : nat; normals : list vec }.

(** [normals[j] = add(normals[j], face_norm)] *)
Definition accumulate (j : Z) (face_norm : vec) (normals : list vec) : list vec :=
  alter (fun u => add u face_norm) (Z.to_nat j) normals.

(** The body of the face loop past its two guards: the face normal of
    the triangle [(j, k, l)] is added to the accumulators of its three
    vertices. [flip] is [strip && (i%2) !== 0]; [None] stands for an
    exception ([ensure_vec4] throws, or a vertex is missing). *)
Definition add_face (verts : list vec) (flip : bool) (j k l : Z)
    (normals : list vec) : option (list vec) :=
  vj ← lookupZ verts j; a ← ensure_vec4 vj 1;
  vk ← lookupZ verts k; b ← ensure_vec4 vk 1;
  vl ← lookupZ verts l; c ← ensure_vec4 vl 1;
  let face_norm :=
    cross (if flip then subtract a b else subtract b a) (subtract a c) in
  Some (accumulate l face_norm
          (accumulate k face_norm
             (accumulate j face_norm normals))).

(** One iteration of the face loop, at position [i]. *)
Definition face_step (verts : list vec) (inds : list Z) (strip : bool)
    (skip : list Z) (st : loop_state) (i : nat) : option loop_state :=
  if decide (skip !! skipInd st = Some (Z.of_nat i)) then
    Some (LoopState (skipInd st + 1) (normals st))
  else
    j ← inds !! i; k ← inds !! (i + 1)%nat; l ← inds !! (i + 2)%nat;
    if decide (j = k ∨ k = l ∨ l = j) then Some st
    else
      normals ← add_face verts (strip && negb (i `mod` 2 =? 0)%nat) j k l
                  (normals st);
      Some (LoopState (skipInd st) normals).

(** The face loop: the accumulators before the normalization pass. *)
Definition face_loop (verts : list vec) (inds : list Z) (strip : bool)
    (skip : list Z) : option loop_state :=
  foldl (fun st i => st ≫= fun st => face_step verts inds strip skip st i)
        (Some (LoopState 0 (replicate (length verts) (vec4 0 0 0 0))))
        (face_starts (if strip then 1 else 3) (length inds)).

(** *** The same call on a store of arrays

    The caller's arrays live in a store and are passed by reference, so
    that an alias is visible; the array of normals that the call returns
    is new and is given by its contents. *)
Definition loc : Type := positive.

Record store := Store { nums : gmap loc (list Z); vecs : gmap loc (list vec) }.

(** [new Array] of numbers with the given contents, at an unused
    location. *)
Definition alloc_nums (l : list Z) (h : store) : loc * store :=
  let p := fresh (dom (nums h)) in
  (p, Store (<[p := l]> (nums h)) (vecs h)).

(** [arr.slice(0)] *)
Definition slice0 (arr : loc) (h : store) : option (loc * store) :=
  l ← nums h !! arr; Some (alloc_nums l h).

(** [arr.sort(function (a, b) { return a - b; })], in place. *)
Definition sort_in_place (arr : loc) (h : store) : store :=
  Store (alter sort_num arr (nums h)) (vecs h).

(** [arr.push(x)], in place. *)
Definition push (arr : loc) (x : Z) (h : store) : store :=
  Store (alter (fun l => l ++ [x]) arr (nums h)) (vecs h).

(** *** Vocabulary of the statements *)

(** The positions whose triangle the face loop accumulates, those that
    pass both guards, computed with the cursor of the loop: [skip] is
    the local array, sorted and closed by the sentinel. *)
Definition contributing_step (inds : list Z) (skip : list Z)
    (st : nat * list nat) (i : nat) : nat * list nat :=
  if decide (skip !! st.1 = Some (Z.of_nat i)) then ((st.1 + 1)%nat, st.2)
  else
    match inds !! i, inds !! (i + 1)%nat, inds !! (i + 2)%nat with
    | Some j, Some k, Some l =>
        if decide (j = k ∨ k = l ∨ l = j) then st else (st.1, st.2 ++ [i])
    | _, _, _ => st
    end.

Definition contributing_faces (inds : list Z) (strip : bool) (skip : list Z)
    : list nat :=
  (foldl (contributing_step inds skip) (0%nat, [])
         (face_starts (if strip then 1 else 3) (length inds))).2.

(** Vertex [v] is a corner of the triangle at position [i]. *)
Definition corner_of (inds : list Z) (i v : nat) : Prop :=
  inds !! i = Some (Z.of_nat v) ∨ inds !! (i + 1)%nat = Some (Z.of_nat v)
  ∨ inds !! (i + 2)%nat = Some (Z.of_nat v).

(** Vertex [v] is touched by a triangle that is neither skipped nor
    degenerate. *)
Definition touched (inds : list Z) (strip : bool) (skip : list Z) (v : nat) : Prop :=
  exists i, i ∈ contributing_faces inds strip skip /\ corner_of inds i v.

(** A vertex that [ensure_vec4(v, 1)] accepts: a [vec3], or a [vec4] whose
    last component is 1. *)
Definition position (v : vec) : Prop :=
  length v = 3%nat \/ (length v = 4%nat /\ elt v 3 = 1%R).

(** Two runs of the face loop agree: both threw, or they hold the same
    accumulators, with their cursors at [c1] and [c2]. *)
Definition loops_agree (c1 c2 : nat) (o1 o2 : option loop_state) : Prop :=
  match o1, o2 with
  | Some s1, Some s2 =>
      normals s1 = normals s2 /\ skipInd s1 = c1 /\ skipInd s2 = c2
  | None, None => True
  | _, _ => False
  end.

(** What the face loop keeps true, next to the loop that collects the
    contributing positions. *)
Definition loop_inv (inds : list Z) (N : nat) (o : option loop_state)
    (c : nat * list nat) : Prop :=
  match o with
  | None => True
  | Some st =>
      skipInd st = c.1 /\ length (normals st) = N /\
      Forall (fun u => length u = 4%nat) (normals st) /\
      forall v, (forall i, i ∈ c.2 -> ~ corner_of inds i v) ->
                (v < N)%nat -> normals st !! v = Some (vec4 0 0 0 0)
  end.

(** The index sequence without the triangle that starts at [i]. *)
Definition remove_triangle (inds : list Z) (i : nat) : list Z :=
  take i inds ++ drop (i + 3) inds.

(** The index [j] names a vertex that [ensure_vec4(verts[j], 1)]
    accepts. *)
Definition usable (verts : list vec) (j : Z) : Prop :=
  exists v, lookupZ verts j = Some v /\ position v.

(** The three indices of the triangle at position [i] are usable. *)
Definition face_usable (verts : list vec) (inds : list Z) (i : nat) : Prop :=
  forall d j, (d < 3)%nat -> inds !! (i + d)%nat = Some j -> usable verts j.

Section WithNormalize.
Variable normalize : vec -> vec.

(** [calc_normals] from [let skipInd = 0] on: [skip] is the local array,
      sorted and closed by the sentinel -1. *)
Definition calc_normals_body (verts : list vec) (inds : list Z) (strip : bool)
      (skip : list Z) : option (list vec) :=
    st ← face_loop verts inds strip skip;
    Some (map normalize (normals st)).

(** [calc_normals(verts, inds, strip, skip)] on the contents of the
      arrays; an argument left out is [None]. *)
Definition calc_normals (verts : list vec) (inds : list Z)
      (strip : option bool) (skip : option (list Z)) : option (list vec) :=
    let strip := default true strip in
    let skip := default [] skip in
    let skip := sort_num skip ++ [(-1)%Z] in
    calc_normals_body verts inds strip skip.

(** [calc_normals(verts, inds, strip, skip)] on references: the result
      ([None] for an exception or a dangling reference) and the store the
      call leaves behind. *)
Definition calc_normals_st (verts inds : loc) (strip : option bool)
      (skip : option loc) (h : store) : option (list vec) * store :=
    let strip := default true strip in
    match
      match skip with
      | None => Some (alloc_nums [] h)
      | Some skip => slice0 skip h
      end
    with
    | None => (None, h)
    | Some (skip, h) =>
        let h := push skip (-1) (sort_in_place skip h) in
        (vs ← vecs h !! verts; ids ← nums h !! inds; sk ← nums h !! skip;
         calc_normals_body vs ids strip sk,
         h)
    end.

(** The third claim of the normal calculator, as its specification
      words it: a vertex touched by a triangle that is neither skipped
      nor degenerate receives a normal of length 1, every other vertex
      the zero vector. *)
Definition unit_or_zero_claim (verts : list vec) (inds : list Z)
      (strip : option bool) (skip : option (list Z)) : Prop :=
    let strip' := default true strip in
    let skip' := sort_num (default [] skip) ++ [(-1)%Z] in
    forall ns, calc_normals verts inds strip skip = Some ns ->
    forall v n, ns !! v = Some n ->
      (touched inds strip' skip' v -> vlength n = 1%R) /\
      (~ touched inds strip' skip' v -> n = vec4 0 0 0 0).
End WithNormalize.

(** *** Sample meshes *)

(** A right triangle in the plane z = 0, given by [vec3] positions. *)
Definition triangle_verts : list vec :=
  [[0; 0; 0]; [1; 0; 0]; [0; 1; 0]]%R.

(** The same with a fourth vertex away from it. *)
Definition sample_verts : list vec := triangle_verts ++ [[5; 5; 5]%R].

(** A triangle list that holds the same triangle twice, with opposite
    orientations; vertex 3 is in no triangle. *)
Definition two_sided_inds : list Z := [0; 1; 2; 0; 2; 1]%Z.

(** A triangle strip whose triangles at positions 1 and 2 are
    degenerate. *)
Definition strip_inds : list Z := [0; 1; 2; 2; 1; 0]%Z.

End Normals.

(** ** The intersection test and the height-field mesh (tools.js) *)

Module Tools.
Import Normals.

(** Modelled from the spec: MV.js's [scale(s, u)], documented as scaling
    the vector [u] by the constant factor [s]. *)
Definition scale (s : R) (u : vec) : vec := map (Rmult s) u.

(** [line_seg_triangle_intersection(p, vec, a, b, c)]: the outer [None]
    stands for the exception of [ensure_vec4], the inner one for [null].
    [vec4(cross(u, v))] is [cross u v], whose last component is 0; it is
    only used in dot products with directions, whose last component is 0
    as well. *)
Definition line_seg_triangle_intersection (p vec a b c : list R)
    : option (option (list R)) :=
  p ← ensure_vec4 p 1;
  a ← ensure_vec4 a 1; b ← ensure_vec4 b 1; c ← ensure_vec4 c 1;
  vec ← ensure_vec4 vec 0;
  let u := subtract b a in
  let v := subtract c a in
  let uu := dot u u in
  let vv := dot v v in
  let uv := dot u v in
  let tri_scale := (uv * uv - uu * vv)%R in
  if decide (tri_scale = 0%R) then Some None
  else
    let n := cross u v in
    let denom := dot n vec in
    if decide (denom = 0%R) then Some None
    else
      let rI := (dot n (subtract a p) / denom)%R in
      if Rlt_dec rI 0 then Some None
      else if Rgt_dec rI 1 then Some None
      else
        let p := add p (scale rI vec) in
        let w := subtract p a in
        let wv := dot w v in
        let wu := dot w u in
        let sI := ((uv * wv - vv * wu) / tri_scale)%R in
        let tI := ((uv * wu - uu * wv) / tri_scale)%R in
        if Rlt_dec sI 0 then Some None
        else if Rlt_dec tI 0 then Some None
        else if Rgt_dec (sI + tI) 1 then Some None
        else Some (Some p).

(** [generate_mesh(data, verts, inds)] on the contents of the arrays it
    pushes onto. [data[0].length] throws on empty data ([None]). A row
    shorter than the first one holds [undefined] where this model reads
    0, and a single row or column makes the source divide by zero: the
    statements on the coordinates take rectangular data of at least two
    rows and two columns. *)
Definition generate_mesh (data : list (list R)) (verts : list vec) (inds : list Z)
    : option (list vec * list Z) :=
  match data with
  | [] => None
  | row0 :: _ =>
      let off := Z.of_nat (length verts) in
      let n := length data in
      let m := length row0 in
      let verts :=
        fold_left
          (fun verts i =>
             fold_left
               (fun verts j =>
                  verts ++ [vec4 (2 * INR i / (INR n - 1) - 1)
                                 (elt (nth i data []) j)
                                 (2 * INR j / (INR m - 1) - 1) 1])
               (seq 0 m) verts)
          (seq 0 n) verts in
      let inds :=
        fold_left
          (fun inds i =>
             fold_left
               (fun inds j =>
                  inds ++ [off + Z.of_nat i * Z.of_nat m + Z.of_nat j;
                           off + (Z.of_nat i + 1) * Z.of_nat m + Z.of_nat j]%Z)
               (seq 0 m) inds
             ++ [off + (Z.of_nat i + 2) * Z.of_nat m - 1;
                 off + (Z.of_nat i + 1) * Z.of_nat m]%Z)
          (seq 0 (n - 1)) inds in
      Some (verts, inds)
  end.

(** *** Vocabulary of the statements *)

(** The point of the plane of the triangle [(a, b, c)] with the
    coordinates [(s, t)] along its edges [b - a] and [c - a]. *)
Definition triangle_point (a b c : vec) (s t : R) : vec :=
  add a (add (scale s (subtract b a)) (scale t (subtract c a))).

(** The indices that one row of rectangles of [generate_mesh] pushes. *)
Definition mesh_row (m : nat) (off : Z) (i : nat) : list Z :=
  flat_map (fun j => [off + Z.of_nat i * Z.of_nat m + Z.of_nat j;
                      off + (Z.of_nat i + 1) * Z.of_nat m + Z.of_nat j]%Z)
           (seq 0 m)
  ++ [off + (Z.of_nat i + 2) * Z.of_nat m - 1; off + (Z.of_nat i + 1) * Z.of_nat m]%Z.

(** The vertex that [generate_mesh] pushes for the entry [(i, j)]. *)
Definition mesh_vertex (data : list (list R)) (n m i j : nat) : vec :=
  vec4 (2 * INR i / (INR n - 1) - 1) (elt (nth i data []) j)
       (2 * INR j / (INR m - 1) - 1) 1.

End Tools.

(** ** The movement handlers (soda-can.js) *)

Module View.

(** [drag_mode]: ['rotate'] or ['move']. *)
Inductive mode := Rotate | Move.

(** What the handlers read of a [MouseEvent] and of its target, the
    canvas. *)
Record mouse_event := MouseEvent {
  shiftKey : bool;
  buttons : Z;
  clientX : R; clientY : R;
  clientLeft : R; clientTop : R;
  rect_left : R; rect_top : R;
  scrollLeft : R; scrollTop : R;
  width : R; height : R
}.

(** The globals of the movement system. A global that has not been
    assigned yet is [None]. [listening] tells whether [onMouseMove] and
    [onMouseUp] are registered on the canvas. The upload of the
    model-view matrix by [update_model_view] changes none of them and is
    not modelled. *)
Record view := MkView {
  thetas : list R;
  position : list R;
  cur_scale : R;
  drag_mode : option mode;
  initial_coord : option vec;
  initial_thetas : option (list R);
  initial_pos : option (list R);
  listening : bool
}.

(** The globals when the script has loaded. *)
Definition initial : view :=
  MkView [0; 0; 0]%R [0; 0; 0]%R (4 / 10)%R None None None None false.

(** [mouse_coords(evt)] *)
Definition mouse_coords (evt : mouse_event) : vec :=
  let x := (clientX evt - clientLeft evt - rect_left evt + scrollLeft evt)%R in
  let y := (clientY evt - clientTop evt - rect_top evt + scrollTop evt)%R in
  let x := (2 * (x / width evt) - 1)%R in
  let y := (1 - 2 * (y / height evt))%R in
  Mesh.vec2 x y.

(** [onMouseDown(evt)] *)
Definition onMouseDown (evt : mouse_event) (st : view) : view :=
  MkView (thetas st) (position st) (cur_scale st)
         (Some (if shiftKey evt then Move else Rotate))
         (Some (mouse_coords evt)) (Some (thetas st)) (Some (position st)) true.

(** The update that [onMouseMove] and [onMouseUp] share; [None] stands
    for the [TypeError] of reading an index of [undefined]. The arrays
    [thetas] and [position] have 3 elements, so that the assignments
    replace an element. *)
Definition drag (coord : vec) (st : view) : option view :=
  ic ← initial_coord st;
  match drag_mode st with
  | Some Rotate =>
      it ← initial_thetas st;
      let thetas1 :=
        <[1%nat := (elt it 1 - (elt coord 0 - elt ic 0) * 180)%R]> (thetas st) in
      let thetas0 :=
        <[0%nat := (elt it 0 - (elt coord 1 - elt ic 1) * -180)%R]> thetas1 in
      Some (MkView thetas0 (position st) (cur_scale st) (drag_mode st)
                   (initial_coord st) (initial_thetas st) (initial_pos st)
                   (listening st))
  | _ =>
      ip ← initial_pos st;
      let position0 :=
        <[0%nat := (elt ip 0 + (elt coord 0 - elt ic 0))%R]> (position st) in
      let position1 :=
        <[1%nat := (elt ip 1 + (elt coord 1 - elt ic 1))%R]> position0 in
      Some (MkView (thetas st) position1 (cur_scale st) (drag_mode st)
                   (initial_coord st) (initial_thetas st) (initial_pos st)
                   (listening st))
  end.

(** [onMouseMove(evt)]: with no button down it asks the window, which
    has none, to drop the two listeners, and the canvas keeps them. *)
Definition onMouseMove (evt : mouse_event) (st : view) : option view :=
  if decide (buttons evt = 0%Z) then Some st
  else drag (mouse_coords evt) st.

(** [onMouseUp(evt)] *)
Definition onMouseUp (evt : mouse_event) (st : view) : option view :=
  st ← drag (mouse_coords evt) st;
  Some (MkView (thetas st) (position st) (cur_scale st) (drag_mode st)
               (initial_coord st) (initial_thetas st) (initial_pos st) false).

(** [onWheel(evt)], by [evt.deltaY]. *)
Definition onWheel (deltaY : R) (st : view) : view :=
  MkView (thetas st) (position st) (cur_scale st * ((1000 - deltaY) / 1000))%R
         (drag_mode st) (initial_coord st) (initial_thetas st) (initial_pos st)
         (listening st).

(** The events of the canvas. [mousedown] and [wheel] are always
    listened to, [mousemove] and [mouseup] while [listening]. *)
Inductive event :=
| MouseDown (evt : mouse_event)
| MouseMove (evt : mouse_event)
| MouseUp (evt : mouse_event)
| Wheel (deltaY : R).

Definition handle (st : view) (e : event) : option view :=
  match e with
  | MouseDown evt => Some (onMouseDown evt st)
  | MouseMove evt => if listening st then onMouseMove evt st else Some st
  | MouseUp evt => if listening st then onMouseUp evt st else Some st
  | Wheel deltaY => Some (onWheel deltaY st)
  end.

Definition run (st : view) (events : list event) : option view :=
  foldl (fun o e => o ≫= fun st => handle st e) (Some st) events.

(** *** Vocabulary of the statements *)

Definition is_move (e : event) : Prop :=
  match e with MouseMove _ => True | _ => False end.


End View.

(** ** The OBJ loader (objloader.js): parsing *)

Module Obj.

(** *** Tokens *)

Definition chars (s : string) : list ascii := list_ascii_of_string s.

(** [\d] *)
Definition is_digit (c : ascii) : bool :=
  (48 <=? nat_of_ascii c)%nat && (nat_of_ascii c <=? 57)%nat.

(** [/^-?\d+$/] *)
Definition is_int (l : list ascii) : bool :=
  let digits := match l with "-"%char :: l' => l' | _ => l end in
  match digits with [] => false | _ => forallb is_digit digits end.

(** [s.split(sep)] for a separator of one character. *)
Fixpoint split_on (sep : ascii) (l : list ascii) : list (list ascii) :=
  match l with
  | [] => [[]]
  | c :: l' =>
      if decide (c = sep) then [] :: split_on sep l'
      else match split_on sep l' with
           | p :: ps => (c :: p) :: ps
           | [] => [[c]]
           end
  end.

(** [types[t].test(s)] for the four face types [v], [v/t], [v//n] and
    [v/t/n]: the regular expressions accept the integers separated by
    exactly these slashes. *)
Definition type_test (t : nat) (s : string) : bool :=
  match t, split_on "/"%char (chars s) with
  | 0%nat, [a] => is_int a
  | 1%nat, [a; b] => is_int a && is_int b
  | 2%nat, [a; []; c] => is_int a && is_int c
  | 3%nat, [a; b; c] => is_int a && is_int b && is_int c
  | _, _ => false
  end.

(** [for (t = 0; t < types.length && !types[t].test(s); t++);] where [None]
    stands for [t === types.length]. *)
Definition first_type (s : string) : option nat :=
  List.find (fun t => type_test t s) [0; 1; 2; 3]%nat.

(** The number that [x *= 1] gives for a string [x] accepted by
    [/^-?\d+$/]; the rounding of integers beyond 2^53 is outside the
    model. *)
Definition digit_val (c : ascii) : Z := (Z.of_nat (nat_of_ascii c) - 48)%Z.

Definition digits_val (l : list ascii) : Z :=
  fold_left (fun acc c => (10 * acc + digit_val c)%Z) l 0%Z.

Definition int_val (l : list ascii) : Z :=
  match l with
  | "-"%char :: l' => (- digits_val l')%Z
  | _ => digits_val l
  end.

(** [if (x < 0) { x += len; } else { x -= 1; }] *)
Definition adjust (x : Z) (len : nat) : Z :=
  if decide (x < 0)%Z then (x + Z.of_nat len)%Z else (x - 1)%Z.

(** [x < 0 || x >= len] *)
Definition out_of_range (x : Z) (len : nat) : bool :=
  bool_decide (x < 0 ∨ x >= Z.of_nat len)%Z.

(** A corner of a face after the conversion: the 0-based indices of its
    position, of its texture coordinate and of its normal; an index that the
    face type does not have is [None]. *)
Record corner := Corner { c_v : Z; c_t : option Z; c_n : option Z }.

(** [a = s.split('/')] followed by the conversion of [a[0]], of [a[1]] if
    [hasT] and of [a[2]] if [hasN]. *)
Definition convert_corner (hasT hasN : bool) (nv nt nn : nat) (s : string) : corner :=
  let a := split_on "/"%char (chars s) in
  Corner (adjust (int_val (nth 0 a [])) nv)
         (if hasT then Some (adjust (int_val (nth 1 a [])) nt) else None)
         (if hasN then Some (adjust (int_val (nth 2 a [])) nn) else None).

(** The test of [// Check for valid face], for one corner. *)
Definition corner_invalid (nv nt nn : nat) (c : corner) : bool :=
  out_of_range (c_v c) nv
  || from_option (fun t => out_of_range t nt) false (c_t c)
  || from_option (fun n => out_of_range n nn) false (c_n c).

(** The three corners of the face [f a b c], when the face is kept:
    [None] when the three strings do not have one face type, or an index
    is out of range. *)
Definition face_corners (nv nt nn : nat) (a b c : string)
    : option (corner * corner * corner) :=
  t ← first_type a;
  if negb (type_test t b) || negb (type_test t c) then None
  else
    let hasT := bool_decide (t = 1 ∨ t = 3)%nat in
    let hasN := bool_decide (t = 2 ∨ t = 3)%nat in
    let ca := convert_corner hasT hasN nv nt nn a in
    let cb := convert_corner hasT hasN nv nt nn b in
    let cc := convert_corner hasT hasN nv nt nn c in
    if corner_invalid nv nt nn ca || corner_invalid nv nt nn cb
       || corner_invalid nv nt nn cc
    then None
    else Some (ca, cb, cc).

(** The index string [p] names the entry [i], counted from 0, of a list
    of [len] entries: a positive index counts from 1 at the start of the
    list, a negative index counts back from its end, [-1] being the last
    entry. *)
Definition counts_from_start (len : nat) (p : list ascii) (i : Z) : Prop :=
  is_int p = true /\ (0 <= i < Z.of_nat len)%Z /\ int_val p = (i + 1)%Z.

Definition counts_back (len : nat) (p : list ascii) (i : Z) : Prop :=
  is_int p = true /\ (0 <= i < Z.of_nat len)%Z /\ int_val p = (i - Z.of_nat len)%Z.

Definition names_entry (len : nat) (p : list ascii) (i : Z) : Prop :=
  counts_from_start len p i \/ counts_back len p i.

(** The corner string [s] has the face type [t] ([0] for [v], [1] for
    [v/t], [2] for [v//n], [3] for [v/t/n]) and its indices name the
    entries of [c]: the position among [nv] positions, the texture
    coordinate among [nt] and the normal among [nn]. *)
Definition corner_names (nv nt nn : nat) (t : nat) (s : string) (c : corner) : Prop :=
  match t, split_on "/"%char (chars s) with
  | 0%nat, [a] => names_entry nv a (c_v c) /\ c_t c = None /\ c_n c = None
  | 1%nat, [a; b] =>
      names_entry nv a (c_v c)
      /\ match c_t c with Some j => names_entry nt b j | None => False end
      /\ c_n c = None
  | 2%nat, [a; []; n] =>
      names_entry nv a (c_v c) /\ c_t c = None
      /\ match c_n c with Some k => names_entry nn n k | None => False end
  | 3%nat, [a; b; n] =>
      names_entry nv a (c_v c)
      /\ match c_t c with Some j => names_entry nt b j | None => False end
      /\ match c_n c with Some k => names_entry nn n k | None => False end
  | _, _ => False
  end.

Section WithNumbers.

(** The JavaScript numbers of the positions, normals and texture
    coordinates, with the conversion [+s] of a token and
    [Number.prototype.toString]. *)
Context {num : Type}.
Variable to_number : string -> num.
Variable number_to_string : num -> string.

(** A [vec2] or [vec3]. *)
Definition vecn : Type := list num.

(** [Array.prototype.toString]: the elements joined by commas. *)
Definition vec_to_string (v : vecn) : string :=
  String.concat "," (List.map number_to_string v).

(** *** The vertex-deduplication indexer *)

(** The variables [get_idx] closes over; [null] is [None]. *)
Record indexer := Indexer {
  idx_map : gmap string nat;
  verts : list vecn;
  texCoords : list (option vecn);
  normals : list (option vecn)
}.

(** The key [s] of [get_idx(v, t, n)]. Its third part tests
    [typeof t === "undefined"] where the second tests [t]; as [get_idx] is
    only called with [null] or an array for [t], that test is false on
    both sides. *)
Definition key (v : vecn) (t n : option vecn) : string :=
  vec_to_string v +:+ ";" +:+ from_option vec_to_string EmptyString t
    +:+ ";" +:+ from_option vec_to_string EmptyString n.

(** [get_idx(v, t, n)]: the index and the indexer it leaves. *)
Definition get_idx (v : vecn) (t n : option vecn) (ix : indexer) : nat * indexer :=
  let s := key v t n in
  match idx_map ix !! s with
  | Some i => (i, ix)
  | None =>
      (length (verts ix),
       Indexer (<[s := length (verts ix)]> (idx_map ix))
               (verts ix ++ [v]) (texCoords ix ++ [t]) (normals ix ++ [n]))
  end.

(** A run of calls of [get_idx], by their arguments. *)
Definition get_all (cs : list (vecn * option vecn * option vecn)) (ix : indexer)
    : indexer :=
  foldl (fun ix c => (get_idx c.1.1 c.1.2 c.2 ix).2) ix cs.

(** The three output sequences are index-aligned, and an index that the
    map holds for a key refers to entries with that key. *)
Definition aligned (ix : indexer) : Prop :=
  length (texCoords ix) = length (verts ix) /\
  length (normals ix) = length (verts ix) /\
  forall s i, idx_map ix !! s = Some i ->
    exists v t n, verts ix !! i = Some v /\ texCoords ix !! i = Some t /\
                  normals ix !! i = Some n /\ key v t n = s.

(** *** The state of [obj_loader] *)

Record part := Part {
  start : nat;
  count : option nat;
  material : option string;
  material_context : list string
}.

Record object := Object { name : option string; parts : list part }.

Record state := State {
  vs : list vecn; vns : list vecn; vts : list vecn;
  ix : indexer;
  missingNormal : bool; hasTexCoord : bool;
  inds : list nat;
  objs : list object;
  cur_mtl : option string;
  mtls : list string;
  (** the files passed to [load_mtl], in the order of the calls *)
  requests : list string
}.

Definition init : state :=
  State [] [] [] (Indexer ∅ [] [] []) false false [] 
        [Object None [Part 0 None None []]] None [] [].

(** [arr[j]] for an index that the validity test has accepted. *)
Definition at_index (arr : list vecn) (j : Z) : vecn :=
  nth (Z.to_nat j) arr [].

(** The values [v_a], [vt_a] and [vn_a] of a corner. *)
Definition fetch (st : state) (c : corner) : vecn * option vecn * option vecn :=
  (at_index (vs st) (c_v c),
   (fun t => at_index (vts st) t) <$> c_t c,
   (fun n => at_index (vns st) n) <$> c_n c).

(** The branch [// Finally, add the vertices] of a face. *)
Definition add_face (hasT hasN : bool) (ca cb cc : corner) (st : state) : state :=
  let '(v_a, vt_a, vn_a) := fetch st ca in
  let '(v_b, vt_b, vn_b) := fetch st cb in
  let '(v_c, vt_c, vn_c) := fetch st cc in
  let '(ia, ix1) := get_idx v_a vt_a vn_a (ix st) in
  let '(ib, ix2) := get_idx v_b vt_b vn_b ix1 in
  let '(ic, ix3) := get_idx v_c vt_c vn_c ix2 in
  State (vs st) (vns st) (vts st) ix3
        (if hasN then missingNormal st else true)
        (if hasT then true else hasTexCoord st)
        (inds st ++ [ia; ib; ic])
        (objs st) (cur_mtl st) (mtls st) (requests st).

(** The command [f]. *)
Definition face (args : list string) (st : state) : state :=
  match args with
  | [a; b; c] =>
      match face_corners (length (vs st)) (length (vts st)) (length (vns st)) a b c with
      | Some (ca, cb, cc) =>
          add_face (bool_decide (is_Some (c_t ca))) (bool_decide (is_Some (c_n ca)))
                   ca cb cc st
      | None => st
      end
  | _ => st
  end.

(** The closing of the current part, shared by [usemtl], [o] and the end of
    the file: [ni] is [inds.length]; the part is dropped when it is empty,
    and for [o] and the end of the file ([drop_object]) the object goes
    with its only part. *)
Definition close_part (drop_object : bool) (ni : nat) (objs : list object)
    : list object :=
  match reverse objs with
  | o :: older =>
      match reverse (parts o) with
      | p :: earlier =>
          if decide (ni = start p) then
            if drop_object && bool_decide (length (parts o) = 1%nat)
            then reverse older
            else reverse (Object (name o) (reverse earlier) :: older)
          else
            reverse
              (Object (name o)
                 (reverse (Part (start p) (Some (ni - start p)%nat) (material p)
                                (material_context p) :: earlier))
               :: older)
      | [] => objs
      end
  | [] => objs
  end.

(** [parts.push(p)] on the parts of the last object. *)
Definition push_part (p : part) (objs : list object) : list object :=
  match reverse objs with
  | o :: older => reverse (Object (name o) (parts o ++ [p]) :: older)
  | [] => objs
  end.

(** One argument of [mtllib]. *)
Definition mtllib_arg (st : state) (mtl : string) : state :=
  State (vs st) (vns st) (vts st) (ix st) (missingNormal st) (hasTexCoord st)
        (inds st) (objs st) (cur_mtl st)
        (mtls st ++ [mtl])
        (if decide (mtl ∈ mtls st) then requests st else requests st ++ [mtl]).

(** The body of the loop over the lines, for a line that is not [null]. *)
Definition command (st : state) (cmd : string) (args : list string) : state :=
  if decide (cmd = "mtllib") then foldl mtllib_arg st args
  else if decide (cmd = "usemtl") then
    match args with
    | [m] =>
        let ni := length (inds st) in
        State (vs st) (vns st) (vts st) (ix st) (missingNormal st) (hasTexCoord st)
              (inds st)
              (push_part (Part ni None (Some m) (mtls st))
                         (close_part false ni (objs st)))
              (Some m) (mtls st) (requests st)
    | _ => st
    end
  else if decide (cmd = "o") then
    match args with
    | [o] =>
        let ni := length (inds st) in
        State (vs st) (vns st) (vts st) (ix st) (missingNormal st) (hasTexCoord st)
              (inds st)
              (close_part true ni (objs st)
                 ++ [Object (Some o) [Part ni None (cur_mtl st) (mtls st)]])
              (cur_mtl st) (mtls st) (requests st)
    | _ => st
    end
  else if decide (cmd = "v") then
    match args with
    | x :: y :: z :: ([] | [_]) =>
        State (vs st ++ [[to_number x; to_number y; to_number z]]) (vns st) (vts st)
              (ix st) (missingNormal st) (hasTexCoord st) (inds st) (objs st)
              (cur_mtl st) (mtls st) (requests st)
    | _ => st
    end
  else if decide (cmd = "vn") then
    match args with
    | [x; y; z] =>
        State (vs st) (vns st ++ [[to_number x; to_number y; to_number z]]) (vts st)
              (ix st) (missingNormal st) (hasTexCoord st) (inds st) (objs st)
              (cur_mtl st) (mtls st) (requests st)
    | _ => st
    end
  else if decide (cmd = "vt") then
    match args with
    | u :: v :: ([] | [_]) =>
        State (vs st) (vns st) (vts st ++ [[to_number u; to_number v]])
              (ix st) (missingNormal st) (hasTexCoord st) (inds st) (objs st)
              (cur_mtl st) (mtls st) (requests st)
    | _ => st
    end
  else if decide (cmd = "f") then face args st
  else st.

(** A line of [_read_lines]: [None] for [null], a blank line or a
    comment. *)
Definition line : Type := option (list string).

(** The white space that [trim] removes, among the characters of ASCII. *)
Definition is_space (c : ascii) : bool :=
  (nat_of_ascii c =? 32)%nat
  || ((9 <=? nat_of_ascii c)%nat && (nat_of_ascii c <=? 13)%nat).

Fixpoint trim_start (l : list ascii) : list ascii :=
  match l with
  | c :: l' => if is_space c then trim_start l' else l
  | [] => []
  end.

(** [s.trim()] *)
Definition trim (l : list ascii) : list ascii :=
  reverse (trim_start (reverse (trim_start l))).

(** [_read_lines(txt)]; a string is a sequence of ASCII characters here. *)
Definition _read_lines (txt : string) : list line :=
  (fun raw =>
     match trim raw with
     | [] => None
     | c :: rest =>
         if decide (c = "#"%char) then None
         else Some (string_of_list_ascii
                      <$> filter (fun part => part ≠ []) (split_on " "%char (c :: rest)))
     end) <$> split_on "010"%char (chars txt).

Definition step (st : state) (l : line) : state :=
  match l with
  | Some (cmd :: args) => command st cmd args
  | _ => st
  end.

(** The loop over the lines, then [// Finish up the last object/part]. The
    filling in of missing normals and texture coordinates that follows in
    the source changes entries of [normals] and [texCoords] in place and is
    not part of [parse]. *)
Definition parse (lines : list line) : state :=
  let st := foldl step init lines in
  State (vs st) (vns st) (vts st) (ix st) (missingNormal st) (hasTexCoord st)
        (inds st) (close_part true (length (inds st)) (objs st))
        (cur_mtl st) (mtls st) (requests st).

(** The second step of [// Fill in missing values], on the state that
    [parse] leaves: when a face had texture coordinates, the entries of
    [texCoords] that are [null] become [vec2(0,0)], and otherwise
    [texCoords] itself becomes [null], here [None]; [vec2(0,0)] is the
    array of two zeros, as [vec2(u, v)] is that of [u] and [v] in the
    command [vt], and [0] is the number of the token [0]. The first step,
    which replaces the normals that are [null] by those of
    [_calc_normals], is not modelled. *)
Definition fill_texCoords (st : state) : option (list vecn) :=
  if hasTexCoord st
  then Some (default [to_number "0"; to_number "0"] <$> texCoords (ix st))
  else None.

(** *** Vocabulary of the statements *)

(** The arrays of a state describe an indexed triangle list: its three
    output sequences are index-aligned, every index names an output
    vertex, and the indices come in threes. *)
Definition well_indexed (st : state) : Prop :=
  aligned (ix st) /\
  Forall (fun i => (i < length (verts (ix st)))%nat) (inds st) /\
  (length (inds st) `mod` 3 = 0)%nat.

(** The parts [ps], in order, cover the indices from [from] up to [to]:
    each part is closed, starts where the one before it ends and draws
    at least one index. *)
Fixpoint tiles (ps : list part) (from to : nat) : Prop :=
  match ps with
  | [] => from = to
  | p :: ps =>
      start p = from /\
      exists c, count p = Some c /\ (0 < c)%nat /\ tiles ps (from + c) to
  end.

(** What the loop over the lines keeps true of the objects: the last part
    of the last object is open and starts at or before the end of the
    indices, the parts before it tile the indices up to its start, no
    object before the last is without parts, and every material context
    is a prefix of [mtls]. *)
Definition objs_inv (st : state) : Prop :=
  exists older nm earlier p,
    objs st = older ++ [Object nm (earlier ++ [p])] /\
    count p = None /\ (start p <= length (inds st))%nat /\
    tiles (flat_map parts older ++ earlier) 0 (start p) /\
    Forall (fun o => parts o <> []) older /\
    Forall (fun q => material_context q `prefix_of` mtls st)
           (flat_map parts (objs st)).

End WithNumbers.

(** *** Sample files *)

Definition newline : string := String "010"%char EmptyString.

(** Three vertex definitions, one per line. *)
Definition three_vertices : string :=
  "v 0 0 0" +:+ newline +:+ "v 1 0 0" +:+ newline +:+ "v 0 1 0" +:+ newline.

(** Three positions, two texture coordinates and one normal. *)
Definition textured_vertices : string :=
  three_vertices +:+ "vt 0 0" +:+ newline +:+ "vt 1 1" +:+ newline
    +:+ "vn 0 0 1" +:+ newline.

End Obj.

(** ** The OBJ loader (objloader.js): materials and completion *)

Module Loader.

(** *** The array [mtls] and its properties

    [mtls] holds the names of the material libraries as elements, and the
    callbacks store the loaded materials in it under the name of the file,
    [mtls[mtl_name] = materials]. A name that is an array index writes an
    element and can extend the array; any other name is a property beside
    the elements. *)

(** A canonical array index: the decimal numeral, without leading zero, of
    an integer below 2^32 - 1. *)
Definition array_index (key : string) : option nat :=
  let l := Obj.chars key in
  match l with
  | [] => None
  | c :: l' =>
      if forallb Obj.is_digit l
         && (negb (Ascii.eqb c "0") || bool_decide (l' = []))
         && bool_decide (Obj.digits_val l < 4294967295)%Z
      then Some (Z.to_nat (Obj.digits_val l))
      else None
  end.

Inductive key_class := ArrayIndex (k : nat) | LengthKey | PlainKey.

Definition classify (key : string) : key_class :=
  match array_index key with
  | Some k => ArrayIndex k
  | None => if decide (key = "length") then LengthKey else PlainKey
  end.

Section WithNumbers.

Context {num : Type}.
Variable to_number : string -> num.
Variable number_to_string : num -> string.
(** [!isNaN(s)] for a token [s]. *)
Variable numeric : string -> bool.

(** *** Materials *)

(** An argument of a command of an MTL file after [mtl_loader] has
    converted it: a string, the number of a numeric token, or the image of
    a texture map, by its number among the images of the file. *)
Inductive mtl_arg := Str (s : string) | Num (s : string) | Img (k : nat).

(** [(args.length === 1) ? args[0] : args] *)
Inductive mtl_value := One (a : mtl_arg) | Many (l : list mtl_arg).

Definition material : Type := gmap string mtl_value.
Definition materials : Type := gmap string material.

(** [_def_material()] *)
Definition _def_material : material :=
  <["Ka" := Many [Num "1"; Num "1"; Num "1"]]>
    (<["Kd" := Many [Num "1"; Num "1"; Num "1"]]>
       (<["Ks" := Many [Num "1"; Num "1"; Num "1"]]>
          (<["d" := One (Num "1")]> (<["Ns" := One (Num "10")]> ∅)))).

(** The commands that name a texture map. *)
Definition texture_commands : list string :=
  ["map_Ka"; "map_Kd"; "map_Ks"; "map_Ns"; "map_d"; "disp"; "decal"; "bump";
   "map_bump"; "refl"].

(** The variables of [mtl_loader] while it reads the lines; the current
    material is kept by its name, as [cur_mtl] and [materials[name]] are one
    object. *)
Record mtl_state := MtlState {
  m_cur : option string;
  m_materials : materials;
  m_needed : nat
}.

(** [args[args.length-1] = img]: an empty [args] stays empty. *)
Definition set_last (img : mtl_arg) (args : list mtl_arg) : list mtl_arg :=
  match args with
  | [] => []
  | _ => take (length args - 1) args ++ [img]
  end.

(** The body of the loop of [mtl_loader], for a line that is not [null]. *)
Definition mtl_command (st : mtl_state) (cmd : string) (args : list string)
    : mtl_state :=
  if decide (cmd = "newmtl") then
    match args with
    | [mtl] =>
        MtlState (Some mtl)
                 (<[mtl := <["name" := One (Str mtl)]> _def_material]> (m_materials st))
                 (m_needed st)
    | _ => st
    end
  else
    match m_cur st with
    | None => st
    | Some cur =>
        let args := (fun a => if numeric a then Num a else Str a) <$> args in
        let is_map := bool_decide (cmd ∈ texture_commands) in
        let args := if is_map then set_last (Img (m_needed st)) args else args in
        let value := match args with [a] => One a | _ => Many args end in
        MtlState (Some cur)
                 (alter (fun m => <[cmd := value]> m) cur (m_materials st))
                 (if is_map then (m_needed st + 1)%nat else m_needed st)
    end.

Definition mtl_step (st : mtl_state) (l : Obj.line) : mtl_state :=
  match l with
  | Some (cmd :: args) => mtl_command st cmd args
  | _ => st
  end.

(** The loop of [mtl_loader]: the materials of the file and the number of
    its texture images, [needed_txts]. *)
Definition mtl_parse (lines : list Obj.line) : mtl_state :=
  foldl mtl_step (MtlState None ∅ 0) lines.

(** *** The array [mtls] *)

(** A value in [mtls]: the name that [mtls.push(mtl)] stores, the materials
    of a loaded file, [null] of a failed one, a number, or a hole. *)
Inductive slot :=
| SName (s : string) | SLoaded (m : materials) | SNull | SNumber (n : nat) | SHole.

Record js_array := JsArray { elems : list slot; props : gmap string slot }.

(** [arr[key] = v]; [None] stands for the [RangeError] of an array length
    that is not a number. *)
Definition set_prop (key : string) (v : slot) (a : js_array) : option js_array :=
  match classify key with
  | ArrayIndex k =>
      Some (JsArray
              (if decide (k < length (elems a))%nat then <[k := v]> (elems a)
               else elems a ++ replicate (k - length (elems a)) SHole ++ [v])
              (props a))
  | LengthKey =>
      match v with
      | SNull => Some (JsArray [] (props a))
      | _ => None
      end
  | PlainKey => Some (JsArray (elems a) (<[key := v]> (props a)))
  end.

(** [arr[key]], among the elements and the properties of the array
    itself. *)
Definition get_prop (a : js_array) (key : string) : slot :=
  match classify key with
  | ArrayIndex k => default SHole (elems a !! k)
  | LengthKey => SNumber (length (elems a))
  | PlainKey => default SHole (props a !! key)
  end.



(** The search of [finish_materials] for the material [m] of a part, from
    the last library of its context to the first: [Some None] when no
    library defines it, and [None] for the [TypeError] of the operator [in]
    on a value that is neither [null] nor an object. Properties that a
    material object inherits are outside the model. *)
Fixpoint lookup_material (mtls : js_array) (context_rev : list string) (m : string)
    : option (option material) :=
  match context_rev with
  | [] => Some None
  | lib :: older =>
      match get_prop mtls lib with
      | SNull => lookup_material mtls older m
      | SLoaded ms =>
          match ms !! m with
          | Some mat => Some (Some mat)
          | None => lookup_material mtls older m
          end
      | _ => None
      end
  end.

(** *** The state of the loading *)

(** An [mtl_loader] that waits for its images; [waiting] holds the numbers
    of the images that have not fired [load] or [error] yet. *)
Record loader := MkLoader {
  l_url : string;
  l_materials : materials;
  needed_txts : nat;
  loaded_txts : nat;
  waiting : gset nat
}.

Record resolver := Resolver {
  (** what [obj_loader] has parsed *)
  obj : @Obj.state num;
  mtls : js_array;
  loaded_mtls : nat;
  (** the requests for material files, by their position in
      [Obj.requests], that have not fired [load] or [error] yet *)
  in_flight : gset nat;
  loaders : gmap nat loader;
  (** the calls of [mtl_loaded] and [mtl_error] so far, by request *)
  reported : list nat;
  (** the number of calls of [ondone] *)
  ondone_calls : nat
}.

(** [finish_materials()] completes when no search throws, and then calls
    [ondone]. *)
Definition finish_ok (r : resolver) : bool :=
  forallb
    (fun o =>
       forallb
         (fun p =>
            match Obj.material p with
            | None => true
            | Some m =>
                bool_decide
                  (is_Some (lookup_material (mtls r)
                              (reverse (Obj.material_context p)) m))
            end)
         (Obj.parts o))
    (Obj.objs (obj r)).

Definition finish_materials (r : resolver) : resolver :=
  if finish_ok r then
    Resolver (obj r) (mtls r) (loaded_mtls r) (in_flight r) (loaders r)
             (reported r) (ondone_calls r + 1)
  else r.

(** The body shared by [mtl_loaded] and [mtl_error]: the assignment to
    [mtls[key]], then [if (++loaded_mtls === mtls.length) {
    finish_materials(); }]. *)
Definition mtl_done (req : nat) (key : string) (v : slot) (r : resolver) : resolver :=
  match set_prop key v (mtls r) with
  | None =>
      Resolver (obj r) (mtls r) (loaded_mtls r) (in_flight r) (loaders r)
               (reported r ++ [req]) (ondone_calls r)
  | Some a =>
      let r' := Resolver (obj r) a (loaded_mtls r + 1) (in_flight r) (loaders r)
                         (reported r ++ [req]) (ondone_calls r) in
      if decide (loaded_mtls r + 1 = length (elems a))%nat
      then finish_materials r' else r'
  end.

(** [mtl_loaded(mtl_name, materials)] *)
Definition mtl_loaded (req : nat) (mtl_name : string) (ms : materials)
    (r : resolver) : resolver :=
  mtl_done req mtl_name (SLoaded ms) r.

(** [mtl_error] is registered as the listener of the [error] event of the
    request, so that its parameter [mtl_name] is the event, and the key of
    [mtls[mtl_name] = null] is the string of that event. *)
Definition error_event_key : string := "[object ProgressEvent]".

Definition mtl_error (req : nat) (r : resolver) : resolver :=
  mtl_done req error_event_key SNull r.

(** *** Events *)

(** What the browser reports: a material file has loaded, with its lines,
    or has failed; a texture image has loaded ([ok]) or failed. *)
Inductive event :=
| FileLoad (req : nat) (text : list Obj.line)
| FileError (req : nat)
| ImageDone (req img : nat) (ok : bool).

(** [obj_loader]: the parsing, then [if (mtls.length === 0) {
    finish_materials(); }]. *)
Definition start (lines : list Obj.line) : resolver :=
  let st := Obj.parse to_number number_to_string lines in
  let r := Resolver st (JsArray (SName <$> Obj.mtls st) ∅) 0
                    (list_to_set (seq 0 (length (Obj.requests st)))) ∅ [] 0 in
  if decide (length (Obj.mtls st) = 0)%nat then finish_materials r else r.

(** [mtl_loader], the listener of [load] of request [req]. *)
Definition on_file_load (req : nat) (text : list Obj.line) (r : resolver)
    : option resolver :=
  if decide (req ∈ in_flight r) then
    url ← Obj.requests (obj r) !! req;
    let p := mtl_parse text in
    let l := MkLoader url (m_materials p) (m_needed p) 0
                      (list_to_set (seq 0 (m_needed p))) in
    let r := Resolver (obj r) (mtls r) (loaded_mtls r) (in_flight r ∖ {[req]})
                      (<[req := l]> (loaders r)) (reported r) (ondone_calls r) in
    Some (if decide (m_needed p = 0)%nat
          then mtl_loaded req url (m_materials p) r else r)
  else None.

(** The listener of [error] of request [req]. *)
Definition on_file_error (req : nat) (r : resolver) : option resolver :=
  if decide (req ∈ in_flight r) then
    Some (mtl_error req
            (Resolver (obj r) (mtls r) (loaded_mtls r) (in_flight r ∖ {[req]})
                      (loaders r) (reported r) (ondone_calls r)))
  else None.

(** The listeners of [load] and [error] of an image: [if (needed_txts ===
    ++loaded_txts) { finish_textures(); }]. *)
Definition on_image (req img : nat) (r : resolver) : option resolver :=
  l ← loaders r !! req;
  if decide (img ∈ waiting l) then
    let l' := MkLoader (l_url l) (l_materials l) (needed_txts l)
                       (loaded_txts l + 1) (waiting l ∖ {[img]}) in
    let r := Resolver (obj r) (mtls r) (loaded_mtls r) (in_flight r)
                      (<[req := l']> (loaders r)) (reported r) (ondone_calls r) in
    Some (if decide (needed_txts l = loaded_txts l + 1)%nat
          then mtl_loaded req (l_url l) (l_materials l) r else r)
  else None.

(** One event; [None] when the browser cannot report it: each request and
    each image fires one event, once. *)
Definition handle (r : resolver) (e : event) : option resolver :=
  match e with
  | FileLoad req text => on_file_load req text r
  | FileError req => on_file_error req r
  | ImageDone req img _ => on_image req img r
  end.

(** The events of a schedule, in turn. *)
Definition run (r : resolver) (trace : list event) : option resolver :=
  foldl (fun o e => o ≫= fun r => handle r e) (Some r) trace.

(** What every reachable state of the loading satisfies, for [n] requests
    and [m] names in [mtls] at the end of the parsing. *)
Definition resolver_inv (n m : nat) (r : resolver) : Prop :=
  (n <= m)%nat /\
  length (Obj.requests (obj r)) = n /\
  (loaded_mtls r <= length (reported r))%nat /\
  NoDup (reported r) /\
  (forall req, req ∈ reported r ->
     (req < n)%nat /\ (req ∉ in_flight r) /\
     forall l, loaders r !! req = Some l -> waiting l = ∅) /\
  (forall req l, loaders r !! req = Some l ->
     (req < n)%nat /\ (req ∉ in_flight r) /\
     (loaded_txts l + size (waiting l) = needed_txts l)%nat) /\
  (m <= length (elems (mtls r)))%nat /\
  ((0 < ondone_calls r)%nat -> length (reported r) = n /\ (m <= n)%nat) /\
  (forall req, req ∈ in_flight r -> (req < n)%nat) /\
  (ondone_calls r <= 1)%nat.

(** What a schedule and the state it leads to have in common. *)
Definition history_inv (n : nat) (trace : list event) (r : resolver) : Prop :=
  (forall req, (req < n)%nat -> req ∉ in_flight r ->
     (exists text, FileLoad req text ∈ trace) \/ FileError req ∈ trace) /\
  (forall req l img, loaders r !! req = Some l ->
     (img < needed_txts l)%nat -> img ∉ waiting l ->
     exists ok, ImageDone req img ok ∈ trace) /\
  (forall req l, loaders r !! req = Some l ->
     exists text, FileLoad req text ∈ trace
                  /\ needed_txts l = m_needed (mtl_parse text)) /\
  (forall req text, FileLoad req text ∈ trace -> is_Some (loaders r !! req)).

(** A schedule on which every material file loads, with one texture map in
    it. *)
Definition one_texture_each (trace : list event) : Prop :=
  Forall (fun e => match e with
                   | FileLoad _ text => m_needed (mtl_parse text) = 1%nat
                   | FileError _ => False
                   | ImageDone _ _ _ => True
                   end) trace.

(** A file whose one [mtllib] line names the same library twice. *)
Definition duplicate_lines : list Obj.line := [Some ["mtllib"; "a.mtl"; "a.mtl"]].

(** A file with one triangle that uses a material of the library
    [a.mtl]. *)
Definition one_material_lines : list Obj.line :=
  [Some ["mtllib"; "a.mtl"]; Some ["usemtl"; "m"];
   Some ["v"; "0"; "0"; "0"]; Some ["v"; "1"; "0"; "0"]; Some ["v"; "0"; "1"; "0"];
   Some ["f"; "1"; "2"; "3"]].

(** Every load has reported. *)
Definition quiescent (r : resolver) : Prop :=
  in_flight r = ∅ /\ forall req l, loaders r !! req = Some l -> waiting l = ∅.

End WithNumbers.

(** What [mtllib] does to [mtls] and to the requests, for one name. *)
Definition note_library (s : list string * list string) (mtl : string)
    : list string * list string :=
  (s.1 ++ [mtl], if decide (mtl ∈ s.1) then s.2 else s.2 ++ [mtl]).

(** The arguments of the [mtllib] lines of a file, in order. *)
Definition mtllib_names (lines : list Obj.line) : list string :=
  flat_map (fun l => match l with
                     | Some (cmd :: args) =>
                         if decide (cmd = "mtllib") then args else []
                     | _ => []
                     end) lines.

End Loader.
(** * Properties *)

(** ** Generic list facts shared by the developments below *)

Section ListFacts.
Context {A B : Type}.

(** A [for] loop that pushes [f i] in turn appends their concatenation. *)
Lemma fold_left_push (f : B -> list A) (l : list B) (acc : list A) :
  fold_left (fun acc i => acc ++ f i) l acc = acc ++ flat_map f l.
Proof.
  revert acc; induction l as [|b l IH]; intros acc; simpl.
  - by rewrite app_nil_r.
  - by rewrite IH, app_assoc.
Qed.

Lemma flat_map_length_const (f : B -> list A) (l : list B) (k : nat) :
  (forall b, length (f b) = k) -> length (flat_map f l) = (length l * k)%nat.
Proof.
  intros Hk; induction l as [|b l IH]; simpl; [done|].
  rewrite length_app, Hk, IH; lia.
Qed.

Lemma Forall_flat_map_seq (P : A -> Prop) (f : nat -> list A) (a n : nat) :
  (forall i, (a <= i < a + n)%nat -> Forall P (f i)) ->
  Forall P (flat_map f (seq a n)).
Proof.
  revert a; induction n as [|n IH]; intros a Hf; simpl; [constructor|].
  apply Forall_app; split.
  - apply Hf; lia.
  - apply IH; intros i Hi; apply Hf; lia.
Qed.
Lemma fold_left_ext {C : Type} (f g : C -> B -> C) (l : list B) (acc : C) :
  (forall a b, f a b = g a b) -> fold_left f l acc = fold_left g l acc.
Proof.
  intros Hfg; revert acc; induction l as [|b l IH]; intros acc; simpl; [done|].
  by rewrite Hfg, IH.
Qed.

Lemma flat_map_single (f : B -> A) (l : list B) :
  flat_map (fun b => [f b]) l = map f l.
Proof. induction l as [|b l IH]; simpl; [done|]. by rewrite IH. Qed.
End ListFacts.

(** ** The mesh builder *)

Section MeshFacts.
Import Mesh.

Lemma half_up_spec (n i : nat) :
  (INR i < INR n / 2)%R <-> (i < half_up n)%nat.
Proof.
  unfold half_up.
  assert (Hd : (2 * Nat.div2 (n + 1) = n + 1 \/ 2 * Nat.div2 (n + 1) = n)%nat).
  { destruct (Nat.Even_or_Odd (n + 1)) as [He|Ho].
    - left. apply Nat.Even_double in He. unfold Nat.double in He. lia.
    - right. apply Nat.Odd_double in Ho. unfold Nat.double in Ho. lia. }
  split.
  - intros Hlt.
    assert (H2 : (INR (2 * i) < INR n)%R) by (rewrite mult_INR; simpl; lra).
    apply INR_lt in H2. lia.
  - intros Hlt.
    assert (H2 : (2 * i < n)%nat) by lia.
    apply lt_INR in H2. rewrite mult_INR in H2. simpl in H2. lra.
Qed.

Lemma circle_eq (c : vec) (r : R) (n : nat) (verts : list vec) :
  circle c r n verts = verts ++ map (circle_point c r n) (seq 0 n).
Proof.
  unfold circle.
  rewrite (fold_left_push (fun i => [circle_point c r n i])).
  by rewrite flat_map_single.
Qed.

Lemma circle_length (c : vec) (r : R) (n : nat) (verts : list vec) :
  length (circle c r n verts) = (length verts + n)%nat.
Proof. by rewrite circle_eq, length_app, length_map, length_seq. Qed.

Lemma dist3_circle_point (c : vec) (r : R) (n i : nat) :
  (0 <= r)%R ->
  dist3 (circle_point c r n i) (vec4 (elt c 0) (elt c 2) (elt c 1) 1) = r.
Proof.
  intros Hr. unfold dist3, circle_point, vec4, elt; simpl.
  set (a := (INR i * (2 * PI / INR n))%R).
  replace ((nth 0 c 0 + cos a * r - nth 0 c 0)² + (nth 2 c 0 - nth 2 c 0)²
           + (nth 1 c 0 + sin a * r - nth 1 c 0)²)%R with (r²)%R.
  - by apply sqrt_Rsqr.
  - pose proof (sin2_cos2 a) as Hsc. unfold Rsqr in *.
    replace (r * r)%R with ((sin a * sin a + cos a * cos a) * (r * r))%R
      by (rewrite Hsc; ring).
    ring.
Qed.

Lemma cylinder_inds (c : vec) (r : R) (n : nat) (h : R)
    (verts : list vec) (inds : list Z) :
  let off := Z.of_nat (length verts) in
  (cylinder c r n h verts inds).2 =
    inds ++ flat_map (fun i => [Z.of_nat i + off; Z.of_nat i + Z.of_nat n + off]%Z)
                     (seq 0 n)
         ++ [off; off + Z.of_nat n; off + Z.of_nat n]%Z.
Proof.
  intros off. unfold cylinder; simpl.
  rewrite (fold_left_ext _
    (fun acc i => acc ++ [Z.of_nat i + off; Z.of_nat i + Z.of_nat n + off]%Z)).
  - rewrite fold_left_push. by rewrite <- !app_assoc.
  - intros acc i. by rewrite <- app_assoc.
Qed.

Lemma add_truncated_cone_eq (m1 m2 : Z) (n : nat) (off : Z) (inds : list Z) :
  add_truncated_cone m1 m2 n off inds =
    inds ++ [m1 * Z.of_nat n + off]%Z
         ++ flat_map (fun i => [Z.of_nat i + m1 * Z.of_nat n + off;
                                Z.of_nat i + m2 * Z.of_nat n + off]%Z) (seq 0 n)
         ++ [m1 * Z.of_nat n + off; m2 * Z.of_nat n + off;
             m2 * Z.of_nat n + off]%Z.
Proof.
  unfold add_truncated_cone.
  rewrite (fold_left_ext _
    (fun acc i => acc ++ [Z.of_nat i + m1 * Z.of_nat n + off;
                          Z.of_nat i + m2 * Z.of_nat n + off]%Z)).
  - rewrite fold_left_push. by rewrite <- !app_assoc.
  - intros acc i. by rewrite <- app_assoc.
Qed.

Lemma add_circle_fill_eq (n : nat) (off : Z) (inds : list Z) (reverse : option bool) :
  add_circle_fill n off inds reverse =
    inds ++ [off; off]
         ++ flat_map
              (fun i =>
                 if bool_decide (reverse = Some true)
                 then [Z.of_nat n - Z.of_nat i - 1 + off; Z.of_nat i + 1 + off]%Z
                 else [Z.of_nat i + 1 + off; Z.of_nat n - Z.of_nat i - 1 + off]%Z)
              (seq 0 (half_up n)).
Proof.
  unfold add_circle_fill.
  destruct reverse as [[|]|]; simpl;
    match goal with
    | |- fold_left _ _ _ = _ ++ _ :: _ :: flat_map ?f _ =>
        rewrite (fold_left_ext _ (fun acc i => acc ++ f i));
          [ rewrite fold_left_push; by rewrite <- !app_assoc
          | intros acc i; simpl; by rewrite <- app_assoc ]
    end.
Qed.

Lemma half_up_bound (n i : nat) : (i < half_up n)%nat -> (2 * i < n)%nat.
Proof.
  intros Hi. apply half_up_spec in Hi.
  assert (H2 : (INR (2 * i) < INR n)%R) by (rewrite mult_INR; simpl; lra).
  by apply INR_lt in H2.
Qed.

(** C6: for n >= 3, a center c and a radius r, [circle] appends exactly n
    vertices; the i-th lies at angle i*(2*pi/n), the first at angle 0, and
    each is at Euclidean distance r from the center lifted into the plane
    of the circle, the point (c[0], c[2], c[1]). *)
Theorem circle_n_points_on_radius (c : vec) (r : R) (n : nat) (verts : list vec) :
  (3 <= n)%nat -> (3 <= length c)%nat -> (0 <= r)%R ->
  let new := map (circle_point c r n) (seq 0 n) in
  let center := vec4 (elt c 0) (elt c 2) (elt c 1) 1 in
  circle c r n verts = verts ++ new /\
  length new = n /\
  new !! 0%nat = Some (vec4 (elt c 0 + r) (elt c 2) (elt c 1) 1) /\
  forall i, (i < n)%nat ->
    exists v,
      new !! i = Some v /\
      v = vec4 (elt c 0 + cos (INR i * (2 * PI / INR n)) * r) (elt c 2)
               (elt c 1 + sin (INR i * (2 * PI / INR n)) * r) 1 /\
      dist3 v center = r.
Proof.
  intros Hn Hc Hr new center. repeat split.
  - apply circle_eq.
  - unfold new. by rewrite length_map, length_seq.
  - unfold new. destruct n as [|n]; [lia|]. simpl. f_equal.
    unfold circle_point. simpl. rewrite Rmult_0_l, cos_0, sin_0.
    unfold vec4. f_equal; [ring|]. f_equal. f_equal. f_equal. ring.
  - intros i Hi. exists (circle_point c r n i). repeat split.
    + unfold new. rewrite list_lookup_fmap, lookup_seq_lt by done. done.
    + by apply dist3_circle_point.
Qed.

(** A concrete instance: a triangle of radius 2 around the origin. *)
Lemma circle_n_points_on_radius_witness :
  let c := vec4 0 0 0 0 in
  let new := map (circle_point c 2 3) (seq 0 3) in
  circle c 2 3 [] = [] ++ new /\ length new = 3%nat.
Proof.
  intros c new.
  destruct (circle_n_points_on_radius c 2 3 []) as (H1 & H2 & _).
  - lia.
  - simpl; lia.
  - lra.
  - split; [exact H1 | exact H2].
Defined.

(** C5: [cylinder] appends two circles of n vertices each, in the planes
    +h and -h, then the index pairs [top_i, bottom_i] for i in [0,n)
    relative to the starting offset, then the first pair again, then the
    index bottom_0 once more: 2n+3 indices in all. *)
Theorem cylinder_two_rings_and_strip (c : vec) (r : R) (n : nat) (h : R)
    (verts : list vec) (inds : list Z) :
  (3 <= n)%nat -> (2 <= length c)%nat ->
  let off := Z.of_nat (length verts) in
  let top := map (circle_point (vec4 (elt c 0) (elt c 1) h 0) r n) (seq 0 n) in
  let bottom := map (circle_point (vec4 (elt c 0) (elt c 1) (- h) 0) r n) (seq 0 n) in
  let pairs :=
    flat_map (fun i => [Z.of_nat i + off; Z.of_nat i + Z.of_nat n + off]%Z) (seq 0 n) in
  let closing := [off; off + Z.of_nat n; off + Z.of_nat n]%Z in
  cylinder c r n h verts inds = (verts ++ top ++ bottom, inds ++ pairs ++ closing) /\
  length top = n /\ length bottom = n /\
  (forall v, v ∈ top -> elt v 1 = h) /\
  (forall v, v ∈ bottom -> elt v 1 = (- h)%R) /\
  length (pairs ++ closing) = (2 * n + 3)%nat.
Proof.
  intros Hn Hc off top bottom pairs closing. repeat split.
  - rewrite (surjective_pairing (cylinder c r n h verts inds)). f_equal.
    + unfold cylinder; simpl. by rewrite !circle_eq, <- app_assoc.
    + apply cylinder_inds.
  - unfold top. by rewrite length_map, length_seq.
  - unfold bottom. by rewrite length_map, length_seq.
  - intros v Hv. unfold top in Hv. apply list_elem_of_fmap in Hv as (i & -> & _). done.
  - intros v Hv. unfold bottom in Hv. apply list_elem_of_fmap in Hv as (i & -> & _). done.
  - rewrite length_app. unfold pairs.
    rewrite (flat_map_length_const _ _ 2) by done. rewrite length_seq. simpl. lia.
Qed.

Lemma cylinder_two_rings_and_strip_witness :
  (cylinder (vec4 0 0 0 0) 1 3 1 [] []).2 = [0; 3; 1; 4; 2; 5; 0; 3; 3]%Z.
Proof.
  destruct (cylinder_two_rings_and_strip (vec4 0 0 0 0) 1 3 1 [] []) as (H1 & _).
  - lia.
  - simpl; lia.
  - rewrite H1. reflexivity.
Defined.

Lemma soda_can_eq (c : vec) (r1 r2 : R) (n : nat) (h : R)
    (verts : list vec) (inds : list Z) :
  let off := Z.of_nat (length verts) in
  let '(verts', inds') := soda_can c r1 r2 n h verts inds in
  length verts' = (length verts + 4 * n)%nat /\
  inds' =
    add_circle_fill n (off + 3 * Z.of_nat n)
      (add_circle_fill n off
         (add_truncated_cone 2 3 n off
            (add_truncated_cone 0 1 n off
               (cylinder c r1 n (h - 2 * (r1 - r2))
                  (circle (vec4 (elt c 0) (elt c 1) h 0) r2 n verts) inds).2))
         None)
      (Some true).
Proof.
  intros off. unfold soda_can.
  destruct (cylinder _ _ _ _ _ _) as [v1 i1] eqn:Hcyl. split.
  - rewrite circle_length.
    assert (Hv : v1 = (cylinder c r1 n (h - 2 * (r1 - r2))
              (circle (vec4 (elt c 0) (elt c 1) h 0) r2 n verts) inds).1)
      by (by rewrite Hcyl).
    rewrite Hv. unfold cylinder; simpl. rewrite !circle_length. lia.
  - done.
Qed.

(** C2: for n >= 3, every entry of the index sequence that [soda_can]
    produces from empty [verts] and [inds] is a valid index into the
    vertex array it produces. The radii play no part in the indices, so
    no condition on them is needed. *)
Theorem soda_can_inds_valid (c : vec) (r1 r2 : R) (n : nat) (h : R) :
  (3 <= n)%nat ->
  let '(verts, inds) := soda_can c r1 r2 n h [] [] in
  Forall (fun idx => (0 <= idx < Z.of_nat (length verts))%Z) inds.
Proof.
  intros Hn.
  pose proof (soda_can_eq c r1 r2 n h [] []) as Heq.
  destruct (soda_can c r1 r2 n h [] []) as [verts inds].
  cbv zeta in Heq. destruct Heq as [Hlen ->]. rewrite Hlen.
  rewrite !add_circle_fill_eq, !add_truncated_cone_eq, cylinder_inds.
  rewrite circle_length. cbn [length app Nat.add bool_decide decide_rel].
  repeat first
    [ apply Forall_nil
    | apply Forall_cons; split
    | apply Forall_app; split
    | apply Forall_flat_map_seq; intros i Hi; cbn beta iota ];
    try lia.
  all: assert (2 * i < n)%nat by (apply half_up_bound; lia); lia.
Qed.

(** The index sequence of a can with four sides, as the source builds it:
    the body, the two cones, the two caps. *)
Example soda_can_inds_four_sides :
  (soda_can (vec4 0 0 0 0) 2 1 4 1 [] []).2
  = ([4; 8; 5; 9; 6; 10; 7; 11; 4; 8; 8]
     ++ [0; 0; 4; 1; 5; 2; 6; 3; 7; 0; 4; 4]
     ++ [8; 8; 12; 9; 13; 10; 14; 11; 15; 8; 12; 12]
     ++ [0; 0; 1; 3; 2; 2]
     ++ [12; 12; 15; 13; 14; 14])%Z.
Proof.
  pose proof (soda_can_eq (vec4 0 0 0 0) 2 1 4 1 [] []) as Heq.
  destruct (soda_can (vec4 0 0 0 0) 2 1 4 1 [] []) as [verts inds].
  cbv zeta in Heq. destruct Heq as [_ ->].
  rewrite !add_circle_fill_eq, !add_truncated_cone_eq, cylinder_inds.
  rewrite circle_length. reflexivity.
Qed.

Lemma soda_can_inds_valid_witness :
  let '(verts, inds) := soda_can (vec4 0 0 0 0) 2 1 3 1 [] [] in
  length verts = 12%nat /\
  Forall (fun idx => (0 <= idx < Z.of_nat (length verts))%Z) inds.
Proof.
  pose proof (soda_can_inds_valid (vec4 0 0 0 0) 2 1 3 1) as H.
  pose proof (soda_can_eq (vec4 0 0 0 0) 2 1 3 1 [] []) as Heq.
  destruct (soda_can (vec4 0 0 0 0) 2 1 3 1 [] []) as [verts inds].
  split; [apply Heq | apply H; lia].
Defined.

End MeshFacts.

(** ** The normal calculator *)

Section NormalsStore.
Import Normals.
Variable normalize : vec -> vec.

Lemma alloc_nums_fresh (l : list Z) (h : store) :
  nums h !! (alloc_nums l h).1 = None.
Proof. simpl. apply not_elem_of_dom, is_fresh. Qed.

(** The local copy of the skip list that the face loop reads. *)
Lemma local_skip_contents (l : list Z) (h : store) :
  let '(p, h1) := alloc_nums l h in
  nums (push p (-1) (sort_in_place p h1)) !! p = Some (sort_num l ++ [(-1)%Z]).
Proof.
  simpl. rewrite lookup_alter_eq, lookup_alter_eq, lookup_insert_eq. done.
Qed.

Lemma local_skip_frame (l : list Z) (h : store) :
  let '(p, h1) := alloc_nums l h in
  let h2 := push p (-1) (sort_in_place p h1) in
  vecs h2 = vecs h /\ nums h ⊆ nums h2.
Proof.
  simpl. split; [done|].
  apply map_subseteq_spec. intros q x Hq.
  assert (Hne : fresh (dom (nums h)) ≠ q).
  { intros <-. pose proof (alloc_nums_fresh l h) as Hf. simpl in Hf. congruence. }
  by rewrite !lookup_alter_ne, lookup_insert_ne.
Qed.

(** On a store that holds the caller's arrays, the call on references
    computes what [calc_normals] computes on their contents. *)
Lemma calc_normals_st_result (verts inds : loc) (strip : option bool)
    (skip : option loc) (h : store) (vs : list vec) (ids : list Z)
    (sk : option (list Z)) :
  vecs h !! verts = Some vs ->
  nums h !! inds = Some ids ->
  (skip ≫= fun p => nums h !! p) = sk ->
  (is_Some skip -> is_Some sk) ->
  (calc_normals_st normalize verts inds strip skip h).1
  = calc_normals normalize vs ids strip sk.
Proof.
  intros Hv Hi Hsk Hsome. unfold calc_normals_st, calc_normals.
  assert (Hgen : forall l,
    (let '(p, h1) := alloc_nums l h in
     let h2 := push p (-1) (sort_in_place p h1) in
     (vs0 ← vecs h2 !! verts; ids0 ← nums h2 !! inds; sk0 ← nums h2 !! p;
      calc_normals_body normalize vs0 ids0 (default true strip) sk0))
    = calc_normals_body normalize vs ids (default true strip)
        (sort_num l ++ [(-1)%Z])).
  { intros l. pose proof (local_skip_frame l h) as Hfr.
    pose proof (local_skip_contents l h) as Hct.
    destruct (alloc_nums l h) as [p h1]. cbv zeta in *.
    destruct Hfr as [Hvecs Hsub].
    pose proof (lookup_weaken _ _ _ _ Hi Hsub) as Hi2.
    set (h2 := push p (-1) (sort_in_place p h1)) in *.
    rewrite Hvecs, Hv. cbn [mbind option_bind].
    rewrite Hi2. cbn [mbind option_bind].
    by rewrite Hct. }
  destruct skip as [p|]; simpl in *.
  - destruct (nums h !! p) as [l|] eqn:Hp; simpl in *.
    + subst sk. unfold slice0. rewrite Hp. simpl.
      specialize (Hgen l). simpl in Hgen. exact Hgen.
    + subst sk. destruct Hsome as [? ?]; [eauto|done].
  - subst sk. specialize (Hgen []). simpl in Hgen. exact Hgen.
Qed.

(** C10: [calc_normals] does not change an array of its caller: the store
    it leaves behind holds every array that was allocated before the call,
    so [verts], [inds] and [skip], with the contents it had; the sort and
    the push of the sentinel act on a copy of [skip]. *)
Theorem calc_normals_keeps_arguments (verts inds : loc) (strip : option bool)
    (skip : option loc) (h : store) :
  let h' := (calc_normals_st normalize verts inds strip skip h).2 in
  vecs h' = vecs h /\ nums h ⊆ nums h'.
Proof.
  unfold calc_normals_st.
  destruct skip as [p|]; simpl.
  - unfold slice0. destruct (nums h !! p) as [l|] eqn:Hp; simpl; [|done].
    apply (local_skip_frame l h).
  - apply (local_skip_frame [] h).
Qed.

End NormalsStore.

Section FoldFacts.
Context {S1 S2 X : Type}.

(** Two loops over the same positions stay related when each pair of
    iterations keeps the relation. *)
Lemma foldl_rel (f : S1 -> X -> S1) (g : S2 -> X -> S2) (Rs : S1 -> S2 -> Prop)
    (l : list X) (s1 : S1) (s2 : S2) :
  Rs s1 s2 ->
  (forall s1 s2 x, x ∈ l -> Rs s1 s2 -> Rs (f s1 x) (g s2 x)) ->
  Rs (foldl f s1 l) (foldl g s2 l).
Proof.
  revert s1 s2; induction l as [|x l IH]; intros s1 s2 H0 Hstep; simpl; [done|].
  apply IH.
  - apply Hstep; [left | done].
  - intros t1 t2 y Hy. apply Hstep. by right.
Qed.

(** The same for loops whose positions are images of a common list. *)
Lemma foldl_rel_map {Y : Type} (f : S1 -> X -> S1) (g : S2 -> X -> S2)
    (Rs : S1 -> S2 -> Prop) (h1 h2 : Y -> X) (l : list Y) (s1 : S1) (s2 : S2) :
  Rs s1 s2 ->
  (forall s1 s2 y, y ∈ l -> Rs s1 s2 -> Rs (f s1 (h1 y)) (g s2 (h2 y))) ->
  Rs (foldl f s1 (map h1 l)) (foldl g s2 (map h2 l)).
Proof.
  revert s1 s2; induction l as [|y l IH]; intros s1 s2 H0 Hstep; simpl; [done|].
  apply IH.
  - apply Hstep; [left | done].
  - intros t1 t2 z Hz. apply Hstep. by right.
Qed.
End FoldFacts.

Section NormalsFacts.
Import Normals.

Lemma face_starts_strip (len : nat) : face_starts 1 len = seq 0 (len - 2).
Proof.
  unfold face_starts. induction (seq 0 (len - 2)) as [|x l IH]; [done|].
  rewrite filter_cons_True by (by rewrite Nat.mod_1_r). by rewrite IH.
Qed.

Lemma filter_mod3_seq (n : nat) :
  filter (fun i => i `mod` 3 = 0%nat) (seq 0 n)
  = map (fun t => (3 * t)%nat) (seq 0 ((n + 2) / 3)).
Proof.
  induction n as [|n IH]; [done|].
  pose proof (Nat.div_mod_eq n 3) as E1.
  pose proof (Nat.div_mod_eq (n + 2) 3) as E2.
  pose proof (Nat.div_mod_eq (S n + 2) 3) as E3.
  pose proof (Nat.mod_upper_bound n 3) as B1.
  pose proof (Nat.mod_upper_bound (n + 2) 3) as B2.
  pose proof (Nat.mod_upper_bound (S n + 2) 3) as B3.
  rewrite seq_S, filter_app, IH.
  destruct (decide (n `mod` 3 = 0%nat)) as [Hm|Hm].
  - assert (Hd : ((S n + 2) / 3 = S ((n + 2) / 3))%nat) by lia.
    rewrite Hd, seq_S, map_app.
    rewrite filter_cons_True, filter_nil by done.
    f_equal. cbn [map Nat.add]. f_equal. lia.
  - assert (Hd : ((S n + 2) / 3 = (n + 2) / 3)%nat) by lia.
    rewrite Hd.
    rewrite filter_cons_False, filter_nil, app_nil_r by done. done.
Qed.

(** In list mode the loop visits the starts of the complete triples. *)
Lemma face_starts_list (len : nat) :
  face_starts 3 len = map (fun t => (3 * t)%nat) (seq 0 (len / 3)).
Proof.
  unfold face_starts. rewrite filter_mod3_seq. f_equal. f_equal.
  destruct (decide (2 <= len)%nat) as [Hl|Hl].
  - by replace (len - 2 + 2)%nat with len by lia.
  - assert (Hlen : (len = 0 \/ len = 1)%nat) by lia.
    destruct Hlen as [-> | ->]; reflexivity.
Qed.

Lemma degenerate_step (verts : list vec) (inds : list Z) (strip : bool)
    (skip : list Z) (st : loop_state) (i : nat) (j k l : Z) :
  inds !! i = Some j -> inds !! (i + 1)%nat = Some k ->
  inds !! (i + 2)%nat = Some l ->
  j = k ∨ k = l ∨ l = j ->
  exists st', face_step verts inds strip skip st i = Some st'
              /\ normals st' = normals st.
Proof.
  intros Hj Hk Hl Hdeg. unfold face_step.
  destruct (decide (skip !! skipInd st = Some (Z.of_nat i))); [by eexists|].
  rewrite Hj, Hk, Hl. simpl. rewrite decide_True by done. by eexists.
Qed.

(** In list mode two iterations that are not skipped and read the same
    triple do the same to the accumulators. *)
Lemma face_step_list_agree (verts : list vec) (inds1 inds2 : list Z)
    (skip1 skip2 : list Z) (c1 c2 p1 p2 : nat) (o1 o2 : option loop_state) :
  loops_agree c1 c2 o1 o2 ->
  skip1 !! c1 ≠ Some (Z.of_nat p1) -> skip2 !! c2 ≠ Some (Z.of_nat p2) ->
  inds1 !! p1 = inds2 !! p2 ->
  inds1 !! (p1 + 1)%nat = inds2 !! (p2 + 1)%nat ->
  inds1 !! (p1 + 2)%nat = inds2 !! (p2 + 2)%nat ->
  loops_agree c1 c2
    (o1 ≫= fun st => face_step verts inds1 false skip1 st p1)
    (o2 ≫= fun st => face_step verts inds2 false skip2 st p2).
Proof.
  intros Hag Hs1 Hs2 H0 H1 H2.
  destruct o1 as [s1|], o2 as [s2|]; simpl in *; try done.
  destruct Hag as (Hn & <- & <-). unfold face_step.
  rewrite !decide_False by done. rewrite H0, H1, H2, Hn.
  destruct (inds2 !! p2) as [j|]; simpl; [|done].
  destruct (inds2 !! (p2 + 1)%nat) as [k|]; simpl; [|done].
  destruct (inds2 !! (p2 + 2)%nat) as [l|]; simpl; [|done].
  destruct (decide (j = k ∨ k = l ∨ l = j)); simpl; [done|].
  destruct (add_face verts false j k l (normals s2)); simpl; done.
Qed.

Lemma sort_num_single (x : Z) : sort_num [x] = [x].
Proof. reflexivity. Qed.

(** In list mode, skipping the triangle that starts at [i] leaves the
    accumulators that the loop computes without that triangle. *)
Lemma face_loop_skip_one (verts : list vec) (inds : list Z) (i : nat) :
  (i `mod` 3 = 0)%nat -> (i + 2 < length inds)%nat ->
  loops_agree 1 0
    (face_loop verts inds false [Z.of_nat i; (-1)%Z])
    (face_loop verts (remove_triangle inds i) false [(-1)%Z]).
Proof.
  intros Hmod Hlt. unfold face_loop, remove_triangle. rewrite !face_starts_list.
  pose proof (Nat.div_mod_eq i 3) as Ei.
  pose proof (Nat.div_mod_eq (length inds) 3) as El.
  pose proof (Nat.mod_upper_bound (length inds) 3) as Bl.
  set (t0 := (i / 3)%nat) in *. set (T := (length inds / 3)%nat) in *.
  assert (Hlen' : length (take i inds ++ drop (i + 3) inds) = (length inds - 3)%nat).
  { rewrite length_app, length_take, length_drop. lia. }
  pose proof (Nat.div_mod_eq (length inds - 3) 3) as El'.
  pose proof (Nat.mod_upper_bound (length inds - 3) 3) as Bl'.
  assert (HT' : ((length inds - 3) / 3 = T - 1)%nat) by lia.
  rewrite Hlen', HT'.
  replace T with (t0 + (1 + (T - 1 - t0)))%nat by lia.
  replace (t0 + (1 + (T - 1 - t0)) - 1)%nat with (t0 + (T - 1 - t0))%nat by lia.
  rewrite !seq_app, !map_app, !foldl_app. cbn [seq map foldl Nat.add].
  replace (seq (t0 + 1) (T - 1 - t0)) with (map S (seq t0 (T - 1 - t0)))
    by (rewrite Nat.add_1_r; apply seq_shift).
  rewrite map_map.
  set (body1 := fun (st : option loop_state) (p : nat) =>
                  st ≫= fun st => face_step verts inds false [Z.of_nat i; (-1)%Z] st p).
  set (body2 := fun (st : option loop_state) (p : nat) =>
                  st ≫= fun st => face_step verts (take i inds ++ drop (i + 3) inds)
                                    false [(-1)%Z] st p).
  set (init := Some (LoopState 0 (replicate (length verts) (vec4 0 0 0 0)))).
  (* the triangles before position i *)
  assert (Hpre : loops_agree 0 0
            (foldl body1 init (map (fun t => (3 * t)%nat) (seq 0 t0)))
            (foldl body2 init (map (fun t => (3 * t)%nat) (seq 0 t0)))).
  { apply foldl_rel_map; [done|].
    intros s1 s2 t Ht Hag. apply elem_of_seq in Ht.
    apply face_step_list_agree; [done| | | | |]; cbn [lookup list_lookup];
      try (intros [=]; lia);
      rewrite lookup_app_l by (rewrite length_take; lia);
      rewrite lookup_take_lt by lia; done. }
  (* the skipped triangle *)
  assert (Hmid : loops_agree 1 0
            (body1 (foldl body1 init (map (fun t => (3 * t)%nat) (seq 0 t0)))
                   (3 * t0)%nat)
            (foldl body2 init (map (fun t => (3 * t)%nat) (seq 0 t0)))).
  { destruct (foldl body1 _ _) as [s1|], (foldl body2 _ _) as [s2|];
      simpl in *; try done.
    destruct Hpre as (Hn & Hc1 & Hc2). unfold face_step. rewrite Hc1.
    cbn [lookup list_lookup]. rewrite decide_True by (f_equal; lia). done. }
  (* the triangles after position i *)
  apply foldl_rel_map; [done|].
  intros s1 s2 t Ht Hag. apply elem_of_seq in Ht.
  apply face_step_list_agree; [done| | | | |]; cbn [lookup list_lookup];
    try (intros [=]; lia);
    rewrite lookup_app_r by (rewrite length_take; lia);
    rewrite length_take, lookup_drop; f_equal; lia.
Qed.

End NormalsFacts.

Section NormalizeFacts.
Import Normals.

Lemma dot_scale (c : R) (u : vec) :
  dot (map (fun x => (x * c)%R) u) (map (fun x => (x * c)%R) u)
  = (c * c * dot u u)%R.
Proof.
  unfold dot. induction u as [|x u IH]; simpl; [ring|].
  rewrite IH. ring.
Qed.

Lemma dot_self_nonneg (u : vec) : (0 <= dot u u)%R.
Proof.
  unfold dot. induction u as [|x u IH]; simpl; [lra|]. nra.
Qed.

(** The documented behaviour of [normalize], for this instance. *)
Lemma unit_normalize_unit (u : vec) :
  vlength u ≠ 0%R -> vlength (unit_normalize u) = 1%R.
Proof.
  intros Hu. unfold unit_normalize, Rdiv, vlength at 1.
  rewrite dot_scale.
  assert (Hsq : (vlength u * vlength u = dot u u)%R)
    by (apply sqrt_sqrt, dot_self_nonneg).
  rewrite <- Hsq.
  replace (/ vlength u * / vlength u * (vlength u * vlength u))%R with 1%R
    by (field; done).
  apply sqrt_1.
Qed.

Lemma unit_normalize_fixes_unit (u : vec) :
  vlength u = 1%R -> unit_normalize u = u.
Proof.
  intros Hu. unfold unit_normalize. rewrite Hu. clear Hu.
  induction u as [|x u IH]; simpl; [done|]. f_equal; [field | exact IH].
Qed.

Lemma vlength_zero : vlength (vec4 0 0 0 0) = 0%R.
Proof.
  unfold vlength, dot, vec4; simpl.
  replace (0 * 0 + (0 * 0 + (0 * 0 + (0 * 0 + 0))))%R with 0%R by ring.
  apply sqrt_0.
Qed.

Lemma vlength_nonzero (u : vec) :
  length u = 4%nat -> u ≠ vec4 0 0 0 0 -> vlength u ≠ 0%R.
Proof.
  intros Hlen Hne Hz. apply Hne.
  destruct u as [|a [|b [|c [|d [|e u]]]]]; try done.
  unfold vlength in Hz. apply sqrt_eq_0 in Hz; [|apply dot_self_nonneg].
  unfold dot in Hz; simpl in Hz.
  assert (a = 0 /\ b = 0 /\ c = 0 /\ d = 0)%R as (-> & -> & -> & ->)
    by (repeat split; nra).
  done.
Qed.

Lemma add_length (u v : vec) :
  length u = 4%nat -> length v = 4%nat -> length (add u v) = 4%nat.
Proof. intros Hu Hv. unfold add. rewrite length_zip_with. lia. Qed.

End NormalizeFacts.

Section AccumulatorFacts.
Import Normals.

Lemma lookupZ_Some {A : Type} (arr : list A) (j : Z) (x : A) :
  lookupZ arr j = Some x -> (0 <= j)%Z /\ arr !! Z.to_nat j = Some x.
Proof. unfold lookupZ. destruct (decide (0 <= j)%Z); [done|discriminate]. Qed.

Lemma add_face_Some (verts : list vec) (flip : bool) (j k l : Z)
    (ns ns' : list vec) :
  add_face verts flip j k l ns = Some ns' ->
  exists fn, length fn = 4%nat /\ (0 <= j)%Z /\ (0 <= k)%Z /\ (0 <= l)%Z /\
    ns' = accumulate l fn (accumulate k fn (accumulate j fn ns)).
Proof.
  unfold add_face. intros H.
  destruct (lookupZ verts j) as [vj|] eqn:Hj; simpl in H; [|done].
  destruct (ensure_vec4 vj 1) as [a|]; simpl in H; [|done].
  destruct (lookupZ verts k) as [vk|] eqn:Hk; simpl in H; [|done].
  destruct (ensure_vec4 vk 1) as [b|]; simpl in H; [|done].
  destruct (lookupZ verts l) as [vl|] eqn:Hl; simpl in H; [|done].
  destruct (ensure_vec4 vl 1) as [c|]; simpl in H; [|done].
  apply lookupZ_Some in Hj as [? _], Hk as [? _], Hl as [? _].
  injection H as <-. eexists. repeat split; [| done..]. done.
Qed.

Lemma accumulate_inv (fn : vec) (j : Z) (ns : list vec) :
  length fn = 4%nat ->
  Forall (fun u => length u = 4%nat) ns ->
  Forall (fun u => length u = 4%nat) (accumulate j fn ns).
Proof.
  intros Hfn Hns. unfold accumulate. apply Forall_alter; [done|].
  intros u _ Hu. by apply add_length.
Qed.

Lemma face_step_inv (verts : list vec) (inds : list Z) (strip : bool)
    (skip : list Z) (o : option loop_state) (c : nat * list nat) (i : nat) :
  loop_inv inds (length verts) o c ->
  loop_inv inds (length verts)
    (o ≫= fun st => face_step verts inds strip skip st i)
    (contributing_step inds skip c i).
Proof.
  destruct o as [st|]; [|done]. intros (Hc & Hlen & Hall & Hz). simpl.
  unfold face_step, contributing_step. rewrite Hc.
  destruct (decide (skip !! c.1 = Some (Z.of_nat i))); [done|].
  destruct (inds !! i) as [j|] eqn:Hj; simpl; [|done].
  destruct (inds !! (i + 1)%nat) as [k|] eqn:Hk; simpl; [|done].
  destruct (inds !! (i + 2)%nat) as [l|] eqn:Hl; simpl; [|done].
  destruct (decide (j = k ∨ k = l ∨ l = j)); [done|].
  destruct (add_face _ _ j k l (normals st)) as [ns'|] eqn:Hadd; simpl; [|done].
  apply add_face_Some in Hadd as (fn & Hfn & H0j & H0k & H0l & ->).
  repeat split.
  - unfold accumulate. by rewrite !length_alter.
  - by repeat apply accumulate_inv.
  - intros v Hv HvN.
    assert (Hni : ~ corner_of inds i v)
      by (apply Hv, elem_of_app; right; by apply list_elem_of_singleton).
    assert (Hvj : Z.to_nat j ≠ v).
    { intros <-. apply Hni. left. rewrite Hj. f_equal. lia. }
    assert (Hvk : Z.to_nat k ≠ v).
    { intros <-. apply Hni. right; left. rewrite Hk. f_equal. lia. }
    assert (Hvl : Z.to_nat l ≠ v).
    { intros <-. apply Hni. right; right. rewrite Hl. f_equal. lia. }
    unfold accumulate. rewrite !list_lookup_alter_ne by done.
    apply Hz; [|done]. intros i' Hi'. apply Hv, elem_of_app. by left.
Qed.

Lemma face_loop_inv (verts : list vec) (inds : list Z) (strip : bool)
    (skip : list Z) :
  loop_inv inds (length verts) (face_loop verts inds strip skip)
    (foldl (contributing_step inds skip) (0%nat, [])
           (face_starts (if strip then 1 else 3) (length inds))).
Proof.
  unfold face_loop. apply foldl_rel.
  - cbn [loop_inv skipInd normals fst snd].
    split; [done|]. split; [apply length_replicate|].
    split; [by apply Forall_replicate|].
    intros v _ Hv. by apply lookup_replicate_2.
  - intros s1 s2 i _. apply face_step_inv.
Qed.

End AccumulatorFacts.

Section TotalityFacts.
Import Normals.

Lemma ensure_vec4_position (v : vec) : position v -> is_Some (ensure_vec4 v 1).
Proof.
  intros [H3 | [H4 Hw]]; unfold ensure_vec4.
  - rewrite decide_True by done. by eexists.
  - rewrite decide_False by lia. rewrite decide_False by tauto. by eexists.
Qed.

Lemma face_starts_bound (inc len i : nat) :
  i ∈ face_starts inc len -> (i + 2 < len)%nat.
Proof.
  unfold face_starts. intros Hi. apply list_elem_of_filter in Hi as [_ Hi].
  apply elem_of_seq in Hi. lia.
Qed.

Lemma add_face_total (verts : list vec) (flip : bool) (j k l : Z) (ns : list vec) :
  Forall position verts ->
  (0 <= j < Z.of_nat (length verts))%Z -> (0 <= k < Z.of_nat (length verts))%Z ->
  (0 <= l < Z.of_nat (length verts))%Z ->
  is_Some (add_face verts flip j k l ns).
Proof.
  intros Hv Hj Hk Hl. unfold add_face.
  assert (Hget : forall x, (0 <= x < Z.of_nat (length verts))%Z ->
            exists v a, lookupZ verts x = Some v /\ ensure_vec4 v 1 = Some a).
  { intros x Hx. unfold lookupZ. rewrite decide_True by lia.
    destruct (lookup_lt_is_Some_2 verts (Z.to_nat x)) as [v Hlk]; [lia|].
    destruct (ensure_vec4_position v) as [a Ha].
    - by apply (Forall_lookup_1 _ _ _ _ Hv Hlk).
    - by exists v, a. }
  destruct (Hget j Hj) as (vj & a & -> & Ha).
  destruct (Hget k Hk) as (vk & b & -> & Hb).
  destruct (Hget l Hl) as (vl & c & -> & Hc).
  cbn [mbind option_bind]. rewrite Ha. cbn [mbind option_bind]. rewrite Hb.
  cbn [mbind option_bind]. rewrite Hc. cbn [mbind option_bind]. by eexists.
Qed.

(** On vertices that are positions and indices that are in range, the face
    loop does not throw. *)
Lemma face_loop_total (verts : list vec) (inds : list Z) (strip : bool)
    (skip : list Z) :
  Forall position verts ->
  Forall (fun j => (0 <= j < Z.of_nat (length verts))%Z) inds ->
  is_Some (face_loop verts inds strip skip).
Proof.
  intros Hv Hi. unfold face_loop.
  apply (foldl_rel _ (fun (u : unit) (_ : nat) => u)
           (fun o _ => is_Some o) _ _ tt); [by eexists|].
  intros o _ i Hin [st ->]. cbn [mbind option_bind].
  apply face_starts_bound in Hin. unfold face_step.
  destruct (decide (skip !! skipInd st = Some (Z.of_nat i))); [by eexists|].
  destruct (lookup_lt_is_Some_2 inds i) as [j Hj]; [lia|].
  destruct (lookup_lt_is_Some_2 inds (i + 1)) as [k Hk]; [lia|].
  destruct (lookup_lt_is_Some_2 inds (i + 2)) as [l Hl]; [lia|].
  rewrite Hj, Hk, Hl. cbn [mbind option_bind].
  destruct (decide (j = k ∨ k = l ∨ l = j)); [by eexists|].
  destruct (add_face_total verts (strip && negb (i `mod` 2 =? 0)%nat) j k l
              (normals st)) as [ns Hns]; try done.
  - by apply (Forall_lookup_1 _ _ _ _ Hi Hj).
  - by apply (Forall_lookup_1 _ _ _ _ Hi Hk).
  - by apply (Forall_lookup_1 _ _ _ _ Hi Hl).
  - rewrite Hns. by eexists.
Qed.

(** [calc_normals] returns on such arguments, whatever [normalize] is. *)
Lemma calc_normals_total (normalize : vec -> vec) (verts : list vec)
    (inds : list Z) (strip : option bool) (skip : option (list Z)) :
  Forall position verts ->
  Forall (fun j => (0 <= j < Z.of_nat (length verts))%Z) inds ->
  is_Some (calc_normals normalize verts inds strip skip).
Proof.
  intros Hv Hi. unfold calc_normals, calc_normals_body.
  destruct (face_loop_total verts inds (default true strip)
              (sort_num (default [] skip) ++ [(-1)%Z]) Hv Hi) as [st ->].
  by eexists.
Qed.

End TotalityFacts.

(** Unfolds a call of [calc_normals] down to its face loop. *)
Ltac calc_normals_unfold :=
unfold Normals.calc_normals, Normals.calc_normals_body;
unfold from_option, Datatypes.id;
cbn [Normals.sort_num foldr Normals.insert_num app].

Section NormalsClaims.
Import Normals.
Variable normalize : vec -> vec.

(** C4, as amended: a triangle whose triple repeats an index leaves every
    accumulator as it was, in both topologies; and in list topology
    (strip = false) a call whose skip list holds the start index [i] of
    one triangle returns what the call returns on the index sequence
    without that triangle. *)
Theorem skip_is_removal_in_list_mode (verts : list vec) (inds : list Z) (i : nat) :
  (i `mod` 3 = 0)%nat -> (i + 2 < length inds)%nat ->
  (forall strip skip st p j k l,
      inds !! p = Some j -> inds !! (p + 1)%nat = Some k ->
      inds !! (p + 2)%nat = Some l -> j = k ∨ k = l ∨ l = j ->
      exists st', face_step verts inds strip skip st p = Some st'
                  /\ normals st' = normals st) /\
  calc_normals normalize verts inds (Some false) (Some [Z.of_nat i])
  = calc_normals normalize verts (remove_triangle inds i) (Some false) None.
Proof.
  intros Hmod Hlt. split.
  - intros strip skip st p j k l. apply degenerate_step.
  - calc_normals_unfold.
    pose proof (face_loop_skip_one verts inds i Hmod Hlt) as Hag.
    set (o1 := face_loop verts inds false [Z.of_nat i; (-1)%Z]) in *.
    set (o2 := face_loop verts (remove_triangle inds i) false [(-1)%Z]) in *.
    destruct o1 as [s1|], o2 as [s2|]; cbn [loops_agree] in Hag; try done.
    destruct Hag as (Hn & _). cbn [mbind option_bind]. by rewrite Hn.
Qed.

(** C3, as amended: after the call, each vertex whose accumulated sum of
    face normals is not the zero vector receives a normal of length 1
    (for a [normalize] that returns a vector of length 1 on every vector
    of non-zero length, as documented), and each vertex touched by no
    contributing triangle has the zero vector as its sum and receives
    [normalize] of the zero vector. *)
Theorem normals_unit_where_sum_nonzero (verts : list vec) (inds : list Z)
    (strip : option bool) (skip : option (list Z)) (ns : list vec) :
  (forall u, vlength u ≠ 0%R -> vlength (normalize u) = 1%R) ->
  calc_normals normalize verts inds strip skip = Some ns ->
  let strip' := default true strip in
  let skip' := sort_num (default [] skip) ++ [(-1)%Z] in
  exists st,
    face_loop verts inds strip' skip' = Some st /\
    length ns = length verts /\
    forall v, (v < length verts)%nat ->
      exists acc,
        normals st !! v = Some acc /\
        ns !! v = Some (normalize acc) /\
        (acc ≠ vec4 0 0 0 0 -> vlength (normalize acc) = 1%R) /\
        (~ touched inds strip' skip' v -> acc = vec4 0 0 0 0).
Proof.
  intros Hunit Hcalc strip' skip'.
  unfold calc_normals, calc_normals_body in Hcalc. fold strip' skip' in Hcalc.
  pose proof (face_loop_inv verts inds strip' skip') as Hinv.
  destruct (face_loop verts inds strip' skip') as [st|]; [|done].
  cbn [mbind option_bind] in Hcalc. injection Hcalc as <-.
  destruct Hinv as (_ & Hlen & Hall & Hz).
  exists st. split; [done|]. split; [by rewrite length_map|].
  intros v Hv.
  destruct (lookup_lt_is_Some_2 (normals st) v) as [acc Hacc]; [lia|].
  exists acc. split; [done|]. split; [|split].
  - by rewrite list_lookup_fmap, Hacc.
  - intros Hne. apply Hunit, vlength_nonzero; [|done].
    by apply (Forall_lookup_1 _ _ _ _ Hall Hacc).
  - intros Hnt.
    assert (Hzero : normals st !! v = Some (vec4 0 0 0 0)).
    { apply Hz; [|done]. intros i Hi Hc. apply Hnt. by exists i. }
    congruence.
Qed.

End NormalsClaims.

Section NormalsExamples.
Import Normals.

Lemma vlength_axis (z : R) : (z * z = 1)%R -> vlength (vec4 0 0 z 0) = 1%R.
Proof.
  intros Hz. unfold vlength, dot, vec4; simpl.
  replace (0 * 0 + (0 * 0 + (z * z + (0 * 0 + 0))))%R with 1%R by lra.
  apply sqrt_1.
Qed.

Lemma two_sided_accumulators :
  face_loop sample_verts two_sided_inds false [(-1)%Z]
  = Some (LoopState 0 (replicate 4 (vec4 0 0 0 0))).
Proof. vm_compute. repeat f_equal; ring. Qed.

Lemma strip_skip_accumulators :
  face_loop triangle_verts strip_inds true [0%Z; (-1)%Z]
  = Some (LoopState 1 (replicate 3 (vec4 0 0 (-1) 0))).
Proof. vm_compute. repeat f_equal; ring. Qed.

Lemma strip_removed_accumulators :
  face_loop triangle_verts (remove_triangle strip_inds 0) true [(-1)%Z]
  = Some (LoopState 0 (replicate 3 (vec4 0 0 1 0))).
Proof. vm_compute. repeat f_equal; ring. Qed.

(** One triangle of a triangle list: the three vertices of the right
    triangle in the plane z = 0 receive the normal (0, 0, -1), which is
    perpendicular to that plane. *)
Example unit_triangle_normals :
  calc_normals unit_normalize triangle_verts [0; 1; 2]%Z (Some false) None
  = Some (replicate 3 (vec4 0 0 (-1) 0)).
Proof.
  calc_normals_unfold.
  assert (Hacc : face_loop triangle_verts [0; 1; 2]%Z false [(-1)%Z]
                 = Some (LoopState 0 (replicate 3 (vec4 0 0 (-1) 0))))
    by (vm_compute; repeat f_equal; ring).
  rewrite Hacc. cbn [mbind option_bind normals replicate map].
  by rewrite !unit_normalize_fixes_unit by (apply vlength_axis; lra).
Qed.

(** C3, as stated, fails whatever [normalize] does: in the two-sided
    triangle list the face normals cancel, so that vertex 0, a corner of
    two contributing triangles, and vertex 3, a corner of none, both
    receive [normalize] of the zero vector, which cannot be both of
    length 1 and zero. *)
Lemma unit_or_zero_claim_fails :
  ~ exists nz, unit_or_zero_claim nz sample_verts two_sided_inds (Some false) None.
Proof.
  intros [nz Hclaim]. unfold unit_or_zero_claim in Hclaim.
  unfold from_option, Datatypes.id in Hclaim.
  cbn [sort_num foldr insert_num app] in Hclaim.
  assert (Hcalc : calc_normals nz sample_verts two_sided_inds (Some false) None
                  = Some (replicate 4 (nz (vec4 0 0 0 0)))).
  { calc_normals_unfold. by rewrite two_sided_accumulators. }
  assert (Hfaces : contributing_faces two_sided_inds false [(-1)%Z] = [0; 3]%nat)
    by (vm_compute; reflexivity).
  destruct (Hclaim _ Hcalc 0%nat (nz (vec4 0 0 0 0)) eq_refl) as [Hunit _].
  destruct (Hclaim _ Hcalc 3%nat (nz (vec4 0 0 0 0)) eq_refl) as [_ Hzero].
  assert (H1 : vlength (nz (vec4 0 0 0 0)) = 1%R).
  { apply Hunit. exists 0%nat. split.
    - rewrite Hfaces. by left.
    - by left. }
  assert (H0 : nz (vec4 0 0 0 0) = vec4 0 0 0 0).
  { apply Hzero. intros (i & Hi & Hc). rewrite Hfaces in Hi.
    unfold corner_of in Hc.
    apply elem_of_cons in Hi as [-> | Hi];
      [|apply elem_of_cons in Hi as [-> | Hi]; [|by apply elem_of_nil in Hi]];
      vm_compute in Hc; destruct Hc as [Hc | [Hc | Hc]]; discriminate Hc. }
  rewrite H0, vlength_zero in H1. lra.
Qed.

Lemma normals_unit_where_sum_nonzero_witness :
  exists ns st,
    calc_normals unit_normalize triangle_verts [2; 1; 0]%Z None None = Some ns /\
    face_loop triangle_verts [2; 1; 0]%Z true [(-1)%Z] = Some st /\
    length ns = 3%nat.
Proof.
  eexists.
  destruct (normals_unit_where_sum_nonzero unit_normalize triangle_verts
              [2; 1; 0]%Z None None
              (map unit_normalize (replicate 3 (vec4 0 0 1 0))))
    as (st & Hst & Hlen & _).
  - apply unit_normalize_unit.
  - calc_normals_unfold.
    pose proof strip_removed_accumulators as Hacc.
    change (remove_triangle strip_inds 0) with [2; 1; 0]%Z in Hacc.
    rewrite Hacc. reflexivity.
  - exists st. split; [|split; [exact Hst | exact Hlen]].
    calc_normals_unfold.
    pose proof strip_removed_accumulators as Hacc.
    change (remove_triangle strip_inds 0) with [2; 1; 0]%Z in Hacc.
    rewrite Hacc. reflexivity.
Defined.

(** The cursor of the skip list only moves when the loop reaches the entry
    it points at: in list mode the entry 1, which starts no triangle, keeps
    the entry 3 behind it from ever being reached. *)
Example skip_cursor_waits :
  contributing_faces two_sided_inds false (sort_num [3; 1]%Z ++ [(-1)%Z]) = [0; 3]%nat /\
  contributing_faces two_sided_inds false (sort_num [3]%Z ++ [(-1)%Z]) = [0]%nat.
Proof. split; vm_compute; reflexivity. Qed.

(** C4, as stated, fails in strip topology: skipping the first triangle
    of [strip_inds] leaves the triangle (2,1,0) at the odd position 3,
    removing the first triangle moves it to the even position 0, and the
    two calls return opposite normals. *)
Lemma skip_is_not_removal_in_strip_mode :
  calc_normals unit_normalize triangle_verts strip_inds None (Some [0%Z])
  ≠ calc_normals unit_normalize triangle_verts (remove_triangle strip_inds 0)
      None None.
Proof.
  calc_normals_unfold.
  rewrite strip_skip_accumulators, strip_removed_accumulators.
  cbn [mbind option_bind normals replicate map].
  rewrite !unit_normalize_fixes_unit by (apply vlength_axis; lra).
  intros Heq. injection Heq as Heq _.
  assert (Hz : elt (vec4 0 0 (-1) 0) 2 = elt (vec4 0 0 1 0) 2) by (by rewrite Heq).
  unfold elt, vec4 in Hz; simpl in Hz. lra.
Qed.

(** A caller's skip list that is not sorted stays as it is, and the call
    reads a sorted copy: verts at location 1 of the vectors, inds at
    location 1 and skip at location 2 of the numbers. *)
Lemma calc_normals_keeps_arguments_witness :
  let h := Store {[1%positive := two_sided_inds; 2%positive := [3; 0]%Z]}
                 {[1%positive := sample_verts]} in
  let call := calc_normals_st unit_normalize 1%positive 1%positive (Some false)
                (Some 2%positive) h in
  nums call.2 !! 2%positive = Some [3; 0]%Z /\
  nums call.2 !! 1%positive = Some two_sided_inds /\
  vecs call.2 !! 1%positive = Some sample_verts /\
  call.1 = calc_normals unit_normalize sample_verts two_sided_inds (Some false)
             (Some [3; 0]%Z).
Proof.
  intros h call.
  pose proof (calc_normals_keeps_arguments unit_normalize 1%positive 1%positive
                (Some false) (Some 2%positive) h) as [Hv Hn].
  fold call in Hv, Hn. cbv zeta in Hv, Hn.
  split; [|split; [|split]].
  - by apply (lookup_weaken _ _ _ _ (eq_refl : nums h !! 2%positive = Some _) Hn).
  - by apply (lookup_weaken _ _ _ _ (eq_refl : nums h !! 1%positive = Some _) Hn).
  - by rewrite Hv.
  - by apply calc_normals_st_result.
Defined.

Lemma skip_is_removal_in_list_mode_witness :
  calc_normals unit_normalize sample_verts two_sided_inds (Some false) (Some [3%Z])
  = calc_normals unit_normalize sample_verts (remove_triangle two_sided_inds 3)
      (Some false) None.
Proof.
  apply (skip_is_removal_in_list_mode unit_normalize sample_verts two_sided_inds 3).
  - reflexivity.
  - simpl. lia.
Defined.

End NormalsExamples.

(** ** The OBJ loader: faces and the vertex-deduplication indexer *)

Section IndexerFacts.
Import Obj.
Context {num : Type}.
Variable to_number : string -> num.
Variable number_to_string : num -> string.

Local Abbreviation get_idx := (get_idx number_to_string).
Local Abbreviation get_all := (get_all number_to_string).
Local Abbreviation aligned := (aligned number_to_string).
Local Abbreviation key := (key number_to_string).

Lemma get_idx_registers (v : vecn) (t n : option vecn) (ix : indexer) :
  idx_map (get_idx v t n ix).2 !! key v t n = Some (get_idx v t n ix).1.
Proof.
  unfold Obj.get_idx. destruct (idx_map ix !! key v t n) as [i|] eqn:Hi; simpl.
  - done.
  - by rewrite lookup_insert_eq.
Qed.

Lemma get_idx_keeps (v : vecn) (t n : option vecn) (ix : indexer) (s : string) (i : nat) :
  idx_map ix !! s = Some i -> idx_map (get_idx v t n ix).2 !! s = Some i.
Proof.
  intros Hs. unfold Obj.get_idx.
  destruct (idx_map ix !! key v t n) as [j|] eqn:Hj; simpl; [done|].
  rewrite lookup_insert_ne; [done|]. intros <-. congruence.
Qed.

Lemma get_all_keeps (cs : list (vecn * option vecn * option vecn)) (ix : indexer)
    (s : string) (i : nat) :
  idx_map ix !! s = Some i -> idx_map (get_all cs ix) !! s = Some i.
Proof.
  revert ix; induction cs as [|c cs IH]; intros ix Hs; simpl; [done|].
  apply IH. by apply get_idx_keeps.
Qed.

Lemma get_idx_known (v : vecn) (t n : option vecn) (ix : indexer) (i : nat) :
  idx_map ix !! key v t n = Some i -> get_idx v t n ix = (i, ix).
Proof. intros Hi. unfold Obj.get_idx. by rewrite Hi. Qed.

Lemma aligned_empty : aligned (Indexer ∅ [] [] []).
Proof. repeat split. intros s i Hs. simpl in Hs. by rewrite lookup_empty in Hs. Qed.

Lemma get_idx_aligned (v : vecn) (t n : option vecn) (ix : indexer) :
  aligned ix -> aligned (get_idx v t n ix).2.
Proof.
  intros (Ht & Hn & Hm). unfold Obj.get_idx.
  destruct (idx_map ix !! key v t n) as [j|] eqn:Hj; simpl; [done|].
  split; [|split]; simpl.
  - rewrite !length_app, Ht. done.
  - rewrite !length_app, Hn. done.
  - intros s i Hs. destruct (decide (key v t n = s)) as [<-|Hne].
    + rewrite lookup_insert_eq in Hs. injection Hs as <-.
      exists v, t, n. repeat split.
      * by rewrite lookup_app_r, Nat.sub_diag by lia.
      * by rewrite lookup_app_r, Ht, Nat.sub_diag by lia.
      * by rewrite lookup_app_r, Hn, Nat.sub_diag by lia.
    + rewrite lookup_insert_ne in Hs by done.
      destruct (Hm s i Hs) as (v' & t' & n' & Hv & Htx & Hnx & Hk).
      exists v', t', n'. repeat split; [| | |done].
      * by apply lookup_app_l_Some.
      * by apply lookup_app_l_Some.
      * by apply lookup_app_l_Some.
Qed.

Lemma get_all_aligned (cs : list (vecn * option vecn * option vecn)) (ix : indexer) :
  aligned ix -> aligned (get_all cs ix).
Proof.
  revert ix; induction cs as [|c cs IH]; intros ix Hal; simpl; [done|].
  apply IH. by apply get_idx_aligned.
Qed.

Lemma get_all_app (cs1 cs2 : list (vecn * option vecn * option vecn)) (ix : indexer) :
  get_all (cs1 ++ cs2) ix = get_all cs2 (get_all cs1 ix).
Proof. unfold Obj.get_all. by rewrite foldl_app. Qed.

Lemma mtllib_indexer (args : list string) (st : @state num) :
  ix (foldl mtllib_arg st args) = ix st.
Proof.
  revert st; induction args as [|a args IH]; intros st; simpl; [done|].
  by rewrite IH.
Qed.

Lemma add_face_indexer (hasT hasN : bool) (ca cb cc : corner) (st : @state num) :
  exists cs, ix (Obj.add_face number_to_string hasT hasN ca cb cc st)
             = get_all cs (ix st).
Proof.
  unfold Obj.add_face.
  exists [fetch st ca; fetch st cb; fetch st cc].
  destruct (fetch st ca) as [[v_a vt_a] vn_a], (fetch st cb) as [[v_b vt_b] vn_b],
           (fetch st cc) as [[v_c vt_c] vn_c].
  cbn [Obj.get_all foldl fst snd].
  destruct (get_idx v_a vt_a vn_a (ix st)) as [ia ix1]. cbn [snd].
  destruct (get_idx v_b vt_b vn_b ix1) as [ib ix2]. cbn [snd].
  destruct (get_idx v_c vt_c vn_c ix2) as [ic ix3]. done.
Qed.

Lemma face_indexer (args : list string) (st : @state num) :
  exists cs, ix (face number_to_string args st) = get_all cs (ix st).
Proof.
  unfold face.
  destruct args as [|a [|b [|c [|d args]]]]; try (by exists []).
  destruct (face_corners _ _ _ a b c) as [[[ca cb] cc]|]; [|by exists []].
  apply add_face_indexer.
Qed.

(** The lines of an OBJ file change the indexer by calls of [get_idx]
    only. *)
Lemma step_indexer (st : @state num) (l : line) :
  exists cs, ix (step to_number number_to_string st l) = get_all cs (ix st).
Proof.
  destruct l as [[|cmd args]|]; simpl; try (by exists []).
  unfold command.
  destruct (decide (cmd = "mtllib")); [exists []; apply mtllib_indexer|].
  destruct (decide (cmd = "usemtl")).
  { exists []. by destruct args as [|? [|? ?]]. }
  destruct (decide (cmd = "o")).
  { exists []. by destruct args as [|? [|? ?]]. }
  destruct (decide (cmd = "v")).
  { exists []. by destruct args as [|? [|? [|? [|? [|? ?]]]]]. }
  destruct (decide (cmd = "vn")).
  { exists []. by destruct args as [|? [|? [|? [|? ?]]]]. }
  destruct (decide (cmd = "vt")).
  { exists []. by destruct args as [|? [|? [|? [|? ?]]]]. }
  destruct (decide (cmd = "f")); [apply face_indexer|by exists []].
Qed.

Lemma parse_indexer (lines : list line) :
  exists cs, ix (parse to_number number_to_string lines)
             = get_all cs (Indexer ∅ [] [] []).
Proof.
  unfold parse. simpl.
  assert (Hgen : forall st, exists cs,
            ix (foldl (step to_number number_to_string) st lines) = get_all cs (ix st)).
  { induction lines as [|l lines IH]; intros st; simpl; [by exists []|].
    destruct (IH (step to_number number_to_string st l)) as [cs2 H2].
    destruct (step_indexer st l) as [cs1 H1].
    exists (cs1 ++ cs2). by rewrite get_all_app, <- H1. }
  apply (Hgen (init)).
Qed.

(** C8: in an indexer reached by calls of [get_idx] from the empty one, a
    triple (position, texcoord or null, normal or null) that comes again,
    after any further calls, is given the index it was given first and adds
    nothing; the three output sequences have one length, and the entries at
    that index have the key of the triple. *)
Theorem get_idx_same_triple_same_index
    (cs1 cs2 : list (vecn * option vecn * option vecn))
    (v : vecn) (t n : option vecn) :
  let ixa := get_all cs1 (Indexer ∅ [] [] []) in
  let i := (get_idx v t n ixa).1 in
  let ixc := get_all cs2 (get_idx v t n ixa).2 in
  get_idx v t n ixc = (i, ixc) /\
  length (texCoords ixc) = length (verts ixc) /\
  length (normals ixc) = length (verts ixc) /\
  exists v' t' n',
    verts ixc !! i = Some v' /\ texCoords ixc !! i = Some t' /\
    normals ixc !! i = Some n' /\ key v' t' n' = key v t n.
Proof.
  intros ixa i ixc.
  assert (Hreg : idx_map ixc !! key v t n = Some i).
  { apply get_all_keeps, get_idx_registers. }
  assert (Hal : aligned ixc).
  { apply get_all_aligned, get_idx_aligned, get_all_aligned, aligned_empty. }
  split; [by apply get_idx_known|].
  destruct Hal as (Ht & Hn & Hm). split; [done|]. split; [done|].
  by apply Hm.
Qed.

End IndexerFacts.

Section FaceFacts.
Import Obj.
Context {num : Type}.
Variable to_number : string -> num.
Variable number_to_string : num -> string.

(** An index string that names an entry is accepted by [/^-?\d+$/],
    converts to that entry and passes the range test. *)
Lemma names_entry_adjust (len : nat) (p : list ascii) (i : Z) :
  names_entry len p i ->
  is_int p = true /\ adjust (int_val p) len = i /\ out_of_range i len = false.
Proof.
  intros [(Hint & Hrange & Hval) | (Hint & Hrange & Hval)];
    (split; [exact Hint|]); rewrite Hval; unfold adjust, out_of_range;
    (split; [destruct (decide _); lia | apply bool_decide_eq_false_2; lia]).
Qed.

(** A corner string of the face type [t] whose indices name the entries of
    [c] has [t] as its first type, converts to [c], and [c] is valid. *)
Lemma corner_names_convert (nv nt nn t : nat) (s : string) (c : corner) :
  corner_names nv nt nn t s c ->
  first_type s = Some t /\ type_test t s = true
  /\ convert_corner (bool_decide (t = 1 \/ t = 3)%nat) (bool_decide (t = 2 \/ t = 3)%nat)
       nv nt nn s = c
  /\ corner_invalid nv nt nn c = false
  /\ bool_decide (is_Some (c_t c)) = bool_decide (t = 1 \/ t = 3)%nat
  /\ bool_decide (is_Some (c_n c)) = bool_decide (t = 2 \/ t = 3)%nat.
Proof.
  unfold corner_names, first_type, type_test, convert_corner, corner_invalid.
  destruct c as [v ot on].
  destruct t as [|[|[|[|t]]]];
    destruct (split_on "/" (chars s)) as [|a [|b [|n [|x xs]]]]; try done;
    try (by destruct b).
  - intros (Hv & Ht & Hn). cbn in Ht, Hn. subst ot on.
    apply names_entry_adjust in Hv as (Ha & Hv & Hr). cbn in Hv, Hr.
    cbn. rewrite Ha, Hv, Hr. done.
  - intros (Hv & Ht & Hn). cbn in Hv, Ht, Hn. subst on.
    destruct ot as [j|]; [|done].
    apply names_entry_adjust in Hv as (Ha & Hv & Hr).
    apply names_entry_adjust in Ht as (Hb & Ht & Hrt).
    cbn. rewrite Ha, Hb, Hv, Ht, Hr, Hrt. done.
  - destruct b as [|b0 b]; [|done].
    intros (Hv & Ht & Hn). cbn in Hv, Ht, Hn. subst ot.
    destruct on as [k|]; [|done].
    apply names_entry_adjust in Hv as (Ha & Hv & Hr).
    apply names_entry_adjust in Hn as (Hc & Hn & Hrn).
    cbn. rewrite Ha, Hc, Hv, Hn, Hr, Hrn. done.
  - intros (Hv & Ht & Hn). cbn in Hv, Ht, Hn.
    destruct ot as [j|]; [|done]. destruct on as [k|]; [|done].
    apply names_entry_adjust in Hv as (Ha & Hv & Hr).
    apply names_entry_adjust in Ht as (Hb & Ht & Hrt).
    apply names_entry_adjust in Hn as (Hc & Hn & Hrn).
    destruct b as [|b0 b]; [done|].
    cbn. cbn in Hb, Ht. rewrite Ha, Hb, Hc, Hv, Ht, Hn, Hr, Hrt, Hrn. done.
Qed.

(** The corners of a face whose three corner strings have the face type
    [t] and name the entries of [ca], [cb] and [cc]. *)
Lemma face_corners_names (nv nt nn t : nat) (a b c : string) (ca cb cc : corner) :
  corner_names nv nt nn t a ca -> corner_names nv nt nn t b cb ->
  corner_names nv nt nn t c cc ->
  face_corners nv nt nn a b c = Some (ca, cb, cc).
Proof.
  intros Ha Hb Hc.
  apply corner_names_convert in Ha as (Hfirst & _ & Hca & Hia & _).
  apply corner_names_convert in Hb as (_ & Htb & Hcb & Hib & _).
  apply corner_names_convert in Hc as (_ & Htc & Hcc & Hic & _).
  unfold face_corners. rewrite Hfirst. cbn [mbind option_bind].
  rewrite Htb, Htc. cbn [negb orb]. cbv zeta.
  rewrite Hca, Hcb, Hcc, Hia, Hib, Hic. reflexivity.
Qed.

(** C7: a negative corner index resolves relative to the current end of
    its list. Whatever the numbers of positions, texture coordinates and
    normals read so far, an index [-k] with [k] at most the length of its
    list converts to the entry [length - k] counted from 0, which is the
    entry of the positive index [length + 1 - k]; this holds for the
    position index against [vs], for the texture index against [vts] and
    for the normal index against [vns], in each of the four face types.
    So two faces whose corner strings name the same entries, the one by
    negative and the other by positive indices, or by any mixture, convert
    to the same three corners in the same order, are both kept, and leave
    the loader in the same state, the one in which the vertices of these
    corners have been added. *)
Theorem negative_face_is_positive_face (st : @state num) (t : nat)
    (a b c a' b' c' : string) (ca cb cc : corner) :
  let nv := length (vs st) in
  let nt := length (vts st) in
  let nn := length (vns st) in
  corner_names nv nt nn t a ca -> corner_names nv nt nn t b cb ->
  corner_names nv nt nn t c cc ->
  corner_names nv nt nn t a' ca -> corner_names nv nt nn t b' cb ->
  corner_names nv nt nn t c' cc ->
  face_corners nv nt nn a b c = Some (ca, cb, cc) /\
  face_corners nv nt nn a' b' c' = Some (ca, cb, cc) /\
  step to_number number_to_string st (Some ["f"; a; b; c])
    = step to_number number_to_string st (Some ["f"; a'; b'; c']) /\
  step to_number number_to_string st (Some ["f"; a; b; c])
    = Obj.add_face number_to_string
        (bool_decide (t = 1 \/ t = 3)%nat) (bool_decide (t = 2 \/ t = 3)%nat)
        ca cb cc st.
Proof.
  intros nv nt nn Ha Hb Hc Ha' Hb' Hc'.
  pose proof (face_corners_names _ _ _ _ _ _ _ _ _ _ Ha Hb Hc) as Hface.
  pose proof (face_corners_names _ _ _ _ _ _ _ _ _ _ Ha' Hb' Hc') as Hface'.
  apply corner_names_convert in Ha as (_ & _ & _ & _ & HT & HN).
  assert (Hstep : forall x y z, face_corners nv nt nn x y z = Some (ca, cb, cc) ->
            step to_number number_to_string st (Some ["f"; x; y; z])
            = Obj.add_face number_to_string
                (bool_decide (t = 1 \/ t = 3)%nat) (bool_decide (t = 2 \/ t = 3)%nat)
                ca cb cc st).
  { intros x y z Hxyz. cbn [step]. unfold command.
    repeat (rewrite decide_False by discriminate).
    rewrite decide_True by reflexivity.
    unfold face. fold nv nt nn. rewrite Hxyz, HT, HN. reflexivity. }
  split; [exact Hface|]. split; [exact Hface'|].
  split; [rewrite (Hstep _ _ _ Hface), (Hstep _ _ _ Hface'); reflexivity|].
  exact (Hstep _ _ _ Hface).
Qed.

End FaceFacts.

(** Three vertices, then the face by negative indices: [f -1 -2 -3] and
    [f 3 2 1] both name the positions 2, 1, 0 counted from 0, and give one
    triangle over the output vertices 0, 1, 2, which are the positions 3,
    2, 1 of the file. Numbers are kept as their tokens here. *)
Lemma negative_face_is_positive_face_witness :
  let token := @Datatypes.id string in
  let st := foldl (Obj.step token token) Obj.init (Obj._read_lines Obj.three_vertices) in
  let negative := Obj._read_lines "f -1 -2 -3" in
  let positive := Obj._read_lines "f 3 2 1" in
  negative = [Some ["f"; "-1"; "-2"; "-3"]] /\
  positive = [Some ["f"; "3"; "2"; "1"]] /\
  length (Obj.vs st) = 3%nat /\
  Obj.face_corners 3 0 0 "-1" "-2" "-3"
    = Some (Obj.Corner 2 None None, Obj.Corner 1 None None, Obj.Corner 0 None None) /\
  Obj.face_corners 3 0 0 "3" "2" "1"
    = Some (Obj.Corner 2 None None, Obj.Corner 1 None None, Obj.Corner 0 None None) /\
  foldl (Obj.step token token) st negative = foldl (Obj.step token token) st positive /\
  Obj.inds (foldl (Obj.step token token) st negative) = [0; 1; 2]%nat /\
  Obj.verts (Obj.ix (foldl (Obj.step token token) st negative))
    = [["0"; "1"; "0"]; ["1"; "0"; "0"]; ["0"; "0"; "0"]].
Proof.
  intros token st negative positive.
  assert (Hneg : negative = [Some ["f"; "-1"; "-2"; "-3"]]) by (vm_compute; reflexivity).
  assert (Hpos : positive = [Some ["f"; "3"; "2"; "1"]]) by (vm_compute; reflexivity).
  assert (Hback : forall (s : string) (i : Z),
            Obj.is_int (Obj.chars s) = true -> (0 <= i < 3)%Z ->
            Obj.split_on "/" (Obj.chars s) = [Obj.chars s] ->
            Obj.int_val (Obj.chars s) = (i - 3)%Z ->
            Obj.corner_names 3 0 0 0 s (Obj.Corner i None None)).
  { intros s i Hint Hrange Hsplit Hval. unfold Obj.corner_names. rewrite Hsplit.
    cbn [Obj.c_v Obj.c_t Obj.c_n].
    split; [right; repeat split; [exact Hint | lia | lia | exact Hval] | split; reflexivity]. }
  assert (Hfront : forall (s : string) (i : Z),
            Obj.is_int (Obj.chars s) = true -> (0 <= i < 3)%Z ->
            Obj.split_on "/" (Obj.chars s) = [Obj.chars s] ->
            Obj.int_val (Obj.chars s) = (i + 1)%Z ->
            Obj.corner_names 3 0 0 0 s (Obj.Corner i None None)).
  { intros s i Hint Hrange Hsplit Hval. unfold Obj.corner_names. rewrite Hsplit.
    cbn [Obj.c_v Obj.c_t Obj.c_n].
    split; [left; repeat split; [exact Hint | lia | lia | exact Hval] | split; reflexivity]. }
  destruct (negative_face_is_positive_face token token st 0 "-1" "-2" "-3" "3" "2" "1"
              (Obj.Corner 2 None None) (Obj.Corner 1 None None) (Obj.Corner 0 None None))
    as (Hcn & Hcp & Heq & _).
  - apply Hback; [reflexivity | lia | reflexivity | reflexivity].
  - apply Hback; [reflexivity | lia | reflexivity | reflexivity].
  - apply Hback; [reflexivity | lia | reflexivity | reflexivity].
  - apply Hfront; [reflexivity | lia | reflexivity | reflexivity].
  - apply Hfront; [reflexivity | lia | reflexivity | reflexivity].
  - apply Hfront; [reflexivity | lia | reflexivity | reflexivity].
  - split; [exact Hneg|]. split; [exact Hpos|]. rewrite Hneg, Hpos. cbn [foldl].
    split; [vm_compute; reflexivity|].
    split; [exact Hcn|]. split; [exact Hcp|]. split; [exact Heq|].
    split; vm_compute; reflexivity.
Defined.

(** The same with the three lists: after three positions, two texture
    coordinates and one normal, the face whose corners count back from the
    ends of [vs], [vts] and [vns] is the face that counts from their
    starts. *)
Example negative_indices_of_each_list :
  let token := @Datatypes.id string in
  let st := foldl (Obj.step token token) Obj.init (Obj._read_lines Obj.textured_vertices) in
  let negative := Obj._read_lines "f -3/-2/-1 -2/-1/-1 -1/-2/-1" in
  let positive := Obj._read_lines "f 1/1/1 2/2/1 3/1/1" in
  (length (Obj.vs st), length (Obj.vts st), length (Obj.vns st)) = (3, 2, 1)%nat /\
  Obj.face_corners 3 2 1 "-3/-2/-1" "-2/-1/-1" "-1/-2/-1"
    = Some (Obj.Corner 0 (Some 0%Z) (Some 0%Z), Obj.Corner 1 (Some 1%Z) (Some 0%Z),
            Obj.Corner 2 (Some 0%Z) (Some 0%Z)) /\
  foldl (Obj.step token token) st negative = foldl (Obj.step token token) st positive /\
  Obj.inds (foldl (Obj.step token token) st negative) = [0; 1; 2]%nat /\
  Obj.texCoords (Obj.ix (foldl (Obj.step token token) st negative))
    = [Some ["0"; "0"]; Some ["1"; "1"]; Some ["0"; "0"]].
Proof. vm_compute. repeat split. Qed.

(** ** The OBJ loader: material libraries and completion *)

Section LibraryFacts.
Import Loader Obj.
Context {num : Type}.
Variable to_number : string -> num.
Variable number_to_string : num -> string.

Local Abbreviation step := (step to_number number_to_string).
Local Abbreviation parse := (parse to_number number_to_string).

Lemma mtllib_libraries (args : list string) (st : @state num) :
  (mtls (foldl mtllib_arg st args), requests (foldl mtllib_arg st args))
  = foldl note_library (mtls st, requests st) args.
Proof.
  revert st; induction args as [|a args IH]; intros st; simpl; [done|].
  by rewrite IH.
Qed.

Lemma step_libraries (st : @state num) (l : line) :
  (mtls (step st l), requests (step st l))
  = foldl note_library (mtls st, requests st) (mtllib_names [l]).
Proof.
  unfold mtllib_names; simpl. rewrite app_nil_r.
  destruct l as [[|cmd args]|]; simpl; try done.
  unfold command.
  destruct (decide (cmd = "mtllib")); [apply mtllib_libraries|].
  destruct (decide (cmd = "usemtl")).
  { by destruct args as [|? [|? ?]]. }
  destruct (decide (cmd = "o")).
  { by destruct args as [|? [|? ?]]. }
  destruct (decide (cmd = "v")).
  { by destruct args as [|? [|? [|? [|? [|? ?]]]]]. }
  destruct (decide (cmd = "vn")).
  { by destruct args as [|? [|? [|? [|? ?]]]]. }
  destruct (decide (cmd = "vt")).
  { by destruct args as [|? [|? [|? [|? ?]]]]. }
  destruct (decide (cmd = "f")); [|done].
  unfold face. destruct args as [|a [|b [|c [|d args]]]]; try done.
  destruct (face_corners _ _ _ a b c) as [[[ca cb] cc]|]; [|done].
  unfold Obj.add_face.
  destruct (fetch st ca) as [[v_a vt_a] vn_a], (fetch st cb) as [[v_b vt_b] vn_b],
           (fetch st cc) as [[v_c vt_c] vn_c].
  destruct (get_idx _ v_a vt_a vn_a (ix st)) as [ia ix1].
  destruct (get_idx _ v_b vt_b vn_b ix1) as [ib ix2].
  destruct (get_idx _ v_c vt_c vn_c ix2) as [ic ix3]. done.
Qed.

Lemma mtllib_names_cons (l : line) (lines : list line) :
  mtllib_names (l :: lines) = mtllib_names [l] ++ mtllib_names lines.
Proof. unfold mtllib_names; simpl. by rewrite app_nil_r. Qed.

(** The names in [mtls] and the requests that the parsing of a file
    leaves. *)
Lemma parse_libraries (lines : list line) :
  (mtls (parse lines), requests (parse lines))
  = foldl note_library ([], []) (mtllib_names lines).
Proof.
  unfold Obj.parse. cbn [mtls requests].
  change ([], []) with (mtls (@init num), requests (@init num)).
  generalize (@init num). induction lines as [|l lines IH]; intros st; [done|].
  rewrite mtllib_names_cons, foldl_app, <- step_libraries. apply IH.
Qed.

Lemma note_library_length (names : list string) (s : list string * list string) :
  (length s.2 <= length s.1)%nat ->
  (length (foldl note_library s names).2 <= length (foldl note_library s names).1)%nat.
Proof.
  revert s; induction names as [|x names IH]; intros s Hs; simpl; [done|].
  apply IH. unfold note_library; simpl.
  destruct (decide (x ∈ s.1)); rewrite !length_app; simpl; lia.
Qed.

Lemma parse_requests_le (lines : list line) :
  (length (requests (parse lines)) <= length (mtls (parse lines)))%nat.
Proof.
  pose proof (parse_libraries lines) as H.
  pose proof (note_library_length (mtllib_names lines) ([], [])) as Hl.
  rewrite <- H in Hl. simpl in Hl. apply Hl. lia.
Qed.

End LibraryFacts.

Section CountingFacts.

Lemma NoDup_bounded_length (l : list nat) (n : nat) :
  NoDup l -> (forall x, x ∈ l -> (x < n)%nat) -> (length l <= n)%nat.
Proof.
  intros Hnd Hlt. rewrite <- (length_seq n 0).
  apply NoDup_incl_length; [by apply NoDup_ListNoDup|].
  intros x Hx. apply in_seq. apply list_elem_of_In, Hlt in Hx. lia.
Qed.

Lemma NoDup_bounded_full (l : list nat) (n : nat) :
  NoDup l -> (forall x, x ∈ l -> (x < n)%nat) -> length l = n ->
  forall i, (i < n)%nat -> i ∈ l.
Proof.
  intros Hnd Hlt Hlen i Hi. apply list_elem_of_In.
  apply NoDup_ListNoDup in Hnd.
  apply (NoDup_length_incl Hnd (l' := seq 0 n)).
  - rewrite length_seq. lia.
  - intros x Hx. apply in_seq. apply list_elem_of_In, Hlt in Hx. lia.
  - apply in_seq. lia.
Qed.

End CountingFacts.

Section ResolverFacts.
Import Loader.
Context {num : Type}.
Variable to_number : string -> num.
Variable number_to_string : num -> string.
Variable numeric : string -> bool.

Local Abbreviation resolver := (@resolver num).

Lemma set_prop_loaded_length (key : string) (ms : materials) (a a' : js_array) :
  set_prop key (SLoaded ms) a = Some a' ->
  (length (elems a) <= length (elems a'))%nat.
Proof.
  unfold set_prop. destruct (classify key) as [k| |]; [| done |].
  - intros [= <-]; simpl. destruct (decide (k < length (elems a))%nat).
    + by rewrite length_insert.
    + rewrite length_app. lia.
  - by intros [= <-].
Qed.

Lemma set_prop_error_length (a a' : js_array) :
  set_prop error_event_key SNull a = Some a' ->
  (length (elems a) <= length (elems a'))%nat.
Proof.
  unfold set_prop.
  assert (Hc : classify error_event_key = PlainKey) by (vm_compute; reflexivity).
  rewrite Hc. by intros [= <-].
Qed.

Lemma finish_materials_spec (r : resolver) :
  let r' := finish_materials r in
  obj r' = obj r /\ mtls r' = mtls r /\ loaded_mtls r' = loaded_mtls r /\
  in_flight r' = in_flight r /\ loaders r' = loaders r /\
  reported r' = reported r /\
  (ondone_calls r' = ondone_calls r \/ ondone_calls r' = (ondone_calls r + 1)%nat).
Proof.
  unfold finish_materials. destruct (finish_ok r); simpl; repeat split; auto.
Qed.

(** What one call of [mtl_loaded] or [mtl_error] does. *)
Lemma mtl_done_spec (req : nat) (key : string) (v : slot) (r : resolver) :
  let r' := mtl_done req key v r in
  obj r' = obj r /\ in_flight r' = in_flight r /\ loaders r' = loaders r /\
  reported r' = reported r ++ [req] /\
  (loaded_mtls r' <= loaded_mtls r + 1)%nat /\
  (mtls r' = mtls r \/ set_prop key v (mtls r) = Some (mtls r')) /\
  (ondone_calls r' = ondone_calls r \/
   (ondone_calls r' = (ondone_calls r + 1)%nat /\
    (loaded_mtls r + 1)%nat = length (elems (mtls r')))).
Proof.
  unfold mtl_done. destruct (set_prop key v (mtls r)) as [a|] eqn:Hset.
  - destruct (decide (loaded_mtls r + 1 = length (elems a))%nat) as [Heq|Hne].
    + match goal with |- context [finish_materials ?x] =>
        pose proof (finish_materials_spec x) as Hf; cbv zeta in Hf;
        destruct Hf as (Ho & Hm & Hl & Hi & Hlo & Hr & Hd)
      end.
      cbv zeta. rewrite Ho, Hm, Hl, Hi, Hlo, Hr. simpl.
      repeat split; auto. destruct Hd as [Hd|Hd]; simpl in Hd; auto.
    + simpl. repeat split; auto.
  - simpl. repeat split; auto. lia.
Qed.

Lemma mtl_done_inv (n m : nat) (req : nat) (key : string) (v : slot) (r : resolver) :
  resolver_inv n m r ->
  req ∉ reported r -> (req < n)%nat -> req ∉ in_flight r ->
  (forall l, loaders r !! req = Some l -> waiting l = ∅) ->
  (forall a, set_prop key v (mtls r) = Some a ->
             (length (elems (mtls r)) <= length (elems a))%nat) ->
  resolver_inv n m (mtl_done req key v r).
Proof.
  intros (Hnm & Hn & Hld & Hnd & Hrep & Hlo & Hm & Hdone & Hfly & Honce)
         Hreq Hlt Hfl Hw Hset.
  pose proof (mtl_done_spec req key v r) as Hs. cbv zeta in Hs.
  destruct Hs as (Ho & Hi & Hl & Hr & Hle & Hmt & Hd).
  assert (Hnd' : NoDup (reported r ++ [req])).
  { apply NoDup_app. split; [done|]. split.
    - intros x Hx Hx'. apply list_elem_of_singleton in Hx' as ->. done.
    - apply NoDup_singleton. }
  assert (Hrep' : forall req', req' ∈ reported r ++ [req] ->
            (req' < n)%nat /\ (req' ∉ in_flight r) /\
            forall l, loaders r !! req' = Some l -> waiting l = ∅).
  { intros req' Hin. apply elem_of_app in Hin as [Hin|Hin]; [by apply Hrep|].
    apply list_elem_of_singleton in Hin as ->. done. }
  assert (Hbound : (length (reported r ++ [req]) <= n)%nat).
  { apply NoDup_bounded_length; [done|]. intros x Hx. by apply Hrep'. }
  assert (Hm' : (m <= length (elems (mtls (mtl_done req key v r))))%nat).
  { destruct Hmt as [-> | Hsome]; [done|]. apply Hset in Hsome. lia. }
  unfold resolver_inv. rewrite Ho, Hi, Hl, Hr.
  split; [done|]. split; [done|].
  split; [rewrite length_app; simpl; lia|].
  split; [done|]. split; [done|]. split; [done|]. split; [done|].
  rewrite length_app in *. cbn [length] in *.
  split; [|split; [done|]].
  - intros Hpos. destruct Hd as [Hd | [Hd Heq]].
    + rewrite Hd in Hpos. destruct (Hdone Hpos) as [Hfull _]. lia.
    + lia.
  - destruct Hd as [Hd | [Hd Heq]]; [lia|].
    destruct (ondone_calls r) as [|k]; [lia|].
    destruct Hdone as [Hfull _]; [lia|]. lia.
Qed.

Lemma size_seq_set (k : nat) : size (list_to_set (seq 0 k) : gset nat) = k.
Proof. rewrite size_list_to_set by apply NoDup_seq. apply length_seq. Qed.

(** Every event keeps the invariant. *)
Lemma handle_inv (n m : nat) (r r' : resolver) (e : event) :
  resolver_inv n m r -> handle numeric r e = Some r' -> resolver_inv n m r'.
Proof.
  intros Hinv He.
  pose proof Hinv as (Hnm & Hn & Hld & Hnd & Hrep & Hlo & Hm & Hdone & Hfly & Honce).
  destruct e as [req text | req | req img ok]; simpl in He.
  - (* a material file has loaded *)
    unfold on_file_load in He.
    destruct (decide (req ∈ in_flight r)) as [Hin|]; [|done].
    destruct (Obj.requests (obj r) !! req) as [url|] eqn:Hurl; [|done].
    simpl in He. injection He as <-.
    assert (Hlt : (req < n)%nat) by (rewrite <- Hn; by eapply lookup_lt_Some).
    assert (Hnrep : req ∉ reported r) by (intros Hx; by apply Hrep in Hx as (_ & ? & _)).
    set (p := mtl_parse numeric text).
    set (l := MkLoader url (m_materials p) (m_needed p) 0
                       (list_to_set (seq 0 (m_needed p)))).
    set (r1 := Resolver (obj r) (mtls r) (loaded_mtls r) (in_flight r ∖ {[req]})
                        (<[req := l]> (loaders r)) (reported r) (ondone_calls r)).
    assert (Hinv1 : resolver_inv n m r1).
    { unfold resolver_inv, r1; simpl.
      split; [done|]. split; [done|]. split; [done|]. split; [done|].
      split; [|split; [|split; [done|split; [done|split; [|done]]]]].
      - intros req' Hr'. destruct (Hrep req' Hr') as (H1 & H2 & H3).
        split; [done|]. split; [apply not_elem_of_difference; by left|].
        intros l' Hl'. rewrite lookup_insert_ne in Hl' by (intros ->; done).
        by apply H3.
      - intros req' l' Hl'. destruct (decide (req = req')) as [<-|Hne].
        + rewrite lookup_insert_eq in Hl'. injection Hl' as <-. simpl.
          split; [done|].
          split; [apply not_elem_of_difference; right; by apply elem_of_singleton|].
          apply size_seq_set.
        + rewrite lookup_insert_ne in Hl' by done.
          destruct (Hlo req' l' Hl') as (H1 & H2 & H3).
          split; [done|]. split; [apply not_elem_of_difference; by left|done].
      - intros req' Hr'. apply Hfly. by apply elem_of_difference in Hr' as [? _]. }
    destruct (decide (m_needed p = 0%nat)) as [Hz|]; [|done].
    apply mtl_done_inv; try done.
    + simpl. apply not_elem_of_difference; right; by apply elem_of_singleton.
    + simpl. intros l'. rewrite lookup_insert_eq. intros [= <-]. simpl.
      by rewrite Hz.
    + simpl. intros a. apply set_prop_loaded_length.
  - (* a material file has failed *)
    unfold on_file_error in He.
    destruct (decide (req ∈ in_flight r)) as [Hin|]; [|done].
    injection He as <-.
    assert (Hlt : (req < n)%nat) by by apply Hfly.
    assert (Hnrep : req ∉ reported r) by (intros Hx; by apply Hrep in Hx as (_ & ? & _)).
    apply mtl_done_inv; try done.
    + unfold resolver_inv; simpl.
      split; [done|]. split; [done|]. split; [done|]. split; [done|].
      split; [|split; [|split; [done|split; [done|split; [|done]]]]].
      * intros req' Hr'. destruct (Hrep req' Hr') as (H1 & H2 & H3).
        split; [done|]. split; [apply not_elem_of_difference; by left|done].
      * intros req' l' Hl'. destruct (Hlo req' l' Hl') as (H1 & H2 & H3).
        split; [done|]. split; [apply not_elem_of_difference; by left|done].
      * intros req' Hr'. apply Hfly. by apply elem_of_difference in Hr' as [? _].
    + simpl. apply not_elem_of_difference; right; by apply elem_of_singleton.
    + simpl. intros l Hl. by apply Hlo in Hl as (_ & ? & _).
    + simpl. intros a. apply set_prop_error_length.
  - (* an image has loaded or failed *)
    unfold on_image in He.
    destruct (loaders r !! req) as [l|] eqn:Hl; [|done]. simpl in He.
    destruct (decide (img ∈ waiting l)) as [Hin|]; [|done].
    injection He as <-.
    destruct (Hlo req l Hl) as (Hlt & Hnfl & Hcount).
    assert (Hnrep : req ∉ reported r).
    { intros Hx. apply Hrep in Hx as (_ & _ & Hx). specialize (Hx l Hl).
      rewrite Hx in Hin. by apply not_elem_of_empty in Hin. }
    assert (Hsize : (size (waiting l ∖ {[img]}) + 1 = size (waiting l))%nat).
    { rewrite size_difference by (by apply singleton_subseteq_l).
      rewrite size_singleton.
      assert (size (waiting l) ≠ 0%nat); [|lia].
      intros Hz. apply size_empty_iff in Hz. rewrite Hz in Hin.
      by apply not_elem_of_empty in Hin. }
    set (l' := MkLoader (l_url l) (l_materials l) (needed_txts l)
                        (loaded_txts l + 1) (waiting l ∖ {[img]})).
    set (r1 := Resolver (obj r) (mtls r) (loaded_mtls r) (in_flight r)
                        (<[req := l']> (loaders r)) (reported r) (ondone_calls r)).
    assert (Hinv1 : resolver_inv n m r1).
    { unfold resolver_inv, r1; simpl.
      split; [done|]. split; [done|]. split; [done|]. split; [done|].
      split; [|split; [|split; [done|split; [done|split; [done|done]]]]].
      - intros req' Hr'. destruct (Hrep req' Hr') as (H1 & H2 & H3).
        split; [done|]. split; [done|].
        intros l2 Hl2. rewrite lookup_insert_ne in Hl2 by (intros ->; done).
        by apply H3.
      - intros req' l2 Hl2. destruct (decide (req = req')) as [<-|Hne].
        + rewrite lookup_insert_eq in Hl2. injection Hl2 as <-. simpl.
          split; [done|]. split; [done|]. lia.
        + rewrite lookup_insert_ne in Hl2 by done. by apply Hlo. }
    destruct (decide (needed_txts l = (loaded_txts l + 1)%nat)) as [Hlast|]; [|done].
    apply mtl_done_inv; try done.
    + simpl. intros l2. rewrite lookup_insert_eq. intros [= <-]. simpl.
      apply leibniz_equiv, size_empty_iff. lia.
    + simpl. intros a. apply set_prop_loaded_length.
Qed.

Lemma start_inv (lines : list Obj.line) :
  let st := Obj.parse to_number number_to_string lines in
  resolver_inv (length (Obj.requests st)) (length (Obj.mtls st))
    (start to_number number_to_string lines).
Proof.
  intros st. unfold start. fold st.
  pose proof (parse_requests_le to_number number_to_string lines) as Hle. fold st in Hle.
  set (r := Resolver st _ 0 _ ∅ [] 0).
  assert (Hr : resolver_inv (length (Obj.requests st)) (length (Obj.mtls st)) r).
  { unfold resolver_inv, r; simpl.
    split; [done|]. split; [done|]. split; [lia|]. split; [apply NoDup_nil_2|].
    split; [intros req Hreq; by apply elem_of_nil in Hreq|].
    split; [intros req l Hl; by rewrite lookup_empty in Hl|].
    split; [by rewrite length_fmap|]. split; [lia|]. split; [|lia].
    intros req Hreq. apply elem_of_list_to_set, elem_of_seq in Hreq. lia. }
  destruct (decide (length (Obj.mtls st) = 0%nat)) as [Hz|]; [|done].
  pose proof (finish_materials_spec r) as Hf. cbv zeta in Hf.
  destruct Hf as (Ho & Hm & Hl & Hi & Hlo & Hrp & Hd).
  destruct Hr as (H1 & H2 & H3 & H4 & H5 & H6 & H7 & H8 & H9 & H10).
  unfold resolver_inv. rewrite Ho, Hm, Hl, Hi, Hlo, Hrp.
  repeat (split; [done|]). split; [|split; [done|]].
  - intros _. change (reported r) with (@nil nat). cbn [length]. lia.
  - change (ondone_calls r) with 0%nat in Hd. lia.
Qed.

Lemma run_snoc (r : resolver) (trace : list event) (e : event) :
  run numeric r (trace ++ [e]) = run numeric r trace ≫= fun r => handle numeric r e.
Proof. unfold run. by rewrite foldl_app. Qed.

Lemma run_inv (n m : nat) (r r' : resolver) (trace : list event) :
  resolver_inv n m r -> run numeric r trace = Some r' -> resolver_inv n m r'.
Proof.
  revert r'. induction trace as [|e trace IH] using rev_ind; intros r' Hinv Hrun.
  - by injection Hrun as <-.
  - rewrite run_snoc in Hrun.
    destruct (run numeric r trace) as [r1|]; [|done]. simpl in Hrun.
    eapply handle_inv; [|done]. by apply IH.
Qed.


(** [ondone] is called at most once, on every schedule. *)
Lemma ondone_at_most_once (lines : list Obj.line) (trace : list event)
    (r : resolver) :
  run numeric (start to_number number_to_string lines) trace = Some r ->
  (ondone_calls r <= 1)%nat.
Proof.
  intros Hrun.
  pose proof (run_inv _ _ _ _ _ (start_inv lines) Hrun) as Hinv.
  by destruct Hinv as (_ & _ & _ & _ & _ & _ & _ & _ & _ & Honce).
Qed.

(** [ondone] is not called while the names in [mtls] outnumber the
    requests, that is, when a library is named twice. *)
Lemma never_done_when_repeated (lines : list Obj.line) (trace : list event)
    (r : resolver) :
  let st := Obj.parse to_number number_to_string lines in
  (length (Obj.requests st) < length (Obj.mtls st))%nat ->
  run numeric (start to_number number_to_string lines) trace = Some r ->
  ondone_calls r = 0%nat.
Proof.
  intros st Hlt Hrun.
  pose proof (run_inv _ _ _ _ _ (start_inv lines) Hrun) as Hinv.
  destruct Hinv as (_ & _ & _ & _ & _ & _ & _ & Hdone & _ & _).
  destruct (ondone_calls r) as [|k]; [done|].
  destruct Hdone as [_ Hle]; [lia|]. fold st in Hle. lia.
Qed.

Lemma history_inv_ext (n : nat) (trace : list event) (r1 r2 : resolver) :
  in_flight r2 = in_flight r1 -> loaders r2 = loaders r1 ->
  history_inv numeric n trace r1 -> history_inv numeric n trace r2.
Proof. unfold history_inv. by intros -> ->. Qed.

Lemma mtl_done_history (n : nat) (trace : list event) (req : nat) (key : string)
    (v : slot) (b : bool) (r : resolver) :
  history_inv numeric n trace r ->
  history_inv numeric n trace (if b then mtl_done req key v r else r).
Proof.
  intros H. destruct b; [|done].
  pose proof (mtl_done_spec req key v r) as Hs. cbv zeta in Hs.
  destruct Hs as (_ & Hi & Hl & _). by apply (history_inv_ext n trace r).
Qed.

(** Every event keeps the schedule and the state in step. *)
Lemma handle_history (n : nat) (trace : list event) (r r' : resolver) (e : event) :
  history_inv numeric n trace r -> handle numeric r e = Some r' ->
  history_inv numeric n (trace ++ [e]) r'.
Proof.
  intros (K1 & K2 & K3 & K4) He.
  assert (Hold : forall x : event, x ∈ trace -> x ∈ trace ++ [e])
    by (intros x Hx; apply elem_of_app; by left).
  assert (Hnew : e ∈ trace ++ [e])
    by (apply elem_of_app; right; by apply list_elem_of_singleton).
  destruct e as [req text | req | req img ok]; simpl in He.
  - unfold on_file_load in He.
    destruct (decide (req ∈ in_flight r)) as [Hin|]; [|done].
    destruct (Obj.requests (obj r) !! req) as [url|]; [|done].
    simpl in He. injection He as <-.
    unfold mtl_loaded.
    match goal with |- history_inv _ _ _ (if decide ?c then _ else _) =>
      destruct (decide c) end.
    all: match goal with
         | |- history_inv _ _ _ (mtl_done ?a ?b ?c ?d) =>
             apply (mtl_done_history n _ a b c true d)
         | |- _ => idtac
         end.
    all: unfold history_inv; simpl; (split; [|split; [|split]]).
    all: try (intros req' Hlt Hnf; destruct (decide (req' = req)) as [->|Hne];
              [left; by exists text|];
              destruct (K1 req' Hlt) as [[t Ht]|Ht];
              [intros Hx; apply Hnf, elem_of_difference; split; [done|];
               by intros Hs%elem_of_singleton
              |left; exists t; by apply Hold | right; by apply Hold]).
    all: try (intros req' l' img' Hl' Hlt Hnw;
              destruct (decide (req = req')) as [<-|Hne];
              [rewrite lookup_insert_eq in Hl'; injection Hl' as <-; simpl in *;
               exfalso; apply Hnw, elem_of_list_to_set, elem_of_seq; lia
              |rewrite lookup_insert_ne in Hl' by done;
               destruct (K2 req' l' img' Hl' Hlt Hnw) as [ok Hok];
               exists ok; by apply Hold]).
    all: try (intros req' l' Hl'; destruct (decide (req = req')) as [<-|Hne];
              [rewrite lookup_insert_eq in Hl'; injection Hl' as <-; simpl;
               by exists text
              |rewrite lookup_insert_ne in Hl' by done;
               destruct (K3 req' l' Hl') as (t & Ht & Hn); exists t;
               split; [by apply Hold|done]]).
    all: intros req' text' Hin'; apply lookup_insert_is_Some;
         destruct (decide (req = req')) as [|Hne]; [by left|right];
         split; [done|];
         apply elem_of_app in Hin' as [Hin'|Hin']; [by eapply K4|];
         apply list_elem_of_singleton in Hin'; congruence.
  - unfold on_file_error in He.
    destruct (decide (req ∈ in_flight r)) as [Hin|]; [|done].
    injection He as <-. unfold mtl_error.
    match goal with
    | |- history_inv _ _ _ (mtl_done ?a ?b ?c ?d) =>
        apply (mtl_done_history n _ a b c true d)
    end.
    unfold history_inv; simpl. split; [|split; [|split]].
    + intros req' Hlt Hnf. destruct (decide (req' = req)) as [->|Hne];
        [right; done|].
      destruct (K1 req' Hlt) as [[t Ht]|Ht].
      * intros Hx. apply Hnf, elem_of_difference. split; [done|].
        by intros Hs%elem_of_singleton.
      * left. exists t. by apply Hold.
      * right. by apply Hold.
    + intros req' l' img' Hl' Hlt Hnw.
      destruct (K2 req' l' img' Hl' Hlt Hnw) as [ok Hok]. exists ok. by apply Hold.
    + intros req' l' Hl'. destruct (K3 req' l' Hl') as (t & Ht & Hn).
      exists t. split; [by apply Hold|done].
    + intros req' text' Hin'.
      apply elem_of_app in Hin' as [Hin'|Hin']; [by eapply K4|].
      apply list_elem_of_singleton in Hin'. congruence.
  - unfold on_image in He.
    destruct (loaders r !! req) as [l|] eqn:Hl; [|done]. simpl in He.
    destruct (decide (img ∈ waiting l)) as [Hin|]; [|done].
    injection He as <-. unfold mtl_loaded.
    match goal with |- history_inv _ _ _ (if decide ?c then _ else _) =>
      destruct (decide c) end.
    all: match goal with
         | |- history_inv _ _ _ (mtl_done ?a ?b ?c ?d) =>
             apply (mtl_done_history n _ a b c true d)
         | |- _ => idtac
         end.
    all: unfold history_inv; simpl; (split; [|split; [|split]]).
    all: try (intros req' Hlt Hnf; destruct (K1 req' Hlt Hnf) as [[t Ht]|Ht];
              [left; exists t; by apply Hold | right; by apply Hold]).
    all: try (intros req' l' img' Hl' Hlt Hnw;
              destruct (decide (req = req')) as [<-|Hne];
              [rewrite lookup_insert_eq in Hl'; injection Hl' as <-; simpl in *;
               destruct (decide (img' = img)) as [->|Hni]; [by exists ok|];
               destruct (K2 req l img' Hl Hlt) as [ok' Hok];
               [intros Hx; apply Hnw, elem_of_difference; split; [done|];
                by intros Hs%elem_of_singleton
               |exists ok'; by apply Hold]
              |rewrite lookup_insert_ne in Hl' by done;
               destruct (K2 req' l' img' Hl' Hlt Hnw) as [ok' Hok];
               exists ok'; by apply Hold]).
    all: try (intros req' l' Hl'; destruct (decide (req = req')) as [<-|Hne];
              [rewrite lookup_insert_eq in Hl'; injection Hl' as <-; simpl;
               destruct (K3 req l Hl) as (t & Ht & Hn); exists t;
               split; [by apply Hold|done]
              |rewrite lookup_insert_ne in Hl' by done;
               destruct (K3 req' l' Hl') as (t & Ht & Hn); exists t;
               split; [by apply Hold|done]]).
    all: intros req' text' Hin'; apply lookup_insert_is_Some;
         destruct (decide (req = req')) as [|Hne]; [by left|right];
         split; [done|];
         apply elem_of_app in Hin' as [Hin'|Hin']; [by eapply K4|];
         apply list_elem_of_singleton in Hin'; congruence.
Qed.

Lemma start_history (lines : list Obj.line) :
  history_inv numeric
    (length (Obj.requests (Obj.parse to_number number_to_string lines))) []
    (start to_number number_to_string lines).
Proof.
  unfold start. set (st := Obj.parse to_number number_to_string lines).
  set (r := Resolver st _ 0 _ ∅ [] 0).
  assert (Hr : history_inv numeric (length (Obj.requests st)) [] r).
  { unfold history_inv, r; simpl. split; [|split; [|split]].
    - intros req Hlt Hnf. exfalso. apply Hnf, elem_of_list_to_set, elem_of_seq. lia.
    - intros req l img Hl. by rewrite lookup_empty in Hl.
    - intros req l Hl. by rewrite lookup_empty in Hl.
    - intros req text Hin. by apply elem_of_nil in Hin. }
  destruct (decide (length (Obj.mtls st) = 0%nat)); [|done].
  pose proof (finish_materials_spec r) as Hf. cbv zeta in Hf.
  destruct Hf as (_ & _ & _ & Hi & Hlo & _). by apply (history_inv_ext _ _ r).
Qed.

Lemma run_history (n : nat) (r r' : resolver) (trace : list event) :
  history_inv numeric n [] r -> run numeric r trace = Some r' ->
  history_inv numeric n trace r'.
Proof.
  revert r'. induction trace as [|e trace IH] using rev_ind; intros r' Hinv Hrun.
  - by injection Hrun as <-.
  - rewrite run_snoc in Hrun.
    destruct (run numeric r trace) as [r1|]; [|done]. simpl in Hrun.
    eapply handle_history; [|done]. by apply IH.
Qed.

(** C1 at the input [mtllib a.mtl a.mtl]: the file is requested once, but
    [mtls] holds its name twice, so [loaded_mtls] never reaches
    [mtls.length]: on no schedule of completions is [ondone] called. *)
Theorem duplicate_library_never_done (trace : list event) (r : resolver) :
  run numeric (start to_number number_to_string duplicate_lines) trace = Some r ->
  ondone_calls r = 0%nat.
Proof.
  apply never_done_when_repeated. vm_compute. lia.
Qed.

(** C9: for an OBJ file whose [mtllib] lines name one material file, on a
    schedule where that file loads and holds one texture map, [ondone] has
    only been called once both the file and its image have reported; the
    schedule is arbitrary, so this holds for every order in which the
    browser can report them. *)
Theorem ondone_waits_for_file_and_texture (lines : list Obj.line) (name : string)
    (trace : list event) (r : resolver) :
  mtllib_names lines = [name] ->
  one_texture_each numeric trace ->
  run numeric (start to_number number_to_string lines) trace = Some r ->
  (0 < ondone_calls r)%nat ->
  (exists text, FileLoad 0 text ∈ trace) /\ (exists ok, ImageDone 0 0 ok ∈ trace).
Proof.
  intros Hnames Hone Hrun Hpos.
  pose proof (parse_libraries to_number number_to_string lines) as Hlib.
  rewrite Hnames in Hlib.
  assert (Hone_name : foldl note_library ([], []) [name] = ([name], [name])).
  { cbn [foldl]. unfold note_library. cbn [fst snd app].
    by rewrite decide_False by apply not_elem_of_nil. }
  rewrite Hone_name in Hlib.
  pose proof (f_equal fst Hlib) as Hm. pose proof (f_equal snd Hlib) as Hreq.
  cbn [fst snd] in Hm, Hreq. clear Hlib.
  pose proof (run_inv _ _ _ _ _ (start_inv lines) Hrun) as Hinv.
  pose proof (run_history _ _ _ _ (start_history lines) Hrun) as Hhist.
  rewrite Hreq, Hm in Hinv. rewrite Hreq in Hhist. cbn [length] in Hinv, Hhist.
  destruct Hinv as (_ & _ & _ & Hnd & Hrep & _ & _ & Hdone & _ & _).
  destruct Hhist as (K1 & K2 & K3 & K4).
  destruct (Hdone Hpos) as [Hfull _].
  assert (H0 : 0%nat ∈ reported r).
  { apply (NoDup_bounded_full _ 1); [done| |done|lia].
    intros x Hx. by apply Hrep in Hx as (? & _). }
  destruct (Hrep 0%nat H0) as (_ & Hnf & Hwait).
  assert (Hfile : exists text, FileLoad 0 text ∈ trace).
  { destruct (K1 0%nat) as [Hl|He]; [lia|done|done|].
    exfalso. unfold one_texture_each in Hone. rewrite Forall_forall in Hone.
    by apply (Hone _ He). }
  split; [done|].
  destruct Hfile as [text Htext].
  destruct (K4 0%nat text Htext) as [l Hl].
  destruct (K3 0%nat l Hl) as (text' & Htext' & Hneeded).
  assert (H1 : needed_txts l = 1%nat).
  { rewrite Hneeded. unfold one_texture_each in Hone. rewrite Forall_forall in Hone.
    by apply (Hone _ Htext'). }
  apply (K2 0%nat l 0%nat Hl); [lia|].
  rewrite (Hwait l Hl). apply not_elem_of_empty.
Qed.

End ResolverFacts.

Section LoaderExamples.
Import Loader.

(** Tokens stand for their numbers, and no token is numeric, in the
    samples below. *)
Local Abbreviation token := (@Datatypes.id string).
Local Abbreviation no_number := (fun _ : string => false).

(** After the only request of [mtllib a.mtl a.mtl] has loaded, a file
    without texture maps, every load has reported and [ondone] has not been
    called. *)
Lemma duplicate_library_never_done_witness :
  exists r,
    run no_number (start token token duplicate_lines) [FileLoad 0 []] = Some r /\
    quiescent r /\ ondone_calls r = 0%nat.
Proof.
  set (r := Resolver (Obj.parse token token duplicate_lines)
              (JsArray [SName "a.mtl"; SName "a.mtl"] {["a.mtl" := SLoaded ∅]})
              1 ∅ {[0%nat := MkLoader "a.mtl" ∅ 0 0 ∅]} [0%nat] 0).
  assert (Hrun : run no_number (start token token duplicate_lines) [FileLoad 0 []]
                 = Some r) by (vm_compute; reflexivity).
  exists r. split; [exact Hrun|]. split.
  - split; [reflexivity|]. intros req l Hl.
    unfold r in Hl. cbn [loaders] in Hl.
    apply lookup_singleton_Some in Hl as [_ <-]. reflexivity.
  - exact (duplicate_library_never_done token token no_number _ _ Hrun).
Defined.

(** A second input on which [ondone] is never called: the only library
    fails to load, [mtl_error] stores [null] under the string of the error
    event and not under the name of the file, and the search of
    [finish_materials] for the material of the part throws on
    [mtls["a.mtl"]], which is undefined. *)
Lemma failed_library_blocks_ondone :
  exists r,
    run no_number (start token token one_material_lines) [FileError 0] = Some r /\
    quiescent r /\ loaded_mtls r = length (elems (mtls r)) /\
    finish_ok r = false /\ ondone_calls r = 0%nat.
Proof.
  eexists. split; [vm_compute; reflexivity|].
  split; [|split; [|split]]; try (vm_compute; reflexivity).
  split; [vm_compute; reflexivity|]. intros req l Hl.
  match type of Hl with
  | loaders ?r !! _ = _ =>
      assert (Hnone : loaders r = ∅) by (vm_compute; reflexivity);
      rewrite Hnone in Hl
  end.
  by rewrite lookup_empty in Hl.
Qed.

(** Two libraries named once each: [ondone] is called when the second of
    them reports, in whichever order the two files load, and not before. *)
Example two_libraries_either_order :
  let lines := [Some ["mtllib"; "a.mtl"; "b.mtl"]] in
  let s0 := start token token lines in
  (ondone_calls <$> run no_number s0 [FileLoad 0 []; FileLoad 1 []]) = Some 1%nat /\
  (ondone_calls <$> run no_number s0 [FileLoad 1 []; FileLoad 0 []]) = Some 1%nat /\
  (ondone_calls <$> run no_number s0 [FileLoad 0 []]) = Some 0%nat /\
  (ondone_calls <$> run no_number s0 [FileLoad 1 []]) = Some 0%nat /\
  run no_number s0 [FileLoad 0 []; FileLoad 0 []] = None.
Proof. repeat split; vm_compute; reflexivity. Qed.

(** One library with one texture map: [ondone] is called when the image
    reports, after the file. *)
Lemma ondone_waits_for_file_and_texture_witness :
  let lines := [Some ["mtllib"; "a.mtl"]] in
  let text := [Some ["newmtl"; "m"]; Some ["map_Kd"; "a.png"]] in
  let trace := [FileLoad 0 text; ImageDone 0 0 true] in
  (exists r, run no_number (start token token lines) trace = Some r
             /\ ondone_calls r = 1%nat) /\
  (exists r, run no_number (start token token lines) [FileLoad 0 text] = Some r
             /\ ondone_calls r = 0%nat) /\
  (exists text, FileLoad 0 text ∈ trace) /\ (exists ok, ImageDone 0 0 ok ∈ trace).
Proof.
  intros lines text trace.
  assert (Hrun : exists r, run no_number (start token token lines) trace = Some r
                           /\ ondone_calls r = 1%nat).
  { eexists. split; vm_compute; reflexivity. }
  split; [exact Hrun|]. split; [eexists; split; vm_compute; reflexivity|].
  destruct Hrun as (r & Hrun & Hcalls).
  apply (ondone_waits_for_file_and_texture token token no_number lines "a.mtl"
           trace r).
  - reflexivity.
  - repeat constructor.
  - exact Hrun.
  - rewrite Hcalls. lia.
Defined.

End LoaderExamples.

(** * Further properties *)

(** ** The mesh builder: the whole can *)

Section CanFacts.
Import Mesh.

(** What [soda_can] appends to the arrays it is given. *)
Lemma soda_can_appends (c : vec) (r1 r2 : R) (n : nat) (h : R)
    (verts : list vec) (inds : list Z) :
  let off := Z.of_nat (length verts) in
  soda_can c r1 r2 n h verts inds
  = (verts
       ++ map (circle_point (ring_center c r1 r2 h 0) (ring_radius r1 r2 0) n) (seq 0 n)
       ++ map (circle_point (ring_center c r1 r2 h 1) (ring_radius r1 r2 1) n) (seq 0 n)
       ++ map (circle_point (ring_center c r1 r2 h 2) (ring_radius r1 r2 2) n) (seq 0 n)
       ++ map (circle_point (ring_center c r1 r2 h 3) (ring_radius r1 r2 3) n) (seq 0 n),
     inds ++ cylinder_strip n (off + Z.of_nat n) ++ cone_strip 0 1 n off
          ++ cone_strip 2 3 n off ++ fill_strip n off false
          ++ fill_strip n (off + 3 * Z.of_nat n) true).
Proof.
  intros off. unfold soda_can.
  rewrite (surjective_pairing (cylinder _ _ _ _ _ _)).
  rewrite cylinder_inds. unfold cylinder; cbn [fst].
  rewrite !add_circle_fill_eq, !add_truncated_cone_eq, !circle_eq.
  rewrite !length_app, length_map, length_seq, Nat2Z.inj_add.
  fold off. cbn [bool_decide decide_rel].
  unfold cylinder_strip, cone_strip, fill_strip.
  f_equal.
  - by rewrite <- !app_assoc.
  - rewrite <- !app_assoc. repeat f_equal.
Qed.

Lemma cylinder_strip_length (n : nat) (off : Z) :
  length (cylinder_strip n off) = (2 * n + 3)%nat.
Proof.
  unfold cylinder_strip. rewrite length_app, (flat_map_length_const _ _ 2) by done.
  rewrite length_seq. simpl. lia.
Qed.

Lemma cone_strip_length (m1 m2 : Z) (n : nat) (off : Z) :
  length (cone_strip m1 m2 n off) = (2 * n + 4)%nat.
Proof.
  unfold cone_strip. rewrite !length_app, (flat_map_length_const _ _ 2) by done.
  rewrite length_seq. simpl. lia.
Qed.

Lemma fill_strip_length (n : nat) (off : Z) (reverse : bool) :
  length (fill_strip n off reverse) = (2 + 2 * half_up n)%nat.
Proof.
  unfold fill_strip. rewrite length_app.
  rewrite (flat_map_length_const _ _ 2) by (intros i; by destruct reverse).
  rewrite length_seq. simpl. lia.
Qed.

Lemma half_up_div (n : nat) : half_up n = ((n + 1) / 2)%nat.
Proof. unfold half_up. apply Nat.div2_div. Qed.

(** The indices of the five parts of the can lie in the rings they
    connect. *)
Lemma can_strips_in_range (n : nat) (off : Z) :
  (2 <= n)%nat ->
  Forall (fun idx => (off <= idx < off + 4 * Z.of_nat n)%Z)
    (cylinder_strip n (off + Z.of_nat n) ++ cone_strip 0 1 n off
       ++ cone_strip 2 3 n off ++ fill_strip n off false
       ++ fill_strip n (off + 3 * Z.of_nat n) true).
Proof.
  intros Hn. unfold cylinder_strip, cone_strip, fill_strip.
  repeat first
    [ apply Forall_nil
    | apply Forall_cons; split
    | apply Forall_app; split
    | apply Forall_flat_map_seq; intros i Hi; cbn beta iota ];
    try lia.
  all: assert (2 * i < n)%nat by (apply half_up_bound; lia); lia.
Qed.

(** X1: for n >= 2 sides, [soda_can] leaves what the two arrays held and
    appends 4n vertices and 6n + 15 + 4*ceil(n/2) indices, each of them an
    index of one of the new vertices, so that a can may be added to arrays
    that already hold a mesh. *)
Theorem soda_can_appends_closed_mesh (c : vec) (r1 r2 : R) (n : nat) (h : R)
    (verts : list vec) (inds : list Z) :
  (2 <= n)%nat ->
  exists new_verts new_inds,
    soda_can c r1 r2 n h verts inds = (verts ++ new_verts, inds ++ new_inds) /\
    length new_verts = (4 * n)%nat /\
    length new_inds = (6 * n + 15 + 4 * ((n + 1) / 2))%nat /\
    Forall (fun idx => (Z.of_nat (length verts) <= idx
                        < Z.of_nat (length verts) + Z.of_nat (length new_verts))%Z)
           new_inds.
Proof.
  intros Hn. rewrite soda_can_appends. eexists _, _. split; [reflexivity|].
  assert (Hlen : forall A (a b c d : list A),
            length a = n -> length b = n -> length c = n -> length d = n ->
            length (a ++ b ++ c ++ d) = (4 * n)%nat).
  { intros A a b c0 d Ha Hb Hc Hd. rewrite !length_app. lia. }
  split; [|split].
  - apply Hlen; by rewrite length_map, length_seq.
  - rewrite !length_app, cylinder_strip_length, !cone_strip_length,
      !fill_strip_length, half_up_div. lia.
  - rewrite Hlen by (by rewrite length_map, length_seq).
    replace (Z.of_nat (4 * n)) with (4 * Z.of_nat n)%Z by lia.
    by apply can_strips_in_range.
Qed.

Lemma soda_can_appends_closed_mesh_witness :
  exists new_verts new_inds,
    soda_can (vec4 0 0 0 0) 2 1 4 1 [[0; 0; 0; 1]%R] [0%Z]
      = ([[0; 0; 0; 1]%R] ++ new_verts, [0%Z] ++ new_inds) /\
    length new_verts = 16%nat /\ length new_inds = 47%nat.
Proof.
  destruct (soda_can_appends_closed_mesh (vec4 0 0 0 0) 2 1 4 1 [[0; 0; 0; 1]%R] [0%Z])
    as (nv & ni & Heq & Hv & Hi & _).
  - lia.
  - exists nv, ni. split; [exact Heq|]. split; [exact Hv | exact Hi].
Defined.

(** X2: from empty arrays, the index sequence of [soda_can] holds only
    indices of its vertices exactly when the can has at least two sides:
    with no side the strip still names a vertex 0, and with one side the
    bottom cap names a vertex past the last. *)
Theorem soda_can_valid_iff_two_sides (c : vec) (r1 r2 : R) (n : nat) (h : R) :
  Forall (fun idx => (0 <= idx < Z.of_nat (length (soda_can c r1 r2 n h [] []).1))%Z)
         (soda_can c r1 r2 n h [] []).2
  <-> (2 <= n)%nat.
Proof.
  rewrite soda_can_appends. cbn [fst snd app length].
  rewrite !length_app, !length_map, !length_seq.
  split.
  - intros Hall. destruct n as [|[|n]]; [| |lia].
    + apply Forall_inv in Hall. simpl in Hall. lia.
    + rewrite Forall_forall in Hall. specialize (Hall 4%Z).
      assert (Hin : (4 < 4)%Z); [|lia].
      apply Hall. vm_compute. apply list_elem_of_In. simpl. tauto.
  - intros Hn. pose proof (can_strips_in_range n 0 Hn) as Hr.
    eapply Forall_impl; [exact Hr|]. intros idx Hidx. simpl in Hidx. lia.
Qed.

Lemma half_up_even (k : nat) : half_up (2 * k) = k.
Proof.
  unfold half_up. replace (2 * k + 1)%nat with (S (2 * k)) by lia.
  apply Nat.div2_succ_double.
Qed.

Lemma half_up_odd (k : nat) : half_up (2 * k + 1) = S k.
Proof.
  unfold half_up. replace (2 * k + 1 + 1)%nat with (2 * S k)%nat by lia.
  apply Nat.div2_double.
Qed.

(** Where a part that ends with an index twice meets a part that starts
    with an index twice, the two strip triples across the seam repeat an
    index. *)
Lemma seam_lookup (pre A' B' post : list Z) (x y z : Z) (d : nat) :
  (pre ++ (A' ++ [x; y]) ++ (z :: z :: B') ++ post) !! (length pre + length A' + d)%nat
  = ([x; y; z; z] ++ B' ++ post) !! d.
Proof.
  replace (pre ++ (A' ++ [x; y]) ++ (z :: z :: B') ++ post)
    with ((pre ++ A') ++ [x; y; z; z] ++ B' ++ post)
    by (by rewrite <- !app_assoc).
  rewrite lookup_app_r by (rewrite length_app; lia).
  f_equal. rewrite length_app. lia.
Qed.

Lemma seam_degenerate (pre A' B' post : list Z) (x z : Z) :
  let inds := pre ++ (A' ++ [x; x]) ++ (z :: z :: B') ++ post in
  degenerate_at inds (length pre + length A') /\
  degenerate_at inds (length pre + length A' + 1).
Proof.
  intros inds.
  assert (Hat : forall d, inds !! (length pre + length A' + d)%nat
                          = ([x; x; z; z] ++ B' ++ post) !! d).
  { intros d. unfold inds.
    replace (pre ++ (A' ++ [x; x]) ++ (z :: z :: B') ++ post)
      with ((pre ++ A') ++ [x; x; z; z] ++ B' ++ post)
      by (by rewrite <- !app_assoc).
    rewrite lookup_app_r by (rewrite length_app; lia).
    f_equal. rewrite length_app. lia. }
  split; intros j k l Hj Hk Hl.
  - pose proof (Hat 0%nat) as H0. rewrite Nat.add_0_r, Hj in H0.
    pose proof (Hat 1%nat) as H1. rewrite Hk in H1.
    simpl in H0, H1. left. congruence.
  - pose proof (Hat 2%nat) as H2. pose proof (Hat 3%nat) as H3.
    replace (length pre + length A' + 2)%nat
      with (length pre + length A' + 1 + 1)%nat in H2 by lia.
    replace (length pre + length A' + 3)%nat
      with (length pre + length A' + 1 + 2)%nat in H3 by lia.
    rewrite Hk in H2. rewrite Hl in H3. simpl in H2, H3. right; left. congruence.
Qed.

Lemma cylinder_strip_end (n : nat) (off : Z) :
  exists A', cylinder_strip n off = A' ++ [off + Z.of_nat n; off + Z.of_nat n]%Z
             /\ length A' = (2 * n + 1)%nat.
Proof.
  eexists (_ ++ [off]). unfold cylinder_strip. split.
  - by rewrite <- app_assoc.
  - rewrite length_app, (flat_map_length_const _ _ 2) by done.
    rewrite length_seq. simpl. lia.
Qed.

Lemma cone_strip_start (m1 m2 : Z) (n : nat) (off : Z) :
  (1 <= n)%nat ->
  exists B', cone_strip m1 m2 n off
             = (m1 * Z.of_nat n + off)%Z :: (m1 * Z.of_nat n + off)%Z :: B'.
Proof.
  intros Hn. destruct n as [|n]; [lia|]. unfold cone_strip.
  cbn [seq flat_map app]. eexists. reflexivity.
Qed.

Lemma cone_strip_end (m1 m2 : Z) (n : nat) (off : Z) :
  exists A', cone_strip m1 m2 n off
             = A' ++ [m2 * Z.of_nat n + off; m2 * Z.of_nat n + off]%Z
             /\ length A' = (2 * n + 2)%nat.
Proof.
  eexists (_ :: _ ++ [_]). unfold cone_strip. split.
  - cbn [app]. f_equal. by rewrite <- app_assoc.
  - cbn [length]. rewrite length_app, (flat_map_length_const _ _ 2) by done.
    rewrite length_seq. simpl. lia.
Qed.

Lemma fill_strip_end_even (k : nat) (off : Z) :
  (1 <= k)%nat ->
  exists A', fill_strip (2 * k) off false
             = A' ++ [Z.of_nat k + off; Z.of_nat k + off]%Z
             /\ length A' = (2 * k)%nat.
Proof.
  intros Hk. unfold fill_strip. rewrite half_up_even.
  destruct k as [|k]; [lia|]. rewrite seq_S, flat_map_app. cbn [flat_map app Nat.add].
  eexists (_ :: _ :: _). split.
  - cbn [app]. do 2 f_equal. f_equal. f_equal; [f_equal; lia|]. f_equal. lia.
  - cbn [length]. rewrite (flat_map_length_const _ _ 2) by done.
    rewrite length_seq. lia.
Qed.

(** X3: on a can with an even number of sides, the strip triples across
    the four seams between its five parts (body, top cone, bottom cone,
    top cap, bottom cap) all repeat an index: no triangle joins two
    parts. *)
Theorem can_parts_are_separated (c : vec) (r1 r2 : R) (k : nat) (h : R) :
  (1 <= k)%nat ->
  let n := (2 * k)%nat in
  let inds := (soda_can c r1 r2 n h [] []).2 in
  Forall (degenerate_at inds)
    [2 * n + 1; 2 * n + 2; 4 * n + 5; 4 * n + 6;
     6 * n + 9; 6 * n + 10; 7 * n + 11; 7 * n + 12]%nat.
Proof.
  intros Hk n inds. unfold inds. rewrite soda_can_appends. cbn [snd app length].
  set (off := Z.of_nat 0).
  destruct (cylinder_strip_end n (off + Z.of_nat n)) as (A1 & E1 & L1).
  destruct (cone_strip_start 0 1 n off) as (B2 & S2); [lia|].
  destruct (cone_strip_end 0 1 n off) as (A2 & E2 & L2).
  destruct (cone_strip_start 2 3 n off) as (B3 & S3); [lia|].
  destruct (cone_strip_end 2 3 n off) as (A3 & E3 & L3).
  destruct (fill_strip_end_even k off Hk) as (A4 & E4 & L4). fold n in E4.
  set (cyl := cylinder_strip n (off + Z.of_nat n)) in *.
  set (c1 := cone_strip 0 1 n off) in *. set (c2 := cone_strip 2 3 n off) in *.
  set (f1 := fill_strip n off false) in *.
  set (f2 := fill_strip n (off + 3 * Z.of_nat n) true).
  assert (Hc1 : length c1 = (2 * n + 4)%nat) by apply cone_strip_length.
  assert (Hc2 : length c2 = (2 * n + 4)%nat) by apply cone_strip_length.
  assert (Hcy : length cyl = (2 * n + 3)%nat) by apply cylinder_strip_length.
  (* body and top cone *)
  pose proof (seam_degenerate [] A1 B2 (c2 ++ f1 ++ f2)
                (off + Z.of_nat n + Z.of_nat n) (0 * Z.of_nat n + off)) as [H1 H2].
  cbv zeta in H1, H2. rewrite <- E1, <- S2 in H1, H2. cbn [app length] in H1, H2.
  (* top cone and bottom cone *)
  pose proof (seam_degenerate cyl A2 B3 (f1 ++ f2)
                (1 * Z.of_nat n + off) (2 * Z.of_nat n + off)) as [H3 H4].
  cbv zeta in H3, H4. rewrite <- E2, <- S3 in H3, H4.
  (* bottom cone and top cap *)
  pose proof (seam_degenerate (cyl ++ c1) A3 (drop 2 f1) f2
                (3 * Z.of_nat n + off) off) as [H5 H6].
  cbv zeta in H5, H6. rewrite <- E3 in H5, H6.
  change (off :: off :: drop 2 f1) with f1 in H5, H6.
  rewrite <- !app_assoc in H5, H6.
  (* top cap and bottom cap *)
  pose proof (seam_degenerate (cyl ++ c1 ++ c2) A4
                (drop 2 f2) [] (Z.of_nat k + off) (off + 3 * Z.of_nat n)) as [H7 H8].
  cbv zeta in H7, H8. rewrite <- E4 in H7, H8.
  change ((off + 3 * Z.of_nat n)%Z :: (off + 3 * Z.of_nat n)%Z :: drop 2 f2)
    with f2 in H7, H8.
  rewrite app_nil_r, <- !app_assoc in H7, H8.
  rewrite !length_app in *.
  repeat (apply Forall_cons; split); [..|apply Forall_nil].
  - replace (2 * n + 1)%nat with (0 + length A1)%nat by lia. exact H1.
  - replace (2 * n + 2)%nat with (0 + length A1 + 1)%nat by lia. exact H2.
  - replace (4 * n + 5)%nat with (length cyl + length A2)%nat by lia. exact H3.
  - replace (4 * n + 6)%nat with (length cyl + length A2 + 1)%nat by lia. exact H4.
  - replace (6 * n + 9)%nat with (length cyl + length c1 + length A3)%nat by lia.
    exact H5.
  - replace (6 * n + 10)%nat with (length cyl + length c1 + length A3 + 1)%nat by lia.
    exact H6.
  - replace (7 * n + 11)%nat
      with (length cyl + (length c1 + length c2) + length A4)%nat by lia.
    exact H7.
  - replace (7 * n + 12)%nat
      with (length cyl + (length c1 + length c2) + length A4 + 1)%nat by lia.
    exact H8.
  - exact I.
Qed.

Lemma can_parts_are_separated_witness :
  let inds := (soda_can (vec4 0 0 0 0) 2 1 4 1 [] []).2 in
  Forall (degenerate_at inds) [9; 10; 21; 22; 33; 34; 39; 40]%nat /\
  inds !! 39%nat = Some 2%Z /\ inds !! 40%nat = Some 2%Z /\ inds !! 41%nat = Some 12%Z.
Proof.
  intros inds. split.
  - apply (can_parts_are_separated (vec4 0 0 0 0) 2 1 2 1). lia.
  - unfold inds. rewrite soda_can_inds_four_sides. repeat split; reflexivity.
Defined.

Lemma fill_strip_end_odd (k : nat) (off : Z) :
  exists A', fill_strip (2 * k + 1) off false
             = A' ++ [Z.of_nat k + 1 + off; Z.of_nat k + off]%Z
             /\ length A' = (2 * k + 2)%nat.
Proof.
  unfold fill_strip. rewrite half_up_odd.
  rewrite seq_S, flat_map_app. cbn [flat_map app Nat.add].
  eexists (_ :: _ :: _). split.
  - cbn [app]. do 2 f_equal. f_equal. f_equal. f_equal. lia.
  - cbn [length]. rewrite (flat_map_length_const _ _ 2) by done.
    rewrite length_seq. lia.
Qed.

(** X4: on a can with an odd number of sides n = 2k+1 >= 3, the top cap
    ends on the two different vertices k+1 and k, so that the strip triple
    across the seam to the bottom cap, (k+1, k, 3n), repeats no index: a
    stray triangle joins the two caps. The source asks for an even n. *)
Theorem odd_can_joins_its_caps (c : vec) (r1 r2 : R) (k : nat) (h : R) :
  (1 <= k)%nat ->
  let n := (2 * k + 1)%nat in
  let inds := (soda_can c r1 r2 n h [] []).2 in
  inds !! (7 * n + 12)%nat = Some (Z.of_nat k + 1)%Z /\
  inds !! (7 * n + 13)%nat = Some (Z.of_nat k) /\
  inds !! (7 * n + 14)%nat = Some (3 * Z.of_nat n)%Z /\
  ~ degenerate_at inds (7 * n + 12).
Proof.
  intros Hk n inds.
  assert (Hat : forall d, inds !! (7 * n + 12 + d)%nat
            = ([Z.of_nat k + 1; Z.of_nat k; 3 * Z.of_nat n; 3 * Z.of_nat n]%Z
                 ++ drop 2 (fill_strip n (3 * Z.of_nat n) true)) !! d).
  { intros d. unfold inds. rewrite soda_can_appends. cbn [snd app length].
    set (off := Z.of_nat 0).
    destruct (fill_strip_end_odd k off) as (A4 & E4 & L4). fold n in E4.
    rewrite E4.
    set (cyl := cylinder_strip n (off + Z.of_nat n)).
    set (c1 := cone_strip 0 1 n off). set (c2 := cone_strip 2 3 n off).
    assert (Hc1 : length c1 = (2 * n + 4)%nat) by apply cone_strip_length.
    assert (Hc2 : length c2 = (2 * n + 4)%nat) by apply cone_strip_length.
    assert (Hcy : length cyl = (2 * n + 3)%nat) by apply cylinder_strip_length.
    pose proof (seam_lookup (cyl ++ c1 ++ c2) A4
                  (drop 2 (fill_strip n (off + 3 * Z.of_nat n) true)) []
                  (Z.of_nat k + 1 + off) (Z.of_nat k + off)
                  (off + 3 * Z.of_nat n) d) as Hs.
    change ((off + 3 * Z.of_nat n)%Z :: (off + 3 * Z.of_nat n)%Z
              :: drop 2 (fill_strip n (off + 3 * Z.of_nat n) true))
      with (fill_strip n (off + 3 * Z.of_nat n) true) in Hs.
    rewrite app_nil_r, <- !app_assoc in Hs.
    rewrite !length_app in Hs.
    replace (7 * n + 12 + d)%nat
      with (length cyl + (length c1 + length c2) + length A4 + d)%nat by lia.
    rewrite <- !app_assoc. rewrite Hs, app_nil_r.
    unfold off. cbn [Z.of_nat]. rewrite !Z.add_0_r, !Z.add_0_l. reflexivity. }
  assert (H0 : inds !! (7 * n + 12)%nat = Some (Z.of_nat k + 1)%Z)
    by (rewrite <- (Nat.add_0_r (7 * n + 12)), Hat; reflexivity).
  assert (H1 : inds !! (7 * n + 13)%nat = Some (Z.of_nat k))
    by (replace (7 * n + 13)%nat with (7 * n + 12 + 1)%nat by lia;
        rewrite Hat; reflexivity).
  assert (H2 : inds !! (7 * n + 14)%nat = Some (3 * Z.of_nat n)%Z)
    by (replace (7 * n + 14)%nat with (7 * n + 12 + 2)%nat by lia;
        rewrite Hat; reflexivity).
  split; [exact H0|]. split; [exact H1|]. split; [exact H2|].
  intros Hdeg.
  replace (7 * n + 13)%nat with (7 * n + 12 + 1)%nat in H1 by lia.
  replace (7 * n + 14)%nat with (7 * n + 12 + 2)%nat in H2 by lia.
  specialize (Hdeg _ _ _ H0 H1 H2). lia.
Qed.

Lemma odd_can_joins_its_caps_witness :
  let inds := (soda_can (vec4 0 0 0 0) 2 1 3 1 [] []).2 in
  inds !! 33%nat = Some 2%Z /\ inds !! 34%nat = Some 1%Z /\ inds !! 35%nat = Some 9%Z.
Proof.
  intros inds.
  destruct (odd_can_joins_its_caps (vec4 0 0 0 0) 2 1 1 1) as (H0 & H1 & H2 & _);
    [lia|].
  split; [exact H0|]. split; [exact H1 | exact H2].
Defined.

Lemma can_tex_coords_eq (r1 r2 : R) (n : nat) (h : R) :
  can_tex_coords r1 r2 n h
  = flat_map (fun i => map (fun j => vec2 (INR j / INR n)
                                          (nth i (can_tex_heights r1 r2 h) 0%R))
                           (seq 0 n))
             (seq 0 4).
Proof.
  unfold can_tex_coords. cbv zeta.
  rewrite (fold_left_ext _
             (fun acc i =>
                acc ++ map (fun j => vec2 (INR j / INR n)
                                          (nth i (can_tex_heights r1 r2 h) 0%R))
                           (seq 0 n))).
  - by rewrite fold_left_push.
  - intros acc i.
    rewrite (fold_left_push
               (fun j => [vec2 (INR j / INR n) (nth i (can_tex_heights r1 r2 h) 0%R)])).
    by rewrite flat_map_single.
Qed.

(** The share of the texture height that one cone takes lies in [0, 1/2). *)
Lemma cone_share_bounds (r1 r2 h : R) :
  (0 < h)%R ->
  let hyp := sqrt (8 * (r1 - r2) * (r1 - r2)) in
  (0 <= hyp / (2 * hyp + h) < 1 / 2)%R.
Proof.
  intros Hh hyp.
  assert (H0 : (0 <= hyp)%R) by apply sqrt_pos.
  assert (Hd : (0 < 2 * hyp + h)%R) by lra.
  split.
  - apply Rmult_le_pos; [done|]. left. by apply Rinv_0_lt_compat.
  - apply (Rmult_lt_reg_r (2 * hyp + h)); [done|].
    unfold Rdiv. rewrite Rmult_assoc, Rinv_l by lra. lra.
Qed.

(** X5: for a can of positive height, [init] builds one texture coordinate
    per vertex of the can, and the vertex [j] of ring [i] receives
    (j/n, heights[i]): the horizontal coordinate runs over [0, 1) around
    the ring, and the four rings receive the increasing vertical
    coordinates 0 <= cone < 1 - cone <= 1. *)
Theorem can_tex_coords_cover_the_can (c : vec) (r1 r2 : R) (n : nat) (h : R) :
  (0 < h)%R ->
  let tex := can_tex_coords r1 r2 n h in
  let heights := can_tex_heights r1 r2 h in
  length tex = length (soda_can c r1 r2 n h [] []).1 /\
  (forall i j, (i < 4)%nat -> (j < n)%nat ->
     tex !! (i * n + j)%nat = Some (vec2 (INR j / INR n) (nth i heights 0%R)) /\
     (soda_can c r1 r2 n h [] []).1 !! (i * n + j)%nat
       = Some (circle_point (ring_center c r1 r2 h i) (ring_radius r1 r2 i) n j) /\
     (0 <= INR j / INR n < 1)%R) /\
  (nth 0 heights 0 = 0 /\ nth 0 heights 0 <= nth 1 heights 0 /\
   nth 1 heights 0 < nth 2 heights 0 /\ nth 2 heights 0 <= nth 3 heights 0 /\
   nth 3 heights 0 = 1)%R.
Proof.
  intros Hh tex heights.
  assert (Hblock : forall (A : Type) (f : nat -> nat -> A) i j, (i < 4)%nat -> (j < n)%nat ->
            flat_map (fun i => map (f i) (seq 0 n)) (seq 0 4) !! (i * n + j)%nat
            = Some (f i j)).
  { intros A f i j Hi Hj. cbn [seq flat_map]. rewrite app_nil_r.
    assert (Hrow : forall i', map (f i') (seq 0 n) !! j = Some (f i' j)).
    { intros i'. rewrite list_lookup_fmap, lookup_seq_lt by done. reflexivity. }
    assert (Hlen : forall i', length (map (f i') (seq 0 n)) = n)
      by (intros i'; by rewrite length_map, length_seq).
    destruct i as [|[|[|[|i]]]]; [| | | |lia].
    - rewrite lookup_app_l by (rewrite Hlen; lia). apply Hrow.
    - rewrite lookup_app_r by (rewrite Hlen; lia).
      rewrite lookup_app_l by (rewrite !Hlen; lia).
      rewrite Hlen. replace (1 * n + j - n)%nat with j by lia. apply Hrow.
    - rewrite lookup_app_r by (rewrite Hlen; lia).
      rewrite lookup_app_r by (rewrite !Hlen; lia).
      rewrite lookup_app_l by (rewrite !Hlen; lia).
      rewrite !Hlen. replace (2 * n + j - n - n)%nat with j by lia. apply Hrow.
    - rewrite lookup_app_r by (rewrite Hlen; lia).
      rewrite lookup_app_r by (rewrite !Hlen; lia).
      rewrite lookup_app_r by (rewrite !Hlen; lia).
      rewrite !Hlen. replace (3 * n + j - n - n - n)%nat with j by lia. apply Hrow. }
  split; [|split].
  - unfold tex. rewrite can_tex_coords_eq, soda_can_appends. cbn [fst app].
    rewrite (flat_map_length_const _ _ n)
      by (intros; by rewrite length_map, length_seq).
    rewrite !length_app, !length_map, !length_seq. lia.
  - intros i j Hi Hj. split; [|split].
    + unfold tex. rewrite can_tex_coords_eq.
      apply (Hblock _ (fun i j => vec2 (INR j / INR n) (nth i heights 0%R))); done.
    + rewrite soda_can_appends. cbn [fst app].
      pose proof (Hblock _ (fun i j => circle_point (ring_center c r1 r2 h i)
                                         (ring_radius r1 r2 i) n j) i j Hi Hj) as Hb.
      cbn [seq flat_map] in Hb. rewrite app_nil_r in Hb. exact Hb.
    + assert (Hn : (0 < INR n)%R) by (apply lt_0_INR; lia).
      assert (Hjn : (INR j < INR n)%R) by (by apply lt_INR).
      assert (H0j : (0 <= INR j)%R) by apply pos_INR.
      split.
      * apply Rmult_le_pos; [done|]. left. by apply Rinv_0_lt_compat.
      * apply (Rmult_lt_reg_r (INR n)); [done|].
        unfold Rdiv. rewrite Rmult_assoc, Rinv_l by lra. lra.
  - pose proof (cone_share_bounds r1 r2 h Hh) as Hc. cbv zeta in Hc.
    unfold heights, can_tex_heights. cbn [nth]. lra.
Qed.

Lemma can_tex_coords_cover_the_can_witness :
  length (can_tex_coords 2 1 4 1) = length (soda_can (vec4 0 0 0 0) 2 1 4 1 [] []).1 /\
  can_tex_coords 2 1 4 1 !! 6%nat
    = Some (vec2 (INR 2 / INR 4) (nth 1 (can_tex_heights 2 1 1) 0%R)).
Proof.
  destruct (can_tex_coords_cover_the_can (vec4 0 0 0 0) 2 1 4 1) as (Hlen & Hat & _);
    [lra|].
  split; [exact Hlen|].
  destruct (Hat 1%nat 2%nat) as (Htex & _); [lia | lia | exact Htex].
Defined.

End CanFacts.

(** ** The normal calculator: when it returns, and the skip list *)

Section NormalsMore.
Import Mesh Normals.
Variable normalize : vec -> vec.

Lemma ensure_vec4_Some (v : vec) (last : R) (v' : vec) :
  ensure_vec4 v last = Some v' ->
  exists x y z, v' = [x; y; z; last] /\ take 3 v = [x; y; z] /\
                (length v = 3%nat \/ v = v').
Proof.
  unfold ensure_vec4. intros H.
  destruct (decide (length v = 3%nat)) as [H3|H3].
  - destruct v as [|x [|y [|z [|? ?]]]]; try done.
    injection H as <-. exists x, y, z. auto.
  - destruct (decide (length v ≠ 4%nat ∨ elt v 3 ≠ last)) as [Hbad|Hok]; [done|].
    injection H as <-.
    destruct v as [|x [|y [|z [|w [|? ?]]]]]; try (exfalso; apply Hok; left; done).
    exists x, y, z. destruct (decide (w = last)) as [->|Hw]; [auto|].
    exfalso. apply Hok. right. exact Hw.
Qed.

Lemma ensure_vec4_is_position (v : vec) : is_Some (ensure_vec4 v 1) <-> position v.
Proof.
  split; [|apply ensure_vec4_position].
  intros [v' H]. unfold ensure_vec4 in H. unfold position.
  destruct (decide (length v = 3%nat)); [by left|].
  destruct (decide (length v ≠ 4%nat ∨ elt v 3 ≠ 1%R)) as [|Hok]; [done|].
  right. split.
  - destruct (decide (length v = 4%nat)); [done|]. exfalso. apply Hok. by left.
  - destruct (decide (elt v 3 = 1%R)); [done|]. exfalso. apply Hok. by right.
Qed.

Lemma add_face_is_Some (verts : list vec) (flip : bool) (j k l : Z) (ns : list vec) :
  is_Some (add_face verts flip j k l ns)
  <-> usable verts j /\ usable verts k /\ usable verts l.
Proof.
  assert (Hget : forall x, usable verts x
            <-> exists v a, lookupZ verts x = Some v /\ ensure_vec4 v 1 = Some a).
  { intros x. split.
    - intros (v & Hv & Hp). apply ensure_vec4_position in Hp as [a Ha]. by exists v, a.
    - intros (v & a & Hv & Ha). exists v. split; [done|].
      apply ensure_vec4_is_position. by eexists. }
  unfold add_face. split.
  - intros [ns' H].
    destruct (lookupZ verts j) as [vj|] eqn:Hj; cbn [mbind option_bind] in H; [|done].
    destruct (ensure_vec4 vj 1) as [a|] eqn:Ha; cbn [mbind option_bind] in H; [|done].
    destruct (lookupZ verts k) as [vk|] eqn:Hk; cbn [mbind option_bind] in H; [|done].
    destruct (ensure_vec4 vk 1) as [b|] eqn:Hb; cbn [mbind option_bind] in H; [|done].
    destruct (lookupZ verts l) as [vl|] eqn:Hl; cbn [mbind option_bind] in H; [|done].
    destruct (ensure_vec4 vl 1) as [c|] eqn:Hc; cbn [mbind option_bind] in H; [|done].
    rewrite !Hget. split; [|split]; eexists _, _; split; done.
  - rewrite !Hget. intros ((vj & a & -> & Ha) & (vk & b & -> & Hb) & (vl & c & -> & Hc)).
    cbn [mbind option_bind]. rewrite Ha. cbn [mbind option_bind]. rewrite Hb.
    cbn [mbind option_bind]. rewrite Hc. cbn [mbind option_bind]. by eexists.
Qed.

(** The face loop has thrown exactly when one of the triangles it has
    reached so far, neither skipped nor degenerate, is not usable. *)
Lemma face_loop_throws (verts : list vec) (inds : list Z) (strip : bool)
    (skip : list Z) :
  let faces := contributing_faces inds strip skip in
  match face_loop verts inds strip skip with
  | Some st => length (normals st) = length verts /\
               forall i, i ∈ faces -> face_usable verts inds i
  | None => exists i, i ∈ faces /\ ~ face_usable verts inds i
  end.
Proof.
  intros faces. unfold faces, contributing_faces, face_loop. clear faces.
  set (Rs := fun (o : option loop_state) (c : nat * list nat) =>
               match o with
               | Some st => (length (normals st) = length verts /\
                             forall i, i ∈ c.2 -> face_usable verts inds i) /\
                            skipInd st = c.1
               | None => exists i, i ∈ c.2 /\ ~ face_usable verts inds i
               end).
  assert (Hkeep : forall c x i, i ∈ c.2 -> i ∈ (contributing_step inds skip c x).2).
  { intros c x i Hi. unfold contributing_step.
    repeat case_match; try done. cbn [snd]. apply elem_of_app. by left. }
  assert (H : Rs (foldl (fun st i => st ≫= fun st => face_step verts inds strip skip st i)
                    (Some (LoopState 0 (replicate (length verts) (vec4 0 0 0 0))))
                    (face_starts (if strip then 1 else 3) (length inds)))
                 (foldl (contributing_step inds skip) (0%nat, [])
                    (face_starts (if strip then 1 else 3) (length inds)))).
  { apply foldl_rel.
    - unfold Rs. cbn [normals skipInd fst snd]. split; [|done].
      split; [apply length_replicate|]. intros i Hi. by apply elem_of_nil in Hi.
    - intros o c x Hx HR. apply face_starts_bound in Hx.
      destruct o as [st|]; cbn [mbind option_bind].
      + destruct HR as ((Hlen & Hall) & Hc).
        unfold face_step, contributing_step. rewrite Hc.
        destruct (decide (skip !! c.1 = Some (Z.of_nat x))).
        { unfold Rs. cbn [normals skipInd fst snd]. split; [by split|lia]. }
        destruct (lookup_lt_is_Some_2 inds x) as [j Hj]; [lia|].
        destruct (lookup_lt_is_Some_2 inds (x + 1)) as [k Hk]; [lia|].
        destruct (lookup_lt_is_Some_2 inds (x + 2)) as [l Hl]; [lia|].
        rewrite Hj, Hk, Hl. cbn [mbind option_bind].
        destruct (decide (j = k ∨ k = l ∨ l = j)); [by split|].
        assert (Hface : face_usable verts inds x
                        <-> usable verts j /\ usable verts k /\ usable verts l).
        { unfold face_usable. split.
          - intros H. split; [|split].
            + apply (H 0%nat); [lia|]. by rewrite Nat.add_0_r.
            + by apply (H 1%nat); [lia|].
            + by apply (H 2%nat); [lia|].
          - intros (Uj & Uk & Ul) d j' Hd Hj'.
            destruct d as [|[|[|d]]]; [| | |lia].
            + rewrite Nat.add_0_r in Hj'. congruence.
            + congruence.
            + congruence. }
        set (flip := strip && negb (x `mod` 2 =? 0)%nat).
        destruct (add_face verts flip j k l (normals st)) as [ns'|] eqn:Hadd;
          cbn [mbind option_bind]; unfold Rs; cbn [normals skipInd fst snd].
        * split; [|done]. split.
          -- apply add_face_Some in Hadd as (fn & _ & _ & _ & _ & ->).
             unfold accumulate. by rewrite !length_alter.
          -- intros i Hi. apply elem_of_app in Hi as [Hi|Hi]; [by apply Hall|].
             apply list_elem_of_singleton in Hi as ->.
             apply Hface, (add_face_is_Some verts flip j k l (normals st)).
             rewrite Hadd. by eexists.
        * exists x. split; [apply elem_of_app; right; by apply list_elem_of_singleton|].
          intros Hu. apply Hface, (add_face_is_Some verts flip j k l (normals st)) in Hu.
          rewrite Hadd in Hu. by destruct Hu.
      + destruct HR as (i & Hi & Hbad). exists i. split; [by apply Hkeep|done]. }
  unfold Rs in H. destruct (foldl _ (Some _) _); [by destruct H|done].
Qed.

(** X6: for a can of at least two sides, the call
    [calc_normals(verts, inds, true)] of [init] on the arrays that
    [soda_can] has filled does not throw and returns one normal for each
    of the 4n vertices, as many as there are texture coordinates. *)
Theorem soda_can_normals_defined (c : vec) (r1 r2 : R) (n : nat) (h : R) :
  (2 <= n)%nat ->
  exists ns,
    calc_normals normalize (soda_can c r1 r2 n h [] []).1
                 (soda_can c r1 r2 n h [] []).2 (Some true) None = Some ns /\
    length ns = (4 * n)%nat /\
    length ns = length (can_tex_coords r1 r2 n h).
Proof.
  intros Hn.
  set (verts := (soda_can c r1 r2 n h [] []).1).
  set (inds := (soda_can c r1 r2 n h [] []).2).
  assert (Hlen : length verts = (4 * n)%nat).
  { unfold verts. rewrite soda_can_appends. cbn [fst app].
    rewrite !length_app, !length_map, !length_seq. lia. }
  assert (Hpos : Forall position verts).
  { unfold verts. rewrite soda_can_appends. cbn [fst app].
    repeat (apply Forall_app; split); apply Forall_forall; intros v Hv;
      apply list_elem_of_fmap in Hv as (j & -> & _); right; by split. }
  assert (Hrange : Forall (fun j => (0 <= j < Z.of_nat (length verts))%Z) inds).
  { rewrite Hlen. unfold inds. rewrite soda_can_appends. cbn [snd app].
    eapply Forall_impl; [apply (can_strips_in_range n (Z.of_nat 0) Hn)|].
    cbn beta. intros j Hj. cbn [length Z.of_nat] in *. lia. }
  pose proof (face_loop_total verts inds true (sort_num [] ++ [(-1)%Z]) Hpos Hrange)
    as [st Hst].
  pose proof (face_loop_throws verts inds true (sort_num [] ++ [(-1)%Z])) as Hout.
  cbv zeta in Hout. rewrite Hst in Hout. destruct Hout as [Hns _].
  exists (map normalize (normals st)). split; [|split].
  - calc_normals_unfold. cbn [sort_num foldr app] in Hst. rewrite Hst. reflexivity.
  - rewrite length_map. lia.
  - rewrite length_map, Hns, can_tex_coords_eq.
    rewrite (flat_map_length_const _ _ n)
      by (intros; by rewrite length_map, length_seq).
    rewrite length_seq. lia.
Qed.

(** X7: [calc_normals] returns exactly when every triangle that is
    neither skipped nor degenerate names three vertices that
    [ensure_vec4] accepts (a [vec3], or a [vec4] that ends in 1, at an
    index inside [verts]); otherwise it throws. When it returns, it
    returns one normal per vertex. *)
Theorem calc_normals_returns_iff_faces_usable (verts : list vec) (inds : list Z)
    (strip : option bool) (skip : option (list Z)) :
  let strip' := default true strip in
  let skip' := sort_num (default [] skip) ++ [(-1)%Z] in
  (is_Some (calc_normals normalize verts inds strip skip)
   <-> forall i, i ∈ contributing_faces inds strip' skip' -> face_usable verts inds i) /\
  (forall ns, calc_normals normalize verts inds strip skip = Some ns ->
              length ns = length verts).
Proof.
  intros strip' skip'.
  pose proof (face_loop_throws verts inds strip' skip') as Hout. cbv zeta in Hout.
  unfold calc_normals, calc_normals_body. fold strip' skip'.
  destruct (face_loop verts inds strip' skip') as [st|]; cbn [mbind option_bind].
  - destruct Hout as [Hlen Hall]. split.
    + split; [intros _; exact Hall | intros _; by eexists].
    + intros ns Hns. injection Hns as <-. by rewrite length_map.
  - destruct Hout as (i & Hi & Hbad). split.
    + split; [by intros [? ?] | intros Hall; exfalso; by apply Hbad, Hall].
    + intros ns Hns. discriminate Hns.
Qed.

Lemma insert_num_perm (x : Z) (l : list Z) : insert_num x l ≡ₚ x :: l.
Proof.
  induction l as [|y l IH]; cbn [insert_num]; [done|].
  destruct (x <=? y)%Z; [done|]. rewrite IH. apply Permutation_swap.
Qed.

Lemma sort_num_perm (l : list Z) : sort_num l ≡ₚ l.
Proof.
  induction l as [|x l IH]; cbn [sort_num foldr]; [done|].
  fold (sort_num l). by rewrite insert_num_perm, IH.
Qed.

Lemma insert_num_sorted (x : Z) (l : list Z) :
  Sorted Z.le l -> Sorted Z.le (insert_num x l).
Proof.
  induction l as [|y l IH]; cbn [insert_num]; intros Hs.
  - by repeat constructor.
  - destruct (x <=? y)%Z eqn:Hxy.
    + constructor; [done|]. constructor. lia.
    + apply Sorted_inv in Hs as [Hs Hhd]. constructor; [by apply IH|].
      destruct l as [|z l]; cbn [insert_num].
      * constructor. lia.
      * destruct (x <=? z)%Z; constructor; [lia|]. by apply HdRel_inv in Hhd.
Qed.

Lemma sort_num_sorted (l : list Z) : Sorted Z.le (sort_num l).
Proof.
  induction l as [|x l IH]; cbn [sort_num foldr]; [constructor|].
  by apply insert_num_sorted.
Qed.

(** X8: the order in which the caller lists the triangles to skip does
    not matter: two skip lists with the same entries, counted with their
    repetitions, give the same result. *)
Theorem calc_normals_skip_order_irrelevant (verts : list vec) (inds : list Z)
    (strip : option bool) (skip1 skip2 : list Z) :
  skip1 ≡ₚ skip2 ->
  calc_normals normalize verts inds strip (Some skip1)
  = calc_normals normalize verts inds strip (Some skip2).
Proof.
  intros Hperm. unfold calc_normals. cbn [default from_option].
  replace (sort_num (Datatypes.id skip2)) with (sort_num (Datatypes.id skip1));
    [reflexivity|].
  unfold Datatypes.id.
  apply (Sorted_unique Z.le); [apply sort_num_sorted..|].
  by rewrite !sort_num_perm.
Qed.

(** X9: the cursor into the sorted skip list only moves when the loop
    reaches the entry it points at. If the least entry [m] of the skip
    list is not a position the loop visits (it is negative, past the last
    triangle, or in list mode no multiple of 3), then no triangle at all
    is skipped: the call returns what it returns without a skip list. *)
Theorem skip_entry_off_the_faces_blocks_the_rest (verts : list vec) (inds : list Z)
    (strip : option bool) (skip : list Z) (m : Z) :
  m ∈ skip -> (forall x, x ∈ skip -> (m <= x)%Z) ->
  (forall i, i ∈ face_starts (if default true strip then 1 else 3) (length inds) ->
             Z.of_nat i <> m) ->
  calc_normals normalize verts inds strip (Some skip)
  = calc_normals normalize verts inds strip None.
Proof.
  intros Hin Hmin Hoff. unfold calc_normals, calc_normals_body.
  set (strip' := default true strip) in *.
  change (default [] (Some skip)) with skip.
  change (sort_num (default [] None) ++ [(-1)%Z]) with [(-1)%Z].
  assert (Hhead : exists rest, sort_num skip = m :: rest).
  { pose proof (sort_num_sorted skip) as Hs. pose proof (sort_num_perm skip) as Hp.
    destruct (sort_num skip) as [|x rest].
    - apply Permutation_nil_l in Hp. subst. by apply elem_of_nil in Hin.
    - exists rest. f_equal.
      assert (Hx : (m <= x)%Z) by (apply Hmin; rewrite <- Hp; left).
      apply Sorted_StronglySorted in Hs; [|intros ???; lia].
      apply StronglySorted_inv in Hs as [_ Hall].
      rewrite <- Hp in Hin. apply elem_of_cons in Hin as [->|Hin]; [done|].
      rewrite Forall_forall in Hall. specialize (Hall _ Hin). lia. }
  destruct Hhead as [rest ->].
  replace (face_loop verts inds strip' ((m :: rest) ++ [(-1)%Z]))
    with (face_loop verts inds strip' [(-1)%Z]); [reflexivity|].
  unfold face_loop.
  apply (foldl_rel _ _
           (fun o1 o2 => o1 = o2 /\ forall st, o1 = Some st -> skipInd st = 0%nat)).
  - split; [done|]. by intros st [= <-].
  - intros o1 o2 x Hx [<- Hcur]. destruct o1 as [st|]; cbn [mbind option_bind]; [|done].
    specialize (Hcur st eq_refl). unfold face_step. rewrite Hcur.
    cbn [lookup list_lookup app].
    rewrite decide_False by (intros [= H]; lia).
    rewrite decide_False by (intros [= H]; by apply (Hoff x Hx)).
    split; [done|].
    intros st' Hst'.
    destruct (inds !! x) as [j|]; cbn [mbind option_bind] in Hst'; [|done].
    destruct (inds !! (x + 1)%nat) as [k|]; cbn [mbind option_bind] in Hst'; [|done].
    destruct (inds !! (x + 2)%nat) as [l|]; cbn [mbind option_bind] in Hst'; [|done].
    destruct (decide (j = k ∨ k = l ∨ l = j)); [by injection Hst' as <-|].
    destruct (add_face _ _ _ _ _ _); cbn [mbind option_bind] in Hst'; [|done].
    by injection Hst' as <-.
Qed.

End NormalsMore.

Section NormalsSamples.
Import Mesh Normals.

Lemma soda_can_normals_defined_witness :
  exists ns,
    calc_normals unit_normalize (soda_can (vec4 0 0 0 0) 2 1 4 1 [] []).1
                 (soda_can (vec4 0 0 0 0) 2 1 4 1 [] []).2 (Some true) None = Some ns /\
    length ns = 16%nat.
Proof.
  destruct (soda_can_normals_defined unit_normalize (vec4 0 0 0 0) 2 1 4 1) as (ns & Heq & Hlen & _);
    [lia|].
  exists ns. split; [exact Heq | exact Hlen].
Defined.

Lemma calc_normals_skip_order_irrelevant_witness :
  calc_normals unit_normalize sample_verts two_sided_inds (Some false) (Some [3; 0]%Z)
  = calc_normals unit_normalize sample_verts two_sided_inds (Some false) (Some [0; 3]%Z).
Proof.
  apply calc_normals_skip_order_irrelevant. apply Permutation_swap.
Defined.

Lemma skip_entry_off_the_faces_blocks_the_rest_witness :
  calc_normals unit_normalize sample_verts two_sided_inds (Some false) (Some [3; 1]%Z)
  = calc_normals unit_normalize sample_verts two_sided_inds (Some false) None.
Proof.
  apply (skip_entry_off_the_faces_blocks_the_rest unit_normalize _ _ _ _ 1%Z).
  - apply list_elem_of_In. simpl. tauto.
  - intros x Hx. apply list_elem_of_In in Hx. simpl in Hx. lia.
  - intros i Hi. apply list_elem_of_In in Hi. vm_compute in Hi. lia.
Defined.

End NormalsSamples.

(** ** The intersection test and the height-field mesh *)

Section ToolsFacts.
Import Normals Tools.

(** The decomposition of a vector [w] in the plane spanned by [u] and
    [v]: with [n = u x v], [D w = (uv wv - vv wu) u + (uv wu - uu wv) v
    - (n . w) n] in each coordinate, where [D = uv^2 - uu vv]. *)
Lemma plane_decomposition (u1 u2 u3 v1 v2 v3 w1 w2 w3 : R) :
  let uu := (u1 * u1 + u2 * u2 + u3 * u3)%R in
  let vv := (v1 * v1 + v2 * v2 + v3 * v3)%R in
  let uv := (u1 * v1 + u2 * v2 + u3 * v3)%R in
  let wu := (w1 * u1 + w2 * u2 + w3 * u3)%R in
  let wv := (w1 * v1 + w2 * v2 + w3 * v3)%R in
  let n1 := (u2 * v3 - u3 * v2)%R in
  let n2 := (u3 * v1 - u1 * v3)%R in
  let n3 := (u1 * v2 - u2 * v1)%R in
  let D := (uv * uv - uu * vv)%R in
  (n1 * w1 + n2 * w2 + n3 * w3 = 0)%R -> D <> 0%R ->
  (w1 = (uv * wv - vv * wu) / D * u1 + (uv * wu - uu * wv) / D * v1 /\
   w2 = (uv * wv - vv * wu) / D * u2 + (uv * wu - uu * wv) / D * v2 /\
   w3 = (uv * wv - vv * wu) / D * u3 + (uv * wu - uu * wv) / D * v3)%R.
Proof.
  intros uu vv uv wu wv n1 n2 n3 D Hn HD.
  assert (H1 : (D * w1 = (uv * wv - vv * wu) * u1 + (uv * wu - uu * wv) * v1
                          - (n1 * w1 + n2 * w2 + n3 * w3) * n1)%R)
    by (unfold D, uu, vv, uv, wu, wv, n1, n2, n3; ring).
  assert (H2 : (D * w2 = (uv * wv - vv * wu) * u2 + (uv * wu - uu * wv) * v2
                          - (n1 * w1 + n2 * w2 + n3 * w3) * n2)%R)
    by (unfold D, uu, vv, uv, wu, wv, n1, n2, n3; ring).
  assert (H3 : (D * w3 = (uv * wv - vv * wu) * u3 + (uv * wu - uu * wv) * v3
                          - (n1 * w1 + n2 * w2 + n3 * w3) * n3)%R)
    by (unfold D, uu, vv, uv, wu, wv, n1, n2, n3; ring).
  rewrite Hn in H1, H2, H3.
  repeat split; apply (Rmult_eq_reg_l D); try done; field_simplify; try done; lra.
Qed.

(** A point that [line_seg_triangle_intersection] returns lies on the
    segment and in the triangle. *)
Lemma intersection_sound (p vec a b c q : list R) :
  line_seg_triangle_intersection p vec a b c = Some (Some q) ->
  exists p4 d4 a4 b4 c4 r s t,
    ensure_vec4 p 1 = Some p4 /\ ensure_vec4 vec 0 = Some d4 /\
    ensure_vec4 a 1 = Some a4 /\ ensure_vec4 b 1 = Some b4 /\
    ensure_vec4 c 1 = Some c4 /\
    (0 <= r <= 1)%R /\ q = add p4 (scale r d4) /\
    (0 <= s)%R /\ (0 <= t)%R /\ (s + t <= 1)%R /\ q = triangle_point a4 b4 c4 s t.
Proof.
  unfold line_seg_triangle_intersection. intros H.
  destruct (ensure_vec4 p 1) as [p4|] eqn:Hp; cbn [mbind option_bind] in H; [|done].
  destruct (ensure_vec4 a 1) as [a4|] eqn:Ha; cbn [mbind option_bind] in H; [|done].
  destruct (ensure_vec4 b 1) as [b4|] eqn:Hb; cbn [mbind option_bind] in H; [|done].
  destruct (ensure_vec4 c 1) as [c4|] eqn:Hc; cbn [mbind option_bind] in H; [|done].
  destruct (ensure_vec4 vec 0) as [d4|] eqn:Hd; cbn [mbind option_bind] in H; [|done].
  cbv zeta in H.
  set (u := subtract b4 a4) in *. set (v := subtract c4 a4) in *.
  set (D := (dot u v * dot u v - dot u u * dot v v)%R) in *.
  destruct (decide (D = 0%R)) as [|HD]; [done|].
  set (n := cross u v) in *.
  destruct (decide (dot n d4 = 0%R)) as [|Hden]; [done|].
  set (rI := (dot n (subtract a4 p4) / dot n d4)%R) in *.
  destruct (Rlt_dec rI 0) as [|Hr0]; [done|].
  destruct (Rgt_dec rI 1) as [|Hr1]; [done|].
  set (q' := add p4 (scale rI d4)) in *.
  set (w := subtract q' a4) in *.
  set (sI := ((dot u v * dot w v - dot v v * dot w u) / D)%R) in *.
  set (tI := ((dot u v * dot w u - dot u u * dot w v) / D)%R) in *.
  destruct (Rlt_dec sI 0) as [|Hs0]; [done|].
  destruct (Rlt_dec tI 0) as [|Ht0]; [done|].
  destruct (Rgt_dec (sI + tI) 1) as [|Hst]; [done|].
  injection H as <-.
  exists p4, d4, a4, b4, c4, rI, sI, tI.
  repeat (split; [first [done | lra]|]).
  apply ensure_vec4_Some in Hp as (p1 & p2 & p3 & -> & _).
  apply ensure_vec4_Some in Ha as (a1 & a2 & a3 & -> & _).
  apply ensure_vec4_Some in Hb as (b1 & b2 & b3 & -> & _).
  apply ensure_vec4_Some in Hc as (c1 & c2 & c3 & -> & _).
  apply ensure_vec4_Some in Hd as (d1 & d2 & d3 & -> & _).
  set (U1 := (b1 - a1)%R). set (U2 := (b2 - a2)%R). set (U3 := (b3 - a3)%R).
  set (V1 := (c1 - a1)%R). set (V2 := (c2 - a2)%R). set (V3 := (c3 - a3)%R).
  set (N1 := (U2 * V3 - U3 * V2)%R). set (N2 := (U3 * V1 - U1 * V3)%R).
  set (N3 := (U1 * V2 - U2 * V1)%R).
  assert (HrI : (rI * (N1 * d1 + N2 * d2 + N3 * d3)
                 = N1 * (a1 - p1) + N2 * (a2 - p2) + N3 * (a3 - p3))%R).
  { replace (N1 * d1 + N2 * d2 + N3 * d3)%R with (dot n [d1; d2; d3; 0%R])
      by (unfold n, u, v, cross, dot, subtract, elt, vec4, N1, N2, N3,
            U1, U2, U3, V1, V2, V3; cbn; ring).
    replace (N1 * (a1 - p1) + N2 * (a2 - p2) + N3 * (a3 - p3))%R
      with (dot n (subtract [a1; a2; a3; 1%R] [p1; p2; p3; 1%R]))
      by (unfold n, u, v, cross, dot, subtract, elt, vec4, N1, N2, N3,
            U1, U2, U3, V1, V2, V3; cbn; ring).
    unfold rI. field. exact Hden. }
  clearbody rI.
  set (W1 := (p1 + rI * d1 - a1)%R). set (W2 := (p2 + rI * d2 - a2)%R).
  set (W3 := (p3 + rI * d3 - a3)%R).
  assert (Hnw : (N1 * W1 + N2 * W2 + N3 * W3 = 0)%R).
  { replace (N1 * W1 + N2 * W2 + N3 * W3)%R
      with (rI * (N1 * d1 + N2 * d2 + N3 * d3)
            - (N1 * (a1 - p1) + N2 * (a2 - p2) + N3 * (a3 - p3)))%R
      by (unfold W1, W2, W3; ring).
    rewrite HrI. ring. }
  assert (ED : D = ((U1 * V1 + U2 * V2 + U3 * V3) * (U1 * V1 + U2 * V2 + U3 * V3)
                    - (U1 * U1 + U2 * U2 + U3 * U3) * (V1 * V1 + V2 * V2 + V3 * V3))%R)
    by (unfold D, u, v, dot, subtract, U1, U2, U3, V1, V2, V3; cbn; ring).
  pose proof (plane_decomposition U1 U2 U3 V1 V2 V3 W1 W2 W3) as Hdec.
  cbv zeta in Hdec. rewrite <- ED in Hdec.
  destruct (Hdec Hnw HD) as (E1 & E2 & E3).
  assert (Es : sI = (((U1 * V1 + U2 * V2 + U3 * V3) * (W1 * V1 + W2 * V2 + W3 * V3)
                      - (V1 * V1 + V2 * V2 + V3 * V3) * (W1 * U1 + W2 * U2 + W3 * U3))
                     / D)%R).
  { unfold sI. f_equal.
    unfold w, q', u, v, dot, subtract, add, scale, U1, U2, U3, V1, V2, V3, W1, W2, W3.
    cbn. ring. }
  assert (Et : tI = (((U1 * V1 + U2 * V2 + U3 * V3) * (W1 * U1 + W2 * U2 + W3 * U3)
                      - (U1 * U1 + U2 * U2 + U3 * U3) * (W1 * V1 + W2 * V2 + W3 * V3))
                     / D)%R).
  { unfold tI. f_equal.
    unfold w, q', u, v, dot, subtract, add, scale, U1, U2, U3, V1, V2, V3, W1, W2, W3.
    cbn. ring. }
  rewrite <- Es in E1, E2, E3. rewrite <- Et in E1, E2, E3.
  clearbody sI tI.
  unfold q', triangle_point, add, scale, subtract. cbn [map zip_with].
  fold U1 U2 U3 V1 V2 V3.
  f_equal; [unfold W1 in E1; lra|].
  f_equal; [unfold W2 in E2; lra|].
  f_equal; [unfold W3 in E3; lra|].
  f_equal. ring.
Qed.

(** A point of the segment that lies in the triangle is returned, when
    the triangle is not degenerate and the segment not parallel to it. *)
Lemma intersection_complete (p vec a b c p4 d4 a4 b4 c4 : list R) (r s t : R) :
  ensure_vec4 p 1 = Some p4 -> ensure_vec4 vec 0 = Some d4 ->
  ensure_vec4 a 1 = Some a4 -> ensure_vec4 b 1 = Some b4 ->
  ensure_vec4 c 1 = Some c4 ->
  let u := subtract b4 a4 in
  let v := subtract c4 a4 in
  (dot u v * dot u v - dot u u * dot v v)%R <> 0%R ->
  dot (cross u v) d4 <> 0%R ->
  (0 <= r <= 1)%R -> (0 <= s)%R -> (0 <= t)%R -> (s + t <= 1)%R ->
  add p4 (scale r d4) = triangle_point a4 b4 c4 s t ->
  line_seg_triangle_intersection p vec a b c = Some (Some (add p4 (scale r d4))).
Proof.
  intros Hp Hd Ha Hb Hc u v HD Hden Hr Hs Ht Hst Hq.
  unfold line_seg_triangle_intersection.
  rewrite Hp, Ha, Hb, Hc, Hd. cbn [mbind option_bind]. cbv zeta.
  fold u v.
  set (D := (dot u v * dot u v - dot u u * dot v v)%R) in *.
  rewrite decide_False by done. rewrite decide_False by done.
  apply ensure_vec4_Some in Hp as (p1 & p2 & p3 & -> & _).
  apply ensure_vec4_Some in Ha as (a1 & a2 & a3 & -> & _).
  apply ensure_vec4_Some in Hb as (b1 & b2 & b3 & -> & _).
  apply ensure_vec4_Some in Hc as (c1 & c2 & c3 & -> & _).
  apply ensure_vec4_Some in Hd as (d1 & d2 & d3 & -> & _).
  unfold triangle_point, add, scale, subtract in Hq. cbn [map zip_with] in Hq.
  injection Hq as E1 E2 E3 _.
  set (U1 := (b1 - a1)%R) in *. set (U2 := (b2 - a2)%R) in *.
  set (U3 := (b3 - a3)%R) in *.
  set (V1 := (c1 - a1)%R) in *. set (V2 := (c2 - a2)%R) in *.
  set (V3 := (c3 - a3)%R) in *.
  assert (W1 : (p1 + r * d1 - a1 = s * U1 + t * V1)%R) by lra.
  assert (W2 : (p2 + r * d2 - a2 = s * U2 + t * V2)%R) by lra.
  assert (W3 : (p3 + r * d3 - a3 = s * U3 + t * V3)%R) by lra.
  assert (A1 : (a1 - p1 = r * d1 - (s * U1 + t * V1))%R) by lra.
  assert (A2 : (a2 - p2 = r * d2 - (s * U2 + t * V2))%R) by lra.
  assert (A3 : (a3 - p3 = r * d3 - (s * U3 + t * V3))%R) by lra.
  set (den := dot (cross u v) [d1; d2; d3; 0%R]) in *.
  assert (ErI : (dot (cross u v) (subtract [a1; a2; a3; 1] [p1; p2; p3; 1]) / den = r)%R).
  { replace (dot (cross u v) (subtract [a1; a2; a3; 1%R] [p1; p2; p3; 1%R]))
      with (r * den)%R; [by field|].
    unfold den, u, v, cross, dot, subtract, elt, vec4. cbn.
    fold U1 U2 U3 V1 V2 V3. rewrite A1, A2, A3. ring. }
  rewrite ErI.
  destruct (Rlt_dec r 0) as [|_]; [lra|]. destruct (Rgt_dec r 1) as [|_]; [lra|].
  set (w := subtract (add [p1; p2; p3; 1%R] (scale r [d1; d2; d3; 0%R]))
                     [a1; a2; a3; 1%R]).
  assert (Ew : w = [s * U1 + t * V1; s * U2 + t * V2; s * U3 + t * V3; 1 + r * 0 - 1]%R).
  { unfold w, subtract, add, scale. cbn [map zip_with]. by rewrite W1, W2, W3. }
  clearbody w. subst w.
  assert (Es : ((dot u v * dot [s * U1 + t * V1; s * U2 + t * V2; s * U3 + t * V3;
                                1 + r * 0 - 1] v
                 - dot v v * dot [s * U1 + t * V1; s * U2 + t * V2; s * U3 + t * V3;
                                  1 + r * 0 - 1] u) / D = s)%R).
  { match goal with |- (?num / D = s)%R => replace num with (s * D)%R end; [by field|].
    unfold D, u, v, dot, subtract. cbn. fold U1 U2 U3 V1 V2 V3. ring. }
  assert (Et : ((dot u v * dot [s * U1 + t * V1; s * U2 + t * V2; s * U3 + t * V3;
                                1 + r * 0 - 1] u
                 - dot u u * dot [s * U1 + t * V1; s * U2 + t * V2; s * U3 + t * V3;
                                  1 + r * 0 - 1] v) / D = t)%R).
  { match goal with |- (?num / D = t)%R => replace num with (t * D)%R end; [by field|].
    unfold D, u, v, dot, subtract. cbn. fold U1 U2 U3 V1 V2 V3. ring. }
  rewrite Es, Et.
  destruct (Rlt_dec s 0) as [|_]; [lra|]. destruct (Rlt_dec t 0) as [|_]; [lra|].
  destruct (Rgt_dec (s + t) 1) as [|_]; [lra|]. reflexivity.
Qed.

(** X10: [line_seg_triangle_intersection] returns the point [q] exactly
    when the triangle is not degenerate, the segment is not parallel to
    its plane, and [q] lies both on the segment, at a parameter between 0
    and 1 from [p] along [vec], and in the triangle, as
    [a + s (b - a) + t (c - a)] with [s] and [t] not negative and of sum at
    most 1. The arguments may be [vec3]s or [vec4]s. *)
Theorem intersection_iff_on_segment_and_in_triangle
    (p vec a b c p4 d4 a4 b4 c4 q : list R) :
  ensure_vec4 p 1 = Some p4 -> ensure_vec4 vec 0 = Some d4 ->
  ensure_vec4 a 1 = Some a4 -> ensure_vec4 b 1 = Some b4 ->
  ensure_vec4 c 1 = Some c4 ->
  let u := subtract b4 a4 in
  let v := subtract c4 a4 in
  line_seg_triangle_intersection p vec a b c = Some (Some q)
  <-> ((dot u v * dot u v - dot u u * dot v v)%R <> 0%R /\
       dot (cross u v) d4 <> 0%R /\
       exists r s t,
         (0 <= r <= 1)%R /\ q = add p4 (scale r d4) /\
         (0 <= s)%R /\ (0 <= t)%R /\ (s + t <= 1)%R /\
         q = triangle_point a4 b4 c4 s t).
Proof.
  intros Hp Hd Ha Hb Hc u v. split.
  - intros H.
    destruct (intersection_sound p vec a b c q H)
      as (p4' & d4' & a4' & b4' & c4' & r & s & t & Hp' & Hd' & Ha' & Hb' & Hc' & Hrest).
    assert (p4' = p4) as -> by congruence. assert (d4' = d4) as -> by congruence.
    assert (a4' = a4) as -> by congruence. assert (b4' = b4) as -> by congruence.
    assert (c4' = c4) as -> by congruence.
    unfold line_seg_triangle_intersection in H.
    rewrite Hp, Ha, Hb, Hc, Hd in H. cbn [mbind option_bind] in H. cbv zeta in H.
    fold u v in H.
    destruct (decide ((dot u v * dot u v - dot u u * dot v v)%R = 0%R)); [done|].
    destruct (decide (dot (cross u v) d4 = 0%R)); [done|].
    split; [done|]. split; [done|]. by exists r, s, t.
  - intros (HD & Hden & r & s & t & Hr & -> & Hs & Ht & Hst & Hq).
    by apply (intersection_complete p vec a b c p4 d4 a4 b4 c4 r s t).
Qed.

Lemma intersection_iff_on_segment_and_in_triangle_witness :
  line_seg_triangle_intersection [1/4; 1/4; 1]%R [0; 0; -2]%R
    [0; 0; 0]%R [1; 0; 0]%R [0; 1; 0]%R = Some (Some [1/4; 1/4; 0; 1]%R).
Proof.
  apply (intersection_iff_on_segment_and_in_triangle
           [1/4; 1/4; 1]%R [0; 0; -2]%R [0; 0; 0]%R [1; 0; 0]%R [0; 1; 0]%R
           [1/4; 1/4; 1; 1]%R [0; 0; -2; 0]%R [0; 0; 0; 1]%R [1; 0; 0; 1]%R
           [0; 1; 0; 1]%R [1/4; 1/4; 0; 1]%R
           eq_refl eq_refl eq_refl eq_refl eq_refl).
  split; [|split].
  - unfold dot, subtract. cbn. lra.
  - unfold dot, cross, subtract, elt, vec4. cbn. lra.
  - exists (1/2)%R, (1/4)%R, (1/4)%R.
    unfold triangle_point, add, scale, subtract. cbn [map zip_with].
    repeat split; try lra; repeat f_equal; lra.
Defined.

(** X11: on arguments that [ensure_vec4] accepts, a triangle whose
    corners lie on one line ([b = a], or [c - a] a multiple of [b - a])
    is reported as degenerate: [line_seg_triangle_intersection] returns
    null, whatever the segment. *)
Theorem collinear_triangle_gives_null (p vec a b c p4 d4 a4 b4 c4 : list R) (k : R) :
  ensure_vec4 p 1 = Some p4 -> ensure_vec4 vec 0 = Some d4 ->
  ensure_vec4 a 1 = Some a4 -> ensure_vec4 b 1 = Some b4 ->
  ensure_vec4 c 1 = Some c4 ->
  b4 = a4 \/ subtract c4 a4 = scale k (subtract b4 a4) ->
  line_seg_triangle_intersection p vec a b c = Some None.
Proof.
  intros Hp Hd Ha Hb Hc Hline.
  unfold line_seg_triangle_intersection.
  rewrite Hp, Ha, Hb, Hc, Hd. cbn [mbind option_bind]. cbv zeta.
  apply ensure_vec4_Some in Ha as (a1 & a2 & a3 & -> & _).
  apply ensure_vec4_Some in Hb as (b1 & b2 & b3 & -> & _).
  apply ensure_vec4_Some in Hc as (c1 & c2 & c3 & -> & _).
  rewrite decide_True; [reflexivity|].
  destruct Hline as [Hba|Hca].
  - injection Hba as -> -> ->. unfold dot, subtract. cbn. ring.
  - unfold scale, subtract in Hca. cbn [map zip_with] in Hca.
    injection Hca as E1 E2 E3 _.
    unfold dot, subtract. cbn. rewrite E1, E2, E3. ring.
Qed.

Lemma collinear_triangle_gives_null_witness :
  line_seg_triangle_intersection [0; 0; 1]%R [0; 0; -2]%R
    [0; 0; 0]%R [1; 0; 0]%R [2; 0; 0]%R = Some None.
Proof.
  apply (collinear_triangle_gives_null
           [0; 0; 1]%R [0; 0; -2]%R [0; 0; 0]%R [1; 0; 0]%R [2; 0; 0]%R
           [0; 0; 1; 1]%R [0; 0; -2; 0]%R [0; 0; 0; 1]%R [1; 0; 0; 1]%R
           [2; 0; 0; 1]%R 2 eq_refl eq_refl eq_refl eq_refl eq_refl).
  right. unfold scale, subtract. cbn [map zip_with]. repeat f_equal; lra.
Defined.

Lemma lookup_flat_map_blocks {A : Type} (f : nat -> list A) (len n i k : nat) :
  (forall i, length (f i) = len) -> (i < n)%nat -> (k < len)%nat ->
  flat_map f (seq 0 n) !! (i * len + k)%nat = f i !! k.
Proof.
  intros Hlen Hi Hk. induction n as [|n IH]; [lia|].
  rewrite seq_S, flat_map_app. cbn [flat_map Nat.add]. rewrite app_nil_r.
  assert (Hpre : length (flat_map f (seq 0 n)) = (n * len)%nat)
    by (rewrite (flat_map_length_const _ _ len) by done; by rewrite length_seq).
  destruct (decide (i = n)) as [->|Hne].
  - rewrite lookup_app_r by lia. f_equal. lia.
  - rewrite lookup_app_l by nia. apply IH. lia.
Qed.

Lemma generate_mesh_eq (row0 : list R) (rest : list (list R)) (verts : list vec)
    (inds : list Z) :
  let data := row0 :: rest in
  let n := length data in
  let m := length row0 in
  let off := Z.of_nat (length verts) in
  generate_mesh data verts inds
  = Some (verts ++ flat_map (fun i => map (mesh_vertex data n m i) (seq 0 m)) (seq 0 n),
          inds ++ flat_map (mesh_row m off) (seq 0 (n - 1))).
Proof.
  intros data n m off. unfold generate_mesh. fold data n m off. cbv zeta.
  f_equal. f_equal.
  - rewrite (fold_left_ext _
               (fun acc i => acc ++ map (mesh_vertex data n m i) (seq 0 m))).
    + by rewrite fold_left_push.
    + intros acc i.
      rewrite (fold_left_push (fun j => [mesh_vertex data n m i j])).
      by rewrite flat_map_single.
  - rewrite (fold_left_ext _ (fun acc i => acc ++ mesh_row m off i)).
    + by rewrite fold_left_push.
    + intros acc i. unfold mesh_row.
      rewrite (fold_left_push
                 (fun j => [off + Z.of_nat i * Z.of_nat m + Z.of_nat j;
                            off + (Z.of_nat i + 1) * Z.of_nat m + Z.of_nat j]%Z)).
      by rewrite app_assoc.
Qed.

Lemma mesh_row_length (m : nat) (off : Z) (i : nat) :
  length (mesh_row m off i) = (2 * m + 2)%nat.
Proof.
  unfold mesh_row. rewrite length_app, (flat_map_length_const _ _ 2) by done.
  rewrite length_seq. cbn [length]. lia.
Qed.

(** X12: on data of n >= 1 rows whose first row has m >= 1 entries,
    [generate_mesh] leaves the arrays it is given in front and appends
    n*m vertices and (n-1)*(2m+2) indices, each of which names one of the
    new vertices. *)
Theorem generate_mesh_appends_closed_mesh (row0 : list R) (rest : list (list R))
    (verts : list vec) (inds : list Z) :
  (1 <= length row0)%nat ->
  let n := length (row0 :: rest) in
  let m := length row0 in
  let off := Z.of_nat (length verts) in
  exists new_verts new_inds,
    generate_mesh (row0 :: rest) verts inds = Some (verts ++ new_verts, inds ++ new_inds) /\
    length new_verts = (n * m)%nat /\
    length new_inds = ((n - 1) * (2 * m + 2))%nat /\
    Forall (fun idx => (off <= idx < off + Z.of_nat (n * m))%Z) new_inds.
Proof.
  intros Hm n m off. eexists _, _. split; [apply generate_mesh_eq|].
  fold n m off. split; [|split].
  - rewrite (flat_map_length_const _ _ m)
      by (intros; by rewrite length_map, length_seq).
    by rewrite length_seq.
  - rewrite (flat_map_length_const _ _ (2 * m + 2)) by apply mesh_row_length.
    by rewrite length_seq.
  - rewrite Nat2Z.inj_mul.
    assert (Hrow : forall i j : nat, (i < n)%nat -> (j < m)%nat ->
              (0 <= Z.of_nat i * Z.of_nat m + Z.of_nat j < Z.of_nat n * Z.of_nat m)%Z).
    { intros i j Hi Hj. split; [nia|].
      apply Z.lt_le_trans with ((Z.of_nat i + 1) * Z.of_nat m)%Z; nia. }
    apply Forall_flat_map_seq. intros i Hi. unfold mesh_row.
    apply Forall_app. split.
    + apply Forall_flat_map_seq. intros j Hj.
      pose proof (Hrow i j ltac:(lia) ltac:(lia)) as H1.
      pose proof (Hrow (i + 1)%nat j ltac:(lia) ltac:(lia)) as H2.
      rewrite Nat2Z.inj_add in H2.
      repeat (apply Forall_cons; split); [lia..|by apply Forall_nil].
    + pose proof (Hrow (i + 1)%nat (m - 1)%nat ltac:(lia) ltac:(lia)) as H1.
      pose proof (Hrow (i + 1)%nat 0%nat ltac:(lia) ltac:(lia)) as H2.
      rewrite Nat2Z.inj_add in H1, H2. rewrite Nat2Z.inj_sub in H1 by lia.
      repeat (apply Forall_cons; split); [lia..|by apply Forall_nil].
Qed.

Lemma generate_mesh_appends_closed_mesh_witness :
  exists new_verts new_inds,
    generate_mesh [[0; 1]%R; [2; 3]%R; [4; 5]%R] [[0; 0; 0; 1]%R] [0%Z]
      = Some ([[0; 0; 0; 1]%R] ++ new_verts, [0%Z] ++ new_inds) /\
    length new_verts = 6%nat /\ length new_inds = 12%nat.
Proof.
  destruct (generate_mesh_appends_closed_mesh [0; 1]%R [[2; 3]%R; [4; 5]%R]
              [[0; 0; 0; 1]%R] [0%Z])
    as (nv & ni & Heq & Hv & Hi & _).
  - cbn [length]. lia.
  - exists nv, ni. split; [exact Heq|]. split; [exact Hv | exact Hi].
Defined.

Lemma grid_coord_bounds (i n : nat) :
  (2 <= n)%nat -> (i < n)%nat -> (-1 <= 2 * INR i / (INR n - 1) - 1 <= 1)%R.
Proof.
  intros Hn Hi.
  assert (Hk : (1 <= INR n - 1)%R).
  { apply le_INR in Hn. change (INR 2) with 2%R in Hn. lra. }
  assert (Hi' : (0 <= INR i <= INR n - 1)%R).
  { split; [apply pos_INR|].
    replace (INR n - 1)%R with (INR (n - 1)).
    - apply le_INR. lia.
    - rewrite minus_INR by lia. reflexivity. }
  assert (Hinv : (0 < / (INR n - 1))%R) by (apply Rinv_0_lt_compat; lra).
  assert (Hone : ((INR n - 1) * / (INR n - 1) = 1)%R) by (apply Rinv_r; lra).
  unfold Rdiv. split; nra.
Qed.

(** X13: on data of at least two rows and two columns, the vertex that
    [generate_mesh] pushes for the entry (i, j) sits at position
    [off + i*m + j] of the vertex array, has the entry as its height,
    and has the horizontal coordinates 2i/(n-1) - 1 and 2j/(m-1) - 1,
    both between -1 and 1. *)
Theorem generate_mesh_vertex_grid (row0 : list R) (rest : list (list R))
    (verts : list vec) (inds : list Z) (i j : nat) (row : list R) (hgt : R) :
  let data := row0 :: rest in
  let n := length data in
  let m := length row0 in
  (2 <= n)%nat -> (2 <= m)%nat ->
  data !! i = Some row -> (j < m)%nat -> row !! j = Some hgt ->
  exists new x z,
    generate_mesh data verts inds = Some new /\
    new.1 !! (length verts + (i * m + j))%nat = Some (vec4 x hgt z 1) /\
    x = (2 * INR i / (INR n - 1) - 1)%R /\ z = (2 * INR j / (INR m - 1) - 1)%R /\
    (-1 <= x <= 1)%R /\ (-1 <= z <= 1)%R.
Proof.
  intros data n m Hn Hm Hrow Hj Hhgt.
  assert (Hi : (i < n)%nat) by (by apply lookup_lt_Some in Hrow).
  eexists _, _, _. split; [apply generate_mesh_eq|]. fold data n m.
  split; [|split; [reflexivity|split; [reflexivity|]]].
  - cbn [fst]. rewrite lookup_app_r by lia.
    replace (length verts + (i * m + j) - length verts)%nat with (i * m + j)%nat by lia.
    rewrite (lookup_flat_map_blocks _ m)
      by (done || intros; by rewrite length_map, length_seq).
    rewrite list_lookup_fmap, lookup_seq_lt by done. cbn [fmap option_fmap option_map].
    unfold mesh_vertex. do 2 f_equal.
    unfold elt. rewrite (nth_lookup_Some _ _ _ _ Hrow).
    by rewrite (nth_lookup_Some _ _ _ _ Hhgt).
  - split; by apply grid_coord_bounds.
Qed.

Lemma generate_mesh_vertex_grid_witness :
  exists new,
    generate_mesh [[0; 1]%R; [2; 3]%R; [4; 5]%R] [[0; 0; 0; 1]%R] [0%Z] = Some new /\
    new.1 !! 4%nat = Some (vec4 (2 * INR 1 / (INR 3 - 1) - 1) 3
                                (2 * INR 1 / (INR 2 - 1) - 1) 1).
Proof.
  destruct (generate_mesh_vertex_grid [0; 1]%R [[2; 3]%R; [4; 5]%R]
              [[0; 0; 0; 1]%R] [0%Z] 1 1 [2; 3]%R 3%R)
    as (new & x & z & Heq & Hat & -> & -> & _).
  - cbn [length]. lia.
  - cbn [length]. lia.
  - reflexivity.
  - cbn [length]. lia.
  - reflexivity.
  - exists new. split; [exact Heq | exact Hat].
Defined.

Lemma mesh_row_lookups (m : nat) (off : Z) (i : nat) :
  (1 <= m)%nat ->
  mesh_row m off i !! 0%nat = Some (off + Z.of_nat i * Z.of_nat m)%Z /\
  mesh_row m off i !! (2 * m - 1)%nat
    = Some (off + (Z.of_nat i + 2) * Z.of_nat m - 1)%Z /\
  mesh_row m off i !! (2 * m)%nat = Some (off + (Z.of_nat i + 2) * Z.of_nat m - 1)%Z /\
  mesh_row m off i !! (2 * m + 1)%nat = Some (off + (Z.of_nat i + 1) * Z.of_nat m)%Z.
Proof.
  intros Hm. unfold mesh_row.
  set (g := fun j : nat => [off + Z.of_nat i * Z.of_nat m + Z.of_nat j;
                            off + (Z.of_nat i + 1) * Z.of_nat m + Z.of_nat j]%Z).
  assert (Hlen : length (flat_map g (seq 0 m)) = (2 * m)%nat).
  { rewrite (flat_map_length_const _ _ 2) by done. rewrite length_seq. lia. }
  split; [|split; [|split]].
  - rewrite lookup_app_l by lia.
    change 0%nat with (0 * 2 + 0)%nat at 1.
    rewrite (lookup_flat_map_blocks g 2 m 0 0) by (done || lia).
    cbn. f_equal. lia.
  - rewrite lookup_app_l by lia.
    replace (2 * m - 1)%nat with ((m - 1) * 2 + 1)%nat by lia.
    rewrite (lookup_flat_map_blocks g 2 m (m - 1) 1) by (done || lia).
    cbn. f_equal. lia.
  - rewrite lookup_app_r by lia. rewrite Hlen, Nat.sub_diag. reflexivity.
  - rewrite lookup_app_r by lia. rewrite Hlen.
    replace (2 * m + 1 - 2 * m)%nat with 1%nat by lia. reflexivity.
Qed.

(** X14: the rows of rectangles of [generate_mesh] are separated in the
    triangle strip: the three strip triples between the last triangle of
    one row and the first triangle of the next repeat an index, so no
    triangle joins two rows. *)
Theorem generate_mesh_rows_are_separated (row0 : list R) (rest : list (list R))
    (verts : list vec) (inds : list Z) (i d : nat) :
  let n := length (row0 :: rest) in
  let m := length row0 in
  (1 <= m)%nat -> (i + 2 < n)%nat -> (d < 3)%nat ->
  exists new,
    generate_mesh (row0 :: rest) verts inds = Some new /\
    Mesh.degenerate_at new.2 (length inds + (i * (2 * m + 2) + (2 * m - 1 + d)))%nat.
Proof.
  intros n m Hm Hi Hd. eexists. split; [apply generate_mesh_eq|].
  fold n m. cbn [snd]. set (off := Z.of_nat (length verts)).
  set (F := flat_map (mesh_row m off) (seq 0 (n - 1))).
  assert (Hat : forall r k, (r < n - 1)%nat -> (k < 2 * m + 2)%nat ->
            (inds ++ F) !! (length inds + (r * (2 * m + 2) + k))%nat
            = mesh_row m off r !! k).
  { intros r k Hr Hk. rewrite lookup_app_r by lia.
    replace (length inds + (r * (2 * m + 2) + k) - length inds)%nat
      with (r * (2 * m + 2) + k)%nat by lia.
    apply lookup_flat_map_blocks; [apply mesh_row_length|lia..]. }
  destruct (mesh_row_lookups m off i Hm) as (_ & L1 & L2 & L3).
  destruct (mesh_row_lookups m off (i + 1) Hm) as (L0 & _).
  pose proof (Hat i (2 * m - 1)%nat ltac:(lia) ltac:(lia)) as P1.
  pose proof (Hat i (2 * m)%nat ltac:(lia) ltac:(lia)) as P2.
  pose proof (Hat i (2 * m + 1)%nat ltac:(lia) ltac:(lia)) as P3.
  pose proof (Hat (i + 1)%nat 0%nat ltac:(lia) ltac:(lia)) as P4.
  rewrite L1 in P1. rewrite L2 in P2. rewrite L3 in P3. rewrite L0 in P4.
  intros j k l Hj Hk Hl.
  destruct d as [|[|[|d]]]; [| | |lia].
  - replace (length inds + (i * (2 * m + 2) + (2 * m - 1 + 0)))%nat
      with (length inds + (i * (2 * m + 2) + (2 * m - 1)))%nat in Hj, Hk by lia.
    replace (length inds + (i * (2 * m + 2) + (2 * m - 1)) + 1)%nat
      with (length inds + (i * (2 * m + 2) + 2 * m))%nat in Hk by lia.
    left. congruence.
  - replace (length inds + (i * (2 * m + 2) + (2 * m - 1 + 1)) + 1)%nat
      with (length inds + (i * (2 * m + 2) + (2 * m + 1)))%nat in Hk by lia.
    replace (length inds + (i * (2 * m + 2) + (2 * m - 1 + 1)) + 2)%nat
      with (length inds + ((i + 1) * (2 * m + 2) + 0))%nat in Hl by lia.
    right; left. rewrite P3 in Hk. rewrite P4 in Hl.
    injection Hk as <-. injection Hl as <-. lia.
  - replace (length inds + (i * (2 * m + 2) + (2 * m - 1 + 2)))%nat
      with (length inds + (i * (2 * m + 2) + (2 * m + 1)))%nat in Hj by lia.
    replace (length inds + (i * (2 * m + 2) + (2 * m - 1 + 2)) + 1)%nat
      with (length inds + ((i + 1) * (2 * m + 2) + 0))%nat in Hk by lia.
    left. rewrite P3 in Hj. rewrite P4 in Hk.
    injection Hj as <-. injection Hk as <-. lia.
Qed.

Lemma generate_mesh_rows_are_separated_witness :
  exists new,
    generate_mesh [[0; 1]%R; [2; 3]%R; [4; 5]%R] [] [] = Some new /\
    Mesh.degenerate_at new.2 3 /\ new.2 !! 3%nat = Some 3%Z /\
    new.2 !! 4%nat = Some 3%Z /\ new.2 !! 5%nat = Some 2%Z.
Proof.
  destruct (generate_mesh_rows_are_separated [0; 1]%R [[2; 3]%R; [4; 5]%R] [] [] 0 0)
    as (new & Heq & Hdeg).
  - cbn [length]. lia.
  - cbn [length]. lia.
  - lia.
  - exists new. split; [exact Heq|]. split; [exact Hdeg|].
    rewrite generate_mesh_eq in Heq. injection Heq as <-. repeat split; reflexivity.
Defined.

End ToolsFacts.

(** ** The OBJ loader: the arrays and the parts it leaves *)

Section ObjMore.
Import Obj.
Context {num : Type}.
Variable to_number : string -> num.
Variable number_to_string : num -> string.

Local Abbreviation get_idx := (get_idx number_to_string).
Local Abbreviation aligned := (aligned number_to_string).
Local Abbreviation well_indexed := (well_indexed number_to_string).
Local Abbreviation step := (step to_number number_to_string).
Local Abbreviation parse := (parse to_number number_to_string).

(** A loop over the lines keeps what each line keeps. *)
Lemma foldl_step_inv (P : @state num -> Prop) (lines : list line) (st : @state num) :
  (forall st l, P st -> P (step st l)) -> P st -> P (foldl step st lines).
Proof.
  intros Hstep. revert st. induction lines as [|l lines IH]; intros st H; [done|].
  cbn [foldl]. by apply IH, Hstep.
Qed.

Lemma get_idx_valid (v : vecn) (t n : option vecn) (ix : indexer) :
  aligned ix ->
  ((get_idx v t n ix).1 < length (verts (get_idx v t n ix).2))%nat /\
  (length (verts ix) <= length (verts (get_idx v t n ix).2))%nat.
Proof.
  intros (_ & _ & Hmap). unfold Obj.get_idx.
  destruct (idx_map ix !! Obj.key number_to_string v t n) as [i|] eqn:Hi; cbn [fst snd].
  - destruct (Hmap _ _ Hi) as (v' & _ & _ & Hv & _). apply lookup_lt_Some in Hv. lia.
  - cbn [verts]. rewrite length_app. cbn [length]. lia.
Qed.

Lemma add_face_well_indexed (hasT hasN : bool) (ca cb cc : corner) (st : @state num) :
  well_indexed st -> well_indexed (Obj.add_face number_to_string hasT hasN ca cb cc st).
Proof.
  intros (Hal & Hin & Hmod). unfold Obj.add_face.
  destruct (fetch st ca) as [[v_a vt_a] vn_a], (fetch st cb) as [[v_b vt_b] vn_b],
           (fetch st cc) as [[v_c vt_c] vn_c].
  pose proof (get_idx_valid v_a vt_a vn_a (ix st) Hal) as [Ha1 Ha2].
  pose proof (get_idx_aligned number_to_string v_a vt_a vn_a (ix st) Hal) as Hal1.
  destruct (get_idx v_a vt_a vn_a (ix st)) as [ia ix1]. cbn [fst snd] in *.
  pose proof (get_idx_valid v_b vt_b vn_b ix1 Hal1) as [Hb1 Hb2].
  pose proof (get_idx_aligned number_to_string v_b vt_b vn_b ix1 Hal1) as Hal2.
  destruct (get_idx v_b vt_b vn_b ix1) as [ib ix2]. cbn [fst snd] in *.
  pose proof (get_idx_valid v_c vt_c vn_c ix2 Hal2) as [Hc1 Hc2].
  pose proof (get_idx_aligned number_to_string v_c vt_c vn_c ix2 Hal2) as Hal3.
  destruct (get_idx v_c vt_c vn_c ix2) as [ic ix3]. cbn [fst snd] in *.
  unfold Obj.well_indexed. cbn [ix inds]. split; [done|]. split.
  - apply Forall_app. split.
    + eapply Forall_impl; [exact Hin|]. cbn beta. intros i Hi. lia.
    + repeat (apply Forall_cons; split); [lia..|by apply Forall_nil].
  - rewrite length_app. cbn [length].
    rewrite <- Nat.Div0.add_mod_idemp_l, Hmod. reflexivity.
Qed.

Lemma mtllib_arg_fields (args : list string) (st : @state num) :
  ix (foldl mtllib_arg st args) = ix st /\ inds (foldl mtllib_arg st args) = inds st
  /\ objs (foldl mtllib_arg st args) = objs st.
Proof.
  revert st; induction args as [|a args IH]; intros st; cbn [foldl]; [done|].
  destruct (IH (mtllib_arg st a)) as (-> & -> & ->). done.
Qed.

Lemma step_well_indexed (st : @state num) (l : line) :
  well_indexed st -> well_indexed (step st l).
Proof.
  intros H. destruct l as [[|cmd args]|]; cbn [Obj.step]; try done.
  unfold command.
  destruct (decide (cmd = "mtllib")).
  { destruct (mtllib_arg_fields args st) as (Hix & Hinds & _).
    unfold Obj.well_indexed. by rewrite Hix, Hinds. }
  destruct (decide (cmd = "usemtl")); [by destruct args as [|? [|? ?]]|].
  destruct (decide (cmd = "o")); [by destruct args as [|? [|? ?]]|].
  destruct (decide (cmd = "v")); [by destruct args as [|? [|? [|? [|? [|? ?]]]]]|].
  destruct (decide (cmd = "vn")); [by destruct args as [|? [|? [|? [|? ?]]]]|].
  destruct (decide (cmd = "vt")); [by destruct args as [|? [|? [|? [|? ?]]]]|].
  destruct (decide (cmd = "f")); [|done].
  unfold face. destruct args as [|a [|b [|c [|d args]]]]; try done.
  destruct (face_corners _ _ _ a b c) as [[[ca cb] cc]|]; [|done].
  by apply add_face_well_indexed.
Qed.

(** X15: whatever the lines of an OBJ file, the arrays that [obj_loader]
    has built when the lines are read form an indexed triangle list: the
    vertices, texture coordinates and normals have one length, every
    index names one of the vertices, and the number of indices is a
    multiple of 3. *)
Theorem parse_output_is_indexed_mesh (lines : list line) :
  let st := parse lines in
  length (texCoords (ix st)) = length (verts (ix st)) /\
  length (normals (ix st)) = length (verts (ix st)) /\
  Forall (fun i => (i < length (verts (ix st)))%nat) (inds st) /\
  exists k, length (inds st) = (3 * k)%nat.
Proof.
  intros st.
  assert (H : well_indexed (foldl step init lines)).
  { apply foldl_step_inv; [apply step_well_indexed|].
    split; [apply aligned_empty|]. split; [by apply Forall_nil|reflexivity]. }
  destruct H as ((Ht & Hn & _) & Hin & Hmod).
  unfold st, Obj.parse. cbn [ix inds]. repeat split; try done.
  exists (length (inds (foldl step init lines)) / 3)%nat.
  apply Nat.Div0.div_exact. exact Hmod.
Qed.

Lemma tiles_snoc (ps : list part) (a s c : nat) (m : option string)
    (mc : list string) :
  tiles ps a s -> (0 < c)%nat -> tiles (ps ++ [Part s (Some c) m mc]) a (s + c).
Proof.
  revert a. induction ps as [|q ps IH]; intros a H Hc; cbn [app tiles] in *.
  - subst. split; [done|]. exists c. by repeat split.
  - destruct H as (Hq & c' & Hc' & Hpos & H). split; [done|].
    exists c'. repeat split; try done. by apply IH.
Qed.

Lemma close_part_snoc (drop_object : bool) (ni : nat) (older : list object)
    (nm : option string) (earlier : list part) (p : part) :
  close_part drop_object ni (older ++ [Object nm (earlier ++ [p])])
  = if decide (ni = start p) then
      if drop_object && bool_decide (earlier = [])
      then older else older ++ [Object nm earlier]
    else older ++ [Object nm (earlier ++ [Part (start p) (Some (ni - start p)%nat)
                                               (material p) (material_context p)])].
Proof.
  unfold close_part. rewrite reverse_snoc. cbn [parts name]. rewrite reverse_snoc.
  destruct (decide (ni = start p)).
  - replace (bool_decide (length (earlier ++ [p]) = 1%nat))
      with (bool_decide (earlier = [])).
    + destruct (drop_object && bool_decide (earlier = [])).
      * apply reverse_involutive.
      * by rewrite reverse_cons, !reverse_involutive.
    + apply bool_decide_ext. rewrite length_app. cbn [length].
      destruct earlier; cbn [length]; split; (done || lia).
  - by rewrite reverse_cons, reverse_involutive, reverse_cons, reverse_involutive.
Qed.

Lemma push_part_snoc (q : part) (older : list object) (nm : option string)
    (ps : list part) :
  push_part q (older ++ [Object nm ps]) = older ++ [Object nm (ps ++ [q])].
Proof.
  unfold push_part. rewrite reverse_snoc. cbn [parts name].
  by rewrite reverse_cons, reverse_involutive.
Qed.

Lemma flat_parts_snoc (older : list object) (nm : option string) (ps : list part) :
  flat_map parts (older ++ [Object nm ps]) = flat_map parts older ++ ps.
Proof. rewrite flat_map_app. cbn [flat_map parts]. by rewrite app_nil_r. Qed.

(** A state with the same objects and libraries, and at least as many
    indices, keeps the invariant of the objects. *)
Lemma objs_inv_ext (st st' : @state num) :
  objs st' = objs st -> mtls st' = mtls st ->
  (length (inds st) <= length (inds st'))%nat ->
  objs_inv st -> objs_inv st'.
Proof.
  intros Ho Hm Hi (older & nm & earlier & p & H1 & H2 & H3 & H4 & H5 & H6).
  exists older, nm, earlier, p. rewrite Ho, Hm. repeat split; try done. lia.
Qed.

Lemma mtllib_arg_objs (args : list string) (st : @state num) :
  objs_inv st -> objs_inv (foldl mtllib_arg st args).
Proof.
  revert st; induction args as [|a args IH]; intros st H; cbn [foldl]; [done|].
  apply IH. destruct H as (older & nm & earlier & p & H1 & H2 & H3 & H4 & H5 & H6).
  exists older, nm, earlier, p. cbn [objs inds mtls mtllib_arg].
  repeat split; try done.
  eapply Forall_impl; [exact H6|]. cbn beta. intros q Hq. by apply prefix_app_r.
Qed.

Lemma step_objs_inv (st : @state num) (l : line) : objs_inv st -> objs_inv (step st l).
Proof.
  intros H. destruct l as [[|cmd args]|]; cbn [Obj.step]; try done.
  unfold command.
  destruct (decide (cmd = "mtllib")); [by apply mtllib_arg_objs|].
  destruct (decide (cmd = "usemtl")).
  { destruct args as [|m [|? ?]]; try done.
    destruct H as (older & nm & earlier & p & H1 & H2 & H3 & H4 & H5 & H6).
    rewrite H1, flat_parts_snoc in H6.
    apply Forall_app in H6 as [H6a H6b]. apply Forall_app in H6b as [H6b H6c].
    unfold objs_inv. cbn [objs inds mtls]. rewrite H1, close_part_snoc.
    destruct (decide (length (inds st) = start p)) as [Heq|Hne]; cbn [andb].
    - rewrite push_part_snoc.
      eexists older, nm, earlier, _. split; [reflexivity|]. cbn [count start].
      repeat split; try done; try lia; [by rewrite Heq|].
      rewrite flat_parts_snoc. repeat (apply Forall_app; split); try done.
      by repeat constructor.
    - rewrite push_part_snoc.
      eexists older, nm, (earlier ++ [_]), _. split; [reflexivity|]. cbn [count start].
      repeat split; try done.
      + rewrite app_assoc.
        replace (length (inds st)) with (start p + (length (inds st) - start p))%nat
          at 2 by lia.
        apply tiles_snoc; [done|lia].
      + rewrite flat_parts_snoc. repeat (apply Forall_app; split); try done.
        * apply Forall_singleton. cbn [material_context].
          exact (Forall_inv H6c).
        * by repeat constructor. }
  destruct (decide (cmd = "o")).
  { destruct args as [|o [|? ?]]; try done.
    destruct H as (older & nm & earlier & p & H1 & H2 & H3 & H4 & H5 & H6).
    rewrite H1, flat_parts_snoc in H6.
    apply Forall_app in H6 as [H6a H6b]. apply Forall_app in H6b as [H6b H6c].
    unfold objs_inv. cbn [objs inds mtls]. rewrite H1, close_part_snoc.
    destruct (decide (length (inds st) = start p)) as [Heq|Hne]; cbn [andb].
    - destruct (decide (earlier = [])) as [->|Hearlier].
      + rewrite bool_decide_eq_true_2 by done.
        eexists older, _, [], _. split; [reflexivity|]. cbn [count start].
        repeat split; try done; try lia; [by rewrite Heq|].
        rewrite flat_parts_snoc. apply Forall_app. split; [done|].
        by repeat constructor.
      + rewrite bool_decide_eq_false_2 by done.
        eexists (older ++ [Object nm earlier]), _, [], _.
        split; [reflexivity|]. cbn [count start].
        repeat split; try done; try lia.
        * rewrite flat_parts_snoc, app_nil_r. by rewrite Heq.
        * apply Forall_app. split; [done|]. by apply Forall_singleton.
        * rewrite !flat_parts_snoc. repeat (apply Forall_app; split); try done.
          by repeat constructor.
    - eexists (older ++ [Object nm (earlier ++ [_])]), _, [], _.
      split; [reflexivity|]. cbn [count start].
      repeat split; try done.
      + rewrite flat_parts_snoc, app_nil_r, app_assoc.
        replace (length (inds st)) with (start p + (length (inds st) - start p))%nat
          at 2 by lia.
        apply tiles_snoc; [done|lia].
      + apply Forall_app. split; [done|]. apply Forall_singleton. cbn [parts].
        by destruct earlier.
      + rewrite !flat_parts_snoc. repeat (apply Forall_app; split); try done.
        * apply Forall_singleton. cbn [material_context].
          exact (Forall_inv H6c).
        * by repeat constructor. }
  destruct (decide (cmd = "v")).
  { destruct args as [|? [|? [|? [|? [|? ?]]]]]; try done;
      by apply (objs_inv_ext st). }
  destruct (decide (cmd = "vn")).
  { destruct args as [|? [|? [|? [|? ?]]]]; try done; by apply (objs_inv_ext st). }
  destruct (decide (cmd = "vt")).
  { destruct args as [|? [|? [|? [|? ?]]]]; try done; by apply (objs_inv_ext st). }
  destruct (decide (cmd = "f")); [|done].
  unfold face. destruct args as [|a [|b [|c [|d args]]]]; try done.
  destruct (face_corners _ _ _ a b c) as [[[ca cb] cc]|]; [|done].
  apply (objs_inv_ext st); try done; unfold Obj.add_face;
    destruct (fetch st ca) as [[v_a vt_a] vn_a], (fetch st cb) as [[v_b vt_b] vn_b],
             (fetch st cc) as [[v_c vt_c] vn_c];
    destruct (get_idx v_a vt_a vn_a (ix st)) as [ia ix1];
    destruct (get_idx v_b vt_b vn_b ix1) as [ib ix2];
    destruct (get_idx v_c vt_c vn_c ix2) as [ic ix3]; try done.
  cbn [inds]. rewrite length_app. lia.
Qed.

Lemma init_objs_inv : objs_inv (@init num).
Proof.
  exists [], None, [], (Part 0 None None []). cbn.
  repeat split; try done. by repeat constructor.
Qed.

(** X16: whatever the lines of an OBJ file, the parts that [obj_loader]
    leaves, taken object by object in order, tile the index array: the
    first starts at 0, each has a positive count and ends where the next
    starts, and the last ends at [inds.length]; no object is left
    without parts. Drawing every part draws every index once. *)
Theorem parse_parts_tile_the_indices (lines : list line) :
  let st := parse lines in
  tiles (flat_map parts (objs st)) 0 (length (inds st)) /\
  Forall (fun o => parts o <> []) (objs st).
Proof.
  intros st.
  assert (H : objs_inv (foldl step init lines))
    by (apply foldl_step_inv; [apply step_objs_inv | apply init_objs_inv]).
  destruct H as (older & nm & earlier & p & H1 & H2 & H3 & H4 & H5 & _).
  unfold st, Obj.parse. cbn [objs inds]. rewrite H1, close_part_snoc.
  set (ni := length (inds (foldl step init lines))) in *.
  destruct (decide (ni = start p)) as [Heq|Hne]; cbn [andb].
  - destruct (decide (earlier = [])) as [->|Hearlier].
    + rewrite bool_decide_eq_true_2 by done. rewrite app_nil_r in H4.
      split; [by rewrite Heq | done].
    + rewrite bool_decide_eq_false_2 by done. rewrite flat_parts_snoc.
      split; [by rewrite Heq|].
      apply Forall_app. split; [done|]. by apply Forall_singleton.
  - rewrite flat_parts_snoc, app_assoc. split.
    + replace ni with (start p + (ni - start p))%nat at 2 by lia.
      apply tiles_snoc; [done|lia].
    + apply Forall_app. split; [done|]. apply Forall_singleton. cbn [parts].
      by destruct earlier.
Qed.

(** Every part that [obj_loader] leaves carries, as its material context,
    a prefix of [mtls]: the libraries named before the part was opened. *)
Lemma parse_contexts (lines : list line) :
  let st := parse lines in
  Forall (fun q => material_context q `prefix_of` mtls st) (flat_map parts (objs st)).
Proof.
  intros st.
  assert (H : objs_inv (foldl step init lines))
    by (apply foldl_step_inv; [apply step_objs_inv | apply init_objs_inv]).
  destruct H as (older & nm & earlier & p & H1 & _ & _ & _ & _ & H6).
  rewrite H1, flat_parts_snoc in H6.
  apply Forall_app in H6 as [H6a H6b]. apply Forall_app in H6b as [H6b H6c].
  unfold st, Obj.parse. cbn [objs inds mtls]. rewrite H1, close_part_snoc.
  destruct (decide (_ = start p)); cbn [andb].
  - destruct (bool_decide (earlier = [])); [done|].
    rewrite flat_parts_snoc. by apply Forall_app.
  - rewrite flat_parts_snoc. repeat (apply Forall_app; split); try done.
    apply Forall_singleton. cbn [material_context]. exact (Forall_inv H6c).
Qed.

Local Abbreviation key := (key number_to_string).
Local Abbreviation get_all := (get_all number_to_string).

(** The map of the indexer knows the key of every output entry. *)
Lemma get_idx_complete (v : vecn) (t n : option vecn) (ix : indexer) :
  aligned ix ->
  (forall i v t n, verts ix !! i = Some v -> texCoords ix !! i = Some t ->
                   normals ix !! i = Some n -> idx_map ix !! key v t n = Some i) ->
  let ix' := (get_idx v t n ix).2 in
  forall i v t n, verts ix' !! i = Some v -> texCoords ix' !! i = Some t ->
                  normals ix' !! i = Some n -> idx_map ix' !! key v t n = Some i.
Proof.
  intros (Ht & Hn & _) Hall. unfold Obj.get_idx.
  destruct (idx_map ix !! key v t n) as [j|] eqn:Hj; cbn [snd]; [done|].
  intros i v' t' n'. cbn [verts texCoords normals idx_map]. intros Hv Htx Hnx.
  destruct (decide (i < length (verts ix))%nat) as [Hlt|Hge].
  - rewrite lookup_app_l in Hv by done.
    rewrite lookup_app_l in Htx by lia. rewrite lookup_app_l in Hnx by lia.
    pose proof (Hall i v' t' n' Hv Htx Hnx) as Hi.
    rewrite lookup_insert_ne; [done|]. intros Heq. congruence.
  - pose proof (lookup_lt_Some _ _ _ Hv) as Hi. rewrite length_app in Hi.
    cbn [length] in Hi. assert (i = length (verts ix)) as -> by lia.
    rewrite lookup_app_r, Nat.sub_diag in Hv by lia.
    rewrite lookup_app_r in Htx by lia. rewrite lookup_app_r in Hnx by lia.
    rewrite Ht, Nat.sub_diag in Htx. rewrite Hn, Nat.sub_diag in Hnx.
    injection Hv as <-. injection Htx as <-. injection Hnx as <-.
    apply lookup_insert_eq.
Qed.

(** X22: [get_idx] never stores a key twice. In the arrays [verts],
    [texCoords] and [normals] as [get_idx] has filled them when the lines
    have been read, two indices whose entries (a position, a texture
    coordinate or [null], a normal or [null]) have the same key are one
    index. This is about the arrays before [// Fill in missing values]:
    that step replaces entries that are [null] and can make two entries
    equal, see [fill_in_can_repeat_a_triple]. *)
Theorem get_idx_stores_no_key_twice (lines : list line) (i j : nat)
    (v v' : vecn) (t t' n n' : option vecn) :
  let out := ix (parse lines) in
  verts out !! i = Some v -> texCoords out !! i = Some t -> normals out !! i = Some n ->
  verts out !! j = Some v' -> texCoords out !! j = Some t' ->
  normals out !! j = Some n' ->
  key v t n = key v' t' n' -> i = j.
Proof.
  intros out Hv Ht Hn Hv' Ht' Hn' Hkey.
  destruct (parse_indexer to_number number_to_string lines) as [cs Hcs].
  assert (Hgen : forall cs ix, aligned ix ->
            (forall i v t n, verts ix !! i = Some v -> texCoords ix !! i = Some t ->
               normals ix !! i = Some n -> idx_map ix !! key v t n = Some i) ->
            forall i v t n, verts (get_all cs ix) !! i = Some v ->
               texCoords (get_all cs ix) !! i = Some t ->
               normals (get_all cs ix) !! i = Some n ->
               idx_map (get_all cs ix) !! key v t n = Some i).
  { clear. intros cs. induction cs as [|c cs IH]; intros ix Hal Hall; [done|].
    cbn [Obj.get_all foldl]. apply IH.
    - by apply get_idx_aligned.
    - by apply get_idx_complete. }
  assert (Hmap : forall i v t n, verts out !! i = Some v -> texCoords out !! i = Some t ->
            normals out !! i = Some n -> idx_map out !! key v t n = Some i).
  { unfold out. rewrite Hcs. apply Hgen; [apply aligned_empty|].
    intros i0 v0 t0 n0 H0. cbn [verts] in H0. by rewrite lookup_nil in H0. }
  pose proof (Hmap i v t n Hv Ht Hn) as Hi.
  pose proof (Hmap j v' t' n' Hv' Ht' Hn') as Hj.
  rewrite Hkey in Hi. congruence.
Qed.

End ObjMore.

Section ObjSamples.
Import Obj.

Lemma get_idx_stores_no_key_twice_witness :
  let lines := [Some ["v"; "0"; "0"; "0"]; Some ["v"; "1"; "0"; "0"];
                Some ["v"; "0"; "1"; "0"]; Some ["f"; "1"; "2"; "3"];
                Some ["f"; "3"; "2"; "1"]] in
  let out := ix (parse (@Datatypes.id string) (@Datatypes.id string) lines) in
  verts out = [["0"; "0"; "0"]; ["1"; "0"; "0"]; ["0"; "1"; "0"]] /\
  verts out !! 1%nat = Some ["1"; "0"; "0"] /\ 1%nat = 1%nat.
Proof.
  intros lines out. split; [vm_compute; reflexivity|].
  split; [vm_compute; reflexivity|].
  apply (get_idx_stores_no_key_twice (@Datatypes.id string) (@Datatypes.id string)
           lines 1 1 ["1"; "0"; "0"] ["1"; "0"; "0"] None None None None);
    vm_compute; reflexivity.
Defined.

(** A triangle given first with its normal only and then with its texture
    coordinate as well: [get_idx] stores six vertices, the first three
    with [null] for the texture coordinate. The keys of the entries 0 and
    3 differ, but once [null] has been replaced by [vec2(0,0)] the two
    entries are the same position, texture coordinate and normal. *)
Example fill_in_can_repeat_a_triple :
  let token := @Datatypes.id string in
  let lines := [Some ["v"; "0"; "0"; "0"]; Some ["v"; "1"; "0"; "0"];
                Some ["v"; "0"; "1"; "0"]; Some ["vt"; "0"; "0"];
                Some ["vn"; "0"; "0"; "1"];
                Some ["f"; "1//1"; "2//1"; "3//1"];
                Some ["f"; "1/1/1"; "2/1/1"; "3/1/1"]] in
  let st := parse token token lines in
  length (verts (ix st)) = 6%nat /\
  verts (ix st) !! 0%nat = Some ["0"; "0"; "0"] /\
  verts (ix st) !! 3%nat = Some ["0"; "0"; "0"] /\
  normals (ix st) !! 0%nat = Some (Some ["0"; "0"; "1"]) /\
  normals (ix st) !! 3%nat = Some (Some ["0"; "0"; "1"]) /\
  texCoords (ix st) !! 0%nat = Some None /\
  texCoords (ix st) !! 3%nat = Some (Some ["0"; "0"]) /\
  missingNormal st = false /\
  (filled ← fill_texCoords token st; Some (filled !! 0%nat, filled !! 3%nat))
    = Some (Some ["0"; "0"], Some ["0"; "0"]).
Proof. vm_compute. repeat split. Qed.

End ObjSamples.

(** ** The OBJ loader: libraries, materials and the call of [ondone] *)

Section LoaderMore.
Import Loader Obj.
Context {num : Type}.
Variable to_number : string -> num.
Variable number_to_string : num -> string.
Variable numeric : string -> bool.

Local Abbreviation parse := (parse to_number number_to_string).
Local Abbreviation start_loading := (Loader.start to_number number_to_string).
Local Abbreviation resolver := (@resolver num).

Lemma note_library_dedup (names : list string) (s : list string * list string) :
  NoDup s.2 -> (forall x, x ∈ s.2 <-> x ∈ s.1) ->
  let s' := foldl note_library s names in
  s'.1 = s.1 ++ names /\ NoDup s'.2 /\ (forall x, x ∈ s'.2 <-> x ∈ s'.1).
Proof.
  revert s; induction names as [|y names IH]; intros s Hnd Hsame; cbn [foldl].
  - by rewrite app_nil_r.
  - destruct (IH (note_library s y)) as (H1 & H2 & H3).
    + unfold note_library. cbn [fst snd]. destruct (decide (y ∈ s.1)) as [Hy|Hy]; [done|].
      apply NoDup_app. split; [done|]. split; [|apply NoDup_singleton].
      intros x Hx Hxy. apply list_elem_of_singleton in Hxy as ->. by apply Hy, Hsame.
    + intros x. unfold note_library. cbn [fst snd].
      destruct (decide (y ∈ s.1)) as [Hy|Hy]; rewrite ?elem_of_app, Hsame.
      * split; [tauto|]. intros [Hx|Hx]; [done|].
        by apply list_elem_of_singleton in Hx as ->.
      * done.
    + cbv zeta. split; [|done]. rewrite H1. unfold note_library. cbn [fst].
      by rewrite <- app_assoc.
Qed.

(** X17: [obj_loader] keeps every name of every [mtllib] line in [mtls],
    in order and with its repetitions, and calls [load_mtl] once for each
    distinct name: the requested files are pairwise different and are
    exactly the names that occur in [mtls]. *)
Theorem each_library_requested_once (lines : list line) :
  let st := parse lines in
  Obj.mtls st = mtllib_names lines /\
  NoDup (requests st) /\
  (forall x, x ∈ requests st <-> x ∈ Obj.mtls st).
Proof.
  intros st.
  pose proof (parse_libraries to_number number_to_string lines) as Hlib.
  destruct (note_library_dedup (mtllib_names lines) ([], [])) as (H1 & H2 & H3).
  - apply NoDup_nil_2.
  - done.
  - rewrite <- Hlib in H1, H2, H3. cbn [fst snd app] in H1, H2, H3. done.
Qed.

Lemma lookup_material_no_context (a : js_array) (m : string) :
  lookup_material a [] m = Some None.
Proof. reflexivity. Qed.

(** X18: an OBJ file without any [mtllib] argument needs no material
    file: [obj_loader] itself calls [ondone], once, at the end of the
    parsing, and afterwards no request and no image is left that could
    report. *)
Theorem no_library_finishes_at_once (lines : list line) :
  mtllib_names lines = [] ->
  ondone_calls (start_loading lines) = 1%nat /\
  quiescent (start_loading lines) /\
  forall e, handle numeric (start_loading lines) e = None.
Proof.
  intros Hnone.
  pose proof (parse_libraries to_number number_to_string lines) as Hlib.
  rewrite Hnone in Hlib. cbn [foldl] in Hlib.
  pose proof (f_equal fst Hlib) as Hm. pose proof (f_equal snd Hlib) as Hreq.
  cbn [fst snd] in Hm, Hreq. clear Hlib.
  pose proof (parse_contexts to_number number_to_string lines) as Hctx.
  cbv zeta in Hctx. rewrite Hm in Hctx.
  unfold Loader.start. rewrite Hm, Hreq. cbn [length seq list_to_set fmap list_fmap].
  rewrite decide_True by done.
  set (r0 := Resolver (parse lines) _ 0 _ ∅ [] 0).
  assert (Hok : finish_ok r0 = true).
  { unfold finish_ok. apply forallb_forall. intros o Ho.
    apply forallb_forall. intros p Hp.
    destruct (material p) as [m|]; [|done].
    apply bool_decide_eq_true_2.
    assert (Hin : p ∈ flat_map parts (objs (parse lines))).
    { apply list_elem_of_In, in_flat_map. by exists o. }
    rewrite Forall_forall in Hctx. apply Hctx in Hin.
    apply prefix_nil_inv in Hin. rewrite Hin. by eexists. }
  unfold finish_materials. rewrite Hok. cbn [ondone_calls Nat.add].
  split; [done|]. split.
  - split; [done|]. intros req l Hl. unfold r0 in Hl. cbn [loaders] in Hl.
    by rewrite lookup_empty in Hl.
  - intros [req text|req|req img ok]; cbn [handle].
    + unfold on_file_load, r0. cbn [in_flight].
      by rewrite decide_False by apply not_elem_of_empty.
    + unfold on_file_error, r0. cbn [in_flight].
      by rewrite decide_False by apply not_elem_of_empty.
    + unfold on_image, r0. cbn [loaders]. by rewrite lookup_empty.
Qed.

Local Abbreviation mtl_parse := (mtl_parse numeric).
Local Abbreviation mtl_step := (mtl_step numeric).

(** X19: every material that [mtl_loader] has built from the lines of an
    MTL file carries the properties Ka, Kd, Ks, d, Ns and name, whatever
    commands follow its [newmtl]: a command replaces or adds a property of
    the current material and removes none. *)
Theorem materials_carry_the_defaults (lines : list line) (nm : string)
    (mat : Loader.material) :
  m_materials (mtl_parse lines) !! nm = Some mat ->
  Forall (fun k => is_Some (mat !! k)) ["Ka"; "Kd"; "Ks"; "d"; "Ns"; "name"].
Proof.
  unfold Loader.mtl_parse.
  set (P := fun st : mtl_state =>
              forall nm mat, m_materials st !! nm = Some mat ->
                Forall (fun k => is_Some (mat !! k)) ["Ka"; "Kd"; "Ks"; "d"; "Ns"; "name"]).
  assert (Hgen : forall st, P st -> P (foldl mtl_step st lines)).
  { induction lines as [|l lines IH]; intros st Hst; [done|].
    cbn [foldl]. apply IH. clear IH.
    destruct l as [[|cmd args]|]; cbn [Loader.mtl_step]; try done.
    unfold mtl_command. destruct (decide (cmd = "newmtl")).
    - destruct args as [|mtl [|? ?]]; try done.
      intros nm' mat'. cbn [m_materials]. intros Hlk.
      apply lookup_insert_Some in Hlk as [[_ <-]|[_ Hlk]]; [|by apply (Hst nm')].
      repeat (apply Forall_cons; split); [by vm_compute; eexists..|by apply Forall_nil].
    - destruct (m_cur st) as [cur|]; [|done].
      intros nm' mat'. cbn [m_materials]. intros Hlk.
      apply lookup_alter_Some in Hlk as [(_ & mat0 & H0 & ->)|[_ Hlk]];
        [|by apply (Hst nm')].
      eapply Forall_impl; [apply (Hst nm' mat0 H0)|]. cbn beta.
      intros k Hk. apply lookup_insert_is_Some. destruct (decide (cmd = k)); auto. }
  intros Hlk. apply (Hgen (MtlState None ∅ 0)) with (nm := nm); [|exact Hlk].
  intros nm' mat' H. cbn [m_materials] in H. by apply lookup_empty_Some in H.
Qed.

(** X20: on every schedule of the browser's events, [ondone] is called
    at most once, and only after every requested material file has fired
    [load] or [error] and every texture image of every file that has
    loaded has fired [load] or [error]. *)
Theorem ondone_once_after_every_report (lines : list line) (trace : list event)
    (r : resolver) :
  run numeric (start_loading lines) trace = Some r ->
  (ondone_calls r <= 1)%nat /\
  ((0 < ondone_calls r)%nat ->
   (forall req, (req < length (requests (parse lines)))%nat ->
      (exists text, FileLoad req text ∈ trace) \/ FileError req ∈ trace) /\
   (forall req text, FileLoad req text ∈ trace ->
      exists l, loaders r !! req = Some l /\
        forall img, (img < needed_txts l)%nat -> exists ok, ImageDone req img ok ∈ trace)).
Proof.
  intros Hrun.
  pose proof Hrun as Hinv. eapply run_inv in Hinv; [|apply start_inv].
  pose proof Hrun as Hhist. eapply run_history in Hhist; [|apply start_history].
  destruct Hinv as (_ & _ & _ & Hnd & Hrep & Hlo & _ & Hdone & _ & Honce).
  destruct Hhist as (K1 & K2 & _ & K4).
  split; [exact Honce|]. intros Hpos.
  destruct (Hdone Hpos) as [Hfull _].
  assert (Hall : forall req, (req < length (requests (parse lines)))%nat ->
                  req ∈ reported r).
  { apply NoDup_bounded_full; [done| |done].
    intros x Hx. by apply Hrep in Hx as (? & _). }
  split.
  - intros req Hreq. apply K1; [done|].
    by apply Hall, Hrep in Hreq as (_ & ? & _).
  - intros req text Hin. destruct (K4 req text Hin) as [l Hl].
    exists l. split; [done|]. intros img Himg.
    apply (K2 req l img Hl Himg).
    destruct (Hlo req l Hl) as (Hlt & _).
    apply Hall, Hrep in Hlt as (_ & _ & Hw). rewrite (Hw l Hl).
    apply not_elem_of_empty.
Qed.








Lemma note_library_distinct (names : list string) (s : list string * list string) :
  s.2 = s.1 -> NoDup (s.1 ++ names) ->
  foldl note_library s names = (s.1 ++ names, s.1 ++ names).
Proof.
  revert s. induction names as [|x names IH]; intros s Hs Hnd; cbn [foldl].
  - rewrite app_nil_r. destruct s as [a b]. cbn in *. by subst.
  - rewrite IH.
    + unfold note_library. cbn [fst snd]. by rewrite <- !app_assoc.
    + unfold note_library. cbn [fst snd]. rewrite Hs.
      rewrite decide_False; [done|].
      apply NoDup_app in Hnd as (_ & Hdis & _). intros Hin.
      apply (Hdis x Hin). by left.
    + unfold note_library. cbn [fst]. by rewrite <- app_assoc.
Qed.

Lemma lookup_material_loaded (a : js_array) (ctx : list string) (m : string) :
  (forall lib, lib ∈ ctx ->
     classify lib = PlainKey /\ exists ms, props a !! lib = Some (SLoaded ms)) ->
  is_Some (lookup_material a ctx m).
Proof.
  induction ctx as [|lib ctx IH]; intros Hall; cbn [lookup_material]; [by eexists|].
  destruct (Hall lib) as (Hplain & ms & Hms); [by left|].
  unfold get_prop. rewrite Hplain, Hms. cbn [default from_option Datatypes.id].
  destruct (ms !! m); [by eexists|]. apply IH. intros lib' Hin. apply Hall. by right.
Qed.

(** [finish_materials] completes when every library of [mtls] has a plain
    name and has stored its materials under it. *)
Lemma finish_ok_loaded (r : resolver) (names : list string) :
  Forall (fun q => material_context q `prefix_of` names)
         (flat_map parts (objs (obj r))) ->
  (forall lib, lib ∈ names ->
     classify lib = PlainKey /\ exists ms, props (Loader.mtls r) !! lib = Some (SLoaded ms)) ->
  finish_ok r = true.
Proof.
  intros Hctx Hall. unfold finish_ok. apply forallb_forall. intros o Ho.
  apply forallb_forall. intros p Hp.
  destruct (Obj.material p) as [m|]; [|done]. apply bool_decide_eq_true_2.
  apply lookup_material_loaded. intros lib Hin. apply Hall.
  rewrite elem_of_reverse in Hin.
  assert (Hq : p ∈ flat_map parts (objs (obj r))).
  { apply list_elem_of_In, in_flat_map. by exists o. }
  rewrite Forall_forall in Hctx. destruct (Hctx p Hq) as [rest ->].
  apply elem_of_app. by left.
Qed.

(** X27: when every library is named once, under a plain name, and no
    material file fails, [ondone] is called, exactly once, as soon as
    every material file and every texture image has loaded or failed: a
    schedule of events after which nothing is pending has called it. *)
Theorem every_library_loaded_then_done (lines : list line) (trace : list event)
    (r : resolver) :
  NoDup (mtllib_names lines) ->
  Forall (fun lib => classify lib = PlainKey) (mtllib_names lines) ->
  Forall (fun e => match e with FileError _ => False | _ => True end) trace ->
  run numeric (start_loading lines) trace = Some r ->
  quiescent r ->
  ondone_calls r = 1%nat.
Proof.
  intros Hnd Hplain Hnoerr Hrun Hq.
  set (names := mtllib_names lines) in *. set (n := length names).
  pose proof (parse_libraries to_number number_to_string lines) as Hlib.
  fold names in Hlib. rewrite (note_library_distinct names ([], [])) in Hlib by done.
  cbn [fst app] in Hlib.
  pose proof (f_equal fst Hlib) as Hm. pose proof (f_equal snd Hlib) as Hreq.
  cbn [fst snd] in Hm, Hreq. clear Hlib.
  pose proof (parse_contexts to_number number_to_string lines) as Hctx.
  cbv zeta in Hctx. rewrite Hm in Hctx.
  assert (Hrinv : forall trace r, run numeric (start_loading lines) trace = Some r ->
            resolver_inv n n r).
  { intros tr r' Hr'. eapply run_inv in Hr'; [|apply start_inv].
    cbv zeta in Hr'. by rewrite Hm, Hreq in Hr'. }
  set (K := fun r : resolver =>
              obj r = parse lines /\
              elems (Loader.mtls r) = SName <$> names /\
              loaded_mtls r = length (reported r) /\
              (forall req, req ∈ reported r ->
                 exists lib ms, names !! req = Some lib /\
                   props (Loader.mtls r) !! lib = Some (SLoaded ms)) /\
              (forall req l, loaders r !! req = Some l ->
                 names !! req = Some (l_url l)) /\
              (forall req, (req < n)%nat -> (req ∉ in_flight r) ->
                 exists l, loaders r !! req = Some l /\
                   (waiting l = ∅ -> req ∈ reported r)) /\
              ondone_calls r = (if decide (length (reported r) = n) then 1 else 0)%nat).
  assert (Hdone : forall (r2 : resolver) req' url ms,
            classify url = PlainKey -> names !! req' = Some url ->
            obj r2 = parse lines -> elems (Loader.mtls r2) = SName <$> names ->
            loaded_mtls r2 = length (reported r2) ->
            (forall req, req ∈ reported r2 ->
               exists lib ms, names !! req = Some lib /\
                 props (Loader.mtls r2) !! lib = Some (SLoaded ms)) ->
            ondone_calls r2 = 0%nat ->
            NoDup (reported r2 ++ [req']) ->
            (forall x, x ∈ reported r2 ++ [req'] -> (x < n)%nat) ->
            let r := mtl_loaded req' url ms r2 in
            obj r = parse lines /\ elems (Loader.mtls r) = SName <$> names /\
            loaded_mtls r = length (reported r) /\
            reported r = reported r2 ++ [req'] /\
            in_flight r = in_flight r2 /\ loaders r = loaders r2 /\
            (forall req, req ∈ reported r ->
               exists lib ms, names !! req = Some lib /\
                 props (Loader.mtls r) !! lib = Some (SLoaded ms)) /\
            ondone_calls r = (if decide (length (reported r) = n) then 1 else 0)%nat).
  { intros r2 req' url ms Hcl Hname Hobj Hel Hld Hrep Hzero Hnd2 Hlt2.
    unfold mtl_loaded, mtl_done, set_prop. rewrite Hcl.
    set (a := JsArray (elems (Loader.mtls r2))
                      (<[url := SLoaded ms]> (props (Loader.mtls r2)))).
    set (r' := Resolver (obj r2) a (loaded_mtls r2 + 1) (in_flight r2) (loaders r2)
                        (reported r2 ++ [req']) (ondone_calls r2)).
    assert (Hrep' : forall req, req ∈ reported r2 ++ [req'] ->
              exists lib ms0, names !! req = Some lib /\
                <[url := SLoaded ms]> (props (Loader.mtls r2)) !! lib = Some (SLoaded ms0)).
    { intros req Hin. apply elem_of_app in Hin as [Hin|Hin].
      - destruct (Hrep req Hin) as (lib & ms0 & Hl & Hp0).
        exists lib. destruct (decide (url = lib)) as [->|Hne].
        + exists ms. split; [done|]. apply lookup_insert_eq.
        + exists ms0. split; [done|]. by rewrite lookup_insert_ne.
      - apply list_elem_of_singleton in Hin as ->.
        exists url, ms. split; [done|]. apply lookup_insert_eq. }
    assert (Hlen : length (elems a) = n).
    { unfold a. cbn [elems]. by rewrite Hel, length_fmap. }
    cbv zeta.
    destruct (decide (loaded_mtls r2 + 1 = length (elems a))%nat) as [Heq|Hneq].
    - assert (Hfull : length (reported r2 ++ [req']) = n).
      { rewrite length_app. cbn [length]. lia. }
      assert (Hok : finish_ok r' = true).
      { apply (finish_ok_loaded r' names).
        - unfold r'. cbn [obj]. by rewrite Hobj.
        - intros lib Hin. split.
          + rewrite Forall_forall in Hplain. by apply Hplain.
          + apply list_elem_of_lookup in Hin as [i Hi].
            assert (Hi' : i ∈ reported r2 ++ [req']).
            { apply (NoDup_bounded_full _ n); try done.
              by apply lookup_lt_Some in Hi. }
            destruct (Hrep' i Hi') as (lib' & ms0 & Hl' & Hp').
            exists ms0. unfold r', a. cbn [Loader.mtls props]. congruence. }
      unfold finish_materials. rewrite Hok. unfold r'.
      cbn [obj Loader.mtls elems loaded_mtls reported in_flight loaders ondone_calls props].
      rewrite decide_True by done.
      repeat split; try done.
      + rewrite length_app. cbn [length]. lia.
      + lia.
    - unfold r'.
      cbn [obj Loader.mtls elems loaded_mtls reported in_flight loaders ondone_calls props].
      rewrite decide_False.
      + repeat split; try done. rewrite length_app. cbn [length]. lia.
      + rewrite length_app. cbn [length]. lia. }
  assert (Hgen : forall trace r,
            Forall (fun e => match e with FileError _ => False | _ => True end) trace ->
            run numeric (start_loading lines) trace = Some r -> K r).
  { clear trace r Hrun Hq Hnoerr.
    induction trace as [|e trace IH] using rev_ind; intros r Hnoerr Hrun.
    - injection Hrun as <-. unfold Loader.start. rewrite Hm, Hreq. fold n.
      set (r0 := Resolver (parse lines) _ 0 _ ∅ [] 0).
      assert (K0 : forall calls,
                calls = (if decide (0 = n)%nat then 1 else 0)%nat ->
                K (Resolver (obj r0) (Loader.mtls r0) (loaded_mtls r0) (in_flight r0)
                            (loaders r0) (reported r0) calls)).
      { intros calls ->. unfold K, r0.
        cbn [obj Loader.mtls elems loaded_mtls reported in_flight loaders ondone_calls
               props length].
        split; [done|]. split; [done|]. split; [done|].
        split; [intros req Hin; by apply elem_of_nil in Hin|].
        split; [intros req l Hl; by rewrite lookup_empty in Hl|].
        split; [|done].
        intros req Hlt Hnf. exfalso. apply Hnf.
        apply elem_of_list_to_set, elem_of_seq. lia. }
      destruct (decide (n = 0)%nat) as [Hn0|Hn0].
      + unfold finish_materials.
        rewrite (finish_ok_loaded r0 names).
        * apply K0. by rewrite decide_True.
        * done.
        * intros lib Hin. apply length_zero_iff_nil in Hn0. rewrite Hn0 in Hin.
          by apply elem_of_nil in Hin.
      + change (K (Resolver (obj r0) (Loader.mtls r0) (loaded_mtls r0) (in_flight r0)
                            (loaders r0) (reported r0) 0%nat)).
        apply K0. by rewrite decide_False.
    - apply Forall_app in Hnoerr as [Hnoerr He]. apply Forall_inv in He.
      rewrite run_snoc in Hrun.
      destruct (run numeric (start_loading lines) trace) as [r1|] eqn:Hr1; [|done].
      cbn [mbind option_bind] in Hrun.
      pose proof (Hrinv _ _ Hr1) as Hinv1.
      assert (Hinv : resolver_inv n n r).
      { apply (Hrinv (trace ++ [e])). rewrite run_snoc, Hr1. exact Hrun. }
      destruct (IH r1 Hnoerr eq_refl) as (Hobj & Hel & Hld & Hrep & Hurl & Hg & Hcalls).
      clear IH.
      destruct Hinv as (_ & _ & _ & Hnd' & Hrep' & _).
      destruct Hinv1 as (_ & _ & _ & Hnd1 & Hrep1 & Hlo1 & _).
      assert (Hreport : forall (r2 : resolver) req' url ms,
                r = mtl_loaded req' url ms r2 ->
                names !! req' = Some url ->
                obj r2 = obj r1 -> Loader.mtls r2 = Loader.mtls r1 ->
                loaded_mtls r2 = loaded_mtls r1 -> reported r2 = reported r1 ->
                ondone_calls r2 = ondone_calls r1 ->
                obj r = parse lines /\ elems (Loader.mtls r) = SName <$> names /\
                loaded_mtls r = length (reported r) /\
                reported r = reported r1 ++ [req'] /\
                in_flight r = in_flight r2 /\ loaders r = loaders r2 /\
                (forall req, req ∈ reported r ->
                   exists lib ms, names !! req = Some lib /\
                     props (Loader.mtls r) !! lib = Some (SLoaded ms)) /\
                ondone_calls r
                = (if decide (length (reported r) = n) then 1 else 0)%nat).
      { intros r2 req' url ms Hr Hname E1 E2 E3 E4 E5.
        assert (Hreported : reported r = reported r1 ++ [req']).
        { rewrite Hr. unfold mtl_loaded.
          pose proof (mtl_done_spec req' url (SLoaded ms) r2) as Hs. cbv zeta in Hs.
          destruct Hs as (_ & _ & _ & Hs & _). by rewrite Hs, E4. }
        rewrite Hreported in Hnd', Hrep'.
        assert (Hshort : length (reported r1) <> n).
        { pose proof (NoDup_bounded_length _ n Hnd' (fun x Hx => proj1 (Hrep' x Hx))) as Hle.
          rewrite length_app in Hle. cbn [length] in Hle. lia. }
        rewrite decide_False in Hcalls by done.
        rewrite Hr, <- E4.
        apply Hdone; rewrite ?E1, ?E2, ?E3, ?E4, ?E5; try done.
        - rewrite Forall_forall in Hplain. apply Hplain.
          by apply list_elem_of_lookup_2 in Hname.
        - intros x Hx. by apply Hrep' in Hx as [? _]. }
      destruct e as [req' text|req'|req' img ok]; [| done |]; cbn [handle] in Hrun.
      + unfold on_file_load in Hrun.
        destruct (decide (req' ∈ in_flight r1)) as [Hin'|]; [|done].
        rewrite Hobj, Hreq in Hrun.
        destruct (names !! req') as [url|] eqn:Hurl'; [|done].
        cbn [mbind option_bind] in Hrun.
        set (pm := Loader.mtl_parse numeric text) in *.
        set (l := MkLoader url (m_materials pm) (m_needed pm) 0
                           (list_to_set (seq 0 (m_needed pm)))) in *.
        set (r2 := Resolver (parse lines) (Loader.mtls r1) (loaded_mtls r1)
                            (in_flight r1 ∖ {[req']}) (<[req' := l]> (loaders r1))
                            (reported r1) (ondone_calls r1)) in *.
        assert (Hurl2 : forall req l0, loaders r2 !! req = Some l0 ->
                  names !! req = Some (l_url l0)).
        { intros req l0 Hl0. unfold r2 in Hl0. cbn [loaders] in Hl0.
          apply lookup_insert_Some in Hl0 as [[<- <-]|[_ Hl0]]; [done|by apply Hurl]. }
        assert (Hg2 : forall (reps : list nat),
                  (forall x, x ∈ reported r1 -> x ∈ reps) ->
                  (m_needed pm = 0%nat -> req' ∈ reps) ->
                  forall req, (req < n)%nat -> (req ∉ in_flight r2) ->
                    exists l0, loaders r2 !! req = Some l0 /\
                      (waiting l0 = ∅ -> req ∈ reps)).
        { intros reps Hsub Hnow req Hlt Hnf. unfold r2 in *. cbn [loaders in_flight] in *.
          destruct (decide (req = req')) as [->|Hne].
          - exists l. rewrite lookup_insert_eq. split; [done|].
            unfold l. cbn [waiting]. intros Hempty. apply Hnow.
            rewrite <- (size_seq_set (m_needed pm)), Hempty. apply size_empty.
          - rewrite lookup_insert_ne by done.
            destruct (Hg req Hlt) as (l0 & Hl0 & Hw).
            + intros Hin. apply Hnf. apply elem_of_difference. split; [done|].
              intros Hs. apply elem_of_singleton in Hs. done.
            + exists l0. split; [done|]. intros Hempty. by apply Hsub, Hw. }
        destruct (decide (m_needed pm = 0%nat)) as [H0|H0]; injection Hrun as Hr;
          symmetry in Hr.
        * destruct (Hreport r2 req' url (m_materials pm) Hr Hurl')
            as (K1 & K2 & K3 & K4 & K5 & K6 & K7 & K8); try done.
          unfold K. rewrite K5, K6.
          split; [done|]. split; [done|]. split; [done|]. split; [done|].
          split; [done|]. split; [|done].
          apply Hg2.
          -- intros x Hx. rewrite K4. apply elem_of_app. by left.
          -- intros _. rewrite K4. apply elem_of_app. right. by apply list_elem_of_singleton.
        * subst r. unfold K.
          split; [done|]. split; [done|]. split; [done|]. split; [done|].
          split; [done|]. split; [|done].
          apply Hg2; [done|]. intros Hz. done.
      + unfold on_image in Hrun.
        destruct (loaders r1 !! req') as [l|] eqn:Hl; [|done].
        cbn [mbind option_bind] in Hrun.
        destruct (decide (img ∈ waiting l)) as [Himg|]; [|done].
        set (l' := MkLoader (l_url l) (l_materials l) (needed_txts l)
                            (loaded_txts l + 1) (waiting l ∖ {[img]})) in *.
        set (r2 := Resolver (obj r1) (Loader.mtls r1) (loaded_mtls r1) (in_flight r1)
                            (<[req' := l']> (loaders r1)) (reported r1)
                            (ondone_calls r1)) in *.
        assert (Hurl2 : forall req l0, loaders r2 !! req = Some l0 ->
                  names !! req = Some (l_url l0)).
        { intros req l0 Hl0. unfold r2 in Hl0. cbn [loaders] in Hl0.
          apply lookup_insert_Some in Hl0 as [[<- <-]|[_ Hl0]]; [|by apply Hurl].
          exact (Hurl _ _ Hl). }
        destruct (Hlo1 req' l Hl) as (_ & _ & Hcount).
        assert (Hg2 : forall (reps : list nat),
                  (forall x, x ∈ reported r1 -> x ∈ reps) ->
                  (needed_txts l = (loaded_txts l + 1)%nat -> req' ∈ reps) ->
                  forall req, (req < n)%nat -> (req ∉ in_flight r2) ->
                    exists l0, loaders r2 !! req = Some l0 /\
                      (waiting l0 = ∅ -> req ∈ reps)).
        { intros reps Hsub Hnow req Hlt Hnf. unfold r2 in *. cbn [loaders in_flight] in *.
          destruct (decide (req = req')) as [->|Hne].
          - exists l'. rewrite lookup_insert_eq. split; [done|].
            unfold l'. cbn [waiting]. intros Hempty. apply Hnow.
            assert (Hsize : size (waiting l ∖ {[img]}) = 0%nat)
              by (rewrite Hempty; apply size_empty).
            rewrite size_difference in Hsize by (by apply singleton_subseteq_l).
            rewrite size_singleton in Hsize.
            assert (Hpos : size (waiting l) <> 0%nat).
            { intros Hz. apply size_empty_iff in Hz. apply Hz in Himg.
              by apply not_elem_of_empty in Himg. }
            lia.
          - rewrite lookup_insert_ne by done.
            destruct (Hg req Hlt Hnf) as (l0 & Hl0 & Hw).
            exists l0. split; [done|]. intros Hempty. by apply Hsub, Hw. }
        destruct (decide (needed_txts l = (loaded_txts l + 1)%nat)) as [H0|H0];
          injection Hrun as Hr; symmetry in Hr.
        * destruct (Hreport r2 req' (l_url l) (l_materials l) Hr (Hurl _ _ Hl))
            as (K1 & K2 & K3 & K4 & K5 & K6 & K7 & K8); try done.
          unfold K. rewrite K5, K6.
          split; [done|]. split; [done|]. split; [done|]. split; [done|].
          split; [done|]. split; [|done].
          apply Hg2.
          -- intros x Hx. rewrite K4. apply elem_of_app. by left.
          -- intros _. rewrite K4. apply elem_of_app. right. by apply list_elem_of_singleton.
        * subst r. unfold K.
          split; [done|]. split; [done|]. split; [done|]. split; [done|].
          split; [done|]. split; [|done].
          apply Hg2; [done|]. intros Hz. done. }
  destruct (Hgen trace r Hnoerr Hrun) as (_ & _ & _ & _ & _ & Hg & Hcalls).
  destruct (Hrinv _ _ Hrun) as (_ & _ & _ & Hnd' & Hrep' & _).
  destruct Hq as [Hfly Hwait].
  assert (Hall : forall req, (req < n)%nat -> req ∈ reported r).
  { intros req Hlt. destruct (Hg req Hlt) as (l & Hl & Hw).
    - rewrite Hfly. apply not_elem_of_empty.
    - apply Hw. by apply (Hwait req). }
  rewrite decide_True in Hcalls; [done|].
  apply Nat.le_antisymm.
  - apply NoDup_bounded_length; [done|]. intros x Hx. by apply Hrep' in Hx as [? _].
  - rewrite <- (length_seq n 0).
    apply NoDup_incl_length; [apply NoDup_ListNoDup, NoDup_seq|].
    intros x Hx. apply in_seq in Hx. apply list_elem_of_In, Hall. lia.
Qed.


End LoaderMore.

Section LoaderSamples.
Import Loader Obj.

Lemma no_library_finishes_at_once_witness :
  ondone_calls (Loader.start (@Datatypes.id string) (@Datatypes.id string)
                  [Some ["v"; "0"; "0"; "0"]; Some ["usemtl"; "m"]]) = 1%nat.
Proof.
  apply (no_library_finishes_at_once (@Datatypes.id string) (@Datatypes.id string)
           (fun _ => false)).
  reflexivity.
Defined.

Lemma materials_carry_the_defaults_witness :
  exists mat,
    m_materials (mtl_parse (fun _ => false)
                   [Some ["newmtl"; "m"]; Some ["Kd"; "a"; "b"; "c"];
                    Some ["map_Kd"; "t.png"]]) !! "m" = Some mat /\
    Forall (fun k => is_Some (mat !! k)) ["Ka"; "Kd"; "Ks"; "d"; "Ns"; "name"].
Proof.
  eexists. split; [vm_compute; reflexivity|].
  apply (materials_carry_the_defaults (fun _ => false)
           [Some ["newmtl"; "m"]; Some ["Kd"; "a"; "b"; "c"]; Some ["map_Kd"; "t.png"]]
           "m").
  vm_compute. reflexivity.
Defined.

Lemma ondone_once_after_every_report_witness :
  exists r,
    run (fun _ => false)
        (Loader.start (@Datatypes.id string) (@Datatypes.id string) one_material_lines)
        [FileLoad 0 [Some ["newmtl"; "m"]]] = Some r /\
    (ondone_calls r <= 1)%nat.
Proof.
  eexists. split; [vm_compute; reflexivity|].
  apply (ondone_once_after_every_report (@Datatypes.id string) (@Datatypes.id string)
           (fun _ => false) one_material_lines [FileLoad 0 [Some ["newmtl"; "m"]]]).
  vm_compute. reflexivity.
Defined.


Lemma every_library_loaded_then_done_witness :
  exists r,
    run (fun _ => false)
        (Loader.start (@Datatypes.id string) (@Datatypes.id string) one_material_lines)
        [FileLoad 0 []] = Some r /\
    quiescent r /\ ondone_calls r = 1%nat.
Proof.
  set (r := Resolver (parse (@Datatypes.id string) (@Datatypes.id string)
                        one_material_lines)
              (JsArray [SName "a.mtl"] {["a.mtl" := SLoaded ∅]})
              1 ∅ {[0%nat := MkLoader "a.mtl" ∅ 0 0 ∅]} [0%nat] 1).
  assert (Hrun : run (fun _ => false)
                   (Loader.start (@Datatypes.id string) (@Datatypes.id string)
                      one_material_lines) [FileLoad 0 []] = Some r)
    by (vm_compute; reflexivity).
  assert (Hq : quiescent r).
  { split; [reflexivity|]. intros req l Hl. unfold r in Hl. cbn [loaders] in Hl.
    apply lookup_singleton_Some in Hl as [_ <-]. reflexivity. }
  exists r. split; [exact Hrun|]. split; [exact Hq|].
  apply (every_library_loaded_then_done (@Datatypes.id string) (@Datatypes.id string)
           (fun _ => false) one_material_lines [FileLoad 0 []] r).
  - change (mtllib_names one_material_lines) with ["a.mtl"]. apply NoDup_singleton.
  - change (mtllib_names one_material_lines) with ["a.mtl"].
    apply Forall_cons. split; [vm_compute; reflexivity|apply Forall_nil_2].
  - apply Forall_cons. split; [exact I|apply Forall_nil_2].
  - exact Hrun.
  - exact Hq.
Defined.

End LoaderSamples.

(** ** The lines of a file *)

Section ReadLinesFacts.
Import Obj.

Lemma split_on_length (sep : ascii) (l : list ascii) :
  length (split_on sep l) = S (length (filter (fun c => c = sep) l)).
Proof.
  induction l as [|c l IH]; [done|]. cbn [split_on].
  destruct (decide (c = sep)) as [->|Hne].
  - rewrite filter_cons_True by done. cbn [length]. by rewrite IH.
  - rewrite filter_cons_False by done.
    destruct (split_on sep l) as [|p ps]; [done|]. exact IH.
Qed.

Lemma split_on_no_sep (sep : ascii) (l : list ascii) :
  Forall (fun p => sep ∉ p) (split_on sep l).
Proof.
  induction l as [|c l IH]; cbn [split_on].
  - apply Forall_singleton, not_elem_of_nil.
  - destruct (decide (c = sep)) as [->|Hne].
    + apply Forall_cons. split; [apply not_elem_of_nil|done].
    + destruct (split_on sep l) as [|p ps].
      * apply Forall_singleton. intros Hin.
        apply list_elem_of_singleton in Hin. congruence.
      * apply Forall_cons in IH as [Hp Hps]. apply Forall_cons. split; [|done].
        intros Hin. apply elem_of_cons in Hin as [Heq|Hin]; [congruence|done].
Qed.

Lemma split_on_head (sep c : ascii) (l : list ascii) :
  c <> sep -> exists p ps, split_on sep (c :: l) = (c :: p) :: ps.
Proof.
  intros Hne. cbn [split_on]. rewrite decide_False by done.
  destruct (split_on sep l) as [|p ps]; [by exists [], []|by exists p, ps].
Qed.

Lemma trim_start_head (l : list ascii) (c : ascii) (rest : list ascii) :
  trim_start l = c :: rest -> is_space c = false.
Proof.
  induction l as [|x l IH]; cbn [trim_start]; [done|].
  destruct (is_space x) eqn:Hx; [exact IH|]. by intros [= <- _].
Qed.

Lemma trim_start_suffix (l : list ascii) : exists pre, l = pre ++ trim_start l.
Proof.
  induction l as [|x l [pre IH]]; cbn [trim_start]; [by exists []|].
  destruct (is_space x); [|by exists []].
  exists (x :: pre). cbn [app]. by rewrite <- IH.
Qed.

Lemma trim_head (l : list ascii) (c : ascii) (rest : list ascii) :
  trim l = c :: rest -> is_space c = false.
Proof.
  unfold trim. intros H.
  destruct (trim_start_suffix (reverse (trim_start l))) as [pre Hpre].
  apply (f_equal reverse) in Hpre.
  rewrite reverse_involutive, reverse_app, H in Hpre.
  by apply (trim_start_head l c (rest ++ reverse pre)).
Qed.

(** X21: [_read_lines] keeps the line numbers and never gives an empty
    command: the result has one entry per line of the text (one more than
    the text has newline characters), and an entry that is not null is a
    list of at least one token whose first token starts with a character
    that is neither white space nor [#], all tokens being non-empty and
    without a space. *)
Theorem read_lines_keeps_lines_and_tokens (txt : string) :
  length (_read_lines txt)
    = S (length (filter (fun c => c = "010"%char) (chars txt))) /\
  Forall (fun l : line =>
            forall toks, l = Some toks ->
              (exists cmd args c r, toks = cmd :: args /\ chars cmd = c :: r /\
                                    c <> "#"%char /\ is_space c = false) /\
              Forall (fun t => chars t <> [] /\ " "%char ∉ chars t) toks)
         (_read_lines txt).
Proof.
  unfold _read_lines. split; [by rewrite length_fmap, split_on_length|].
  apply Forall_fmap, Forall_forall. intros raw _. unfold compose.
  intros toks Htoks.
  destruct (trim raw) as [|c rest] eqn:Htrim; [done|].
  destruct (decide (c = "#"%char)) as [|Hhash]; [done|].
  assert (toks = string_of_list_ascii
                   <$> filter (fun part => part <> []) (split_on " "%char (c :: rest)))
    as -> by (by injection Htoks).
  clear Htoks.
  pose proof (trim_head raw c rest Htrim) as Hc.
  assert (Hsp : c <> " "%char) by (by intros ->).
  destruct (split_on_head " "%char c rest Hsp) as (p & ps & Hsplit).
  pose proof (split_on_no_sep " "%char (c :: rest)) as Hno.
  rewrite Hsplit in *. split.
  - rewrite filter_cons_True by done. cbn [fmap list_fmap].
    eexists _, _, c, p. split; [reflexivity|].
    unfold chars. by rewrite list_ascii_of_string_of_list_ascii.
  - apply Forall_fmap, Forall_forall. intros part Hpart. unfold compose.
    apply list_elem_of_filter in Hpart as [Hne Hin].
    unfold chars. rewrite list_ascii_of_string_of_list_ascii. split; [done|].
    rewrite Forall_forall in Hno. by apply Hno.
Qed.

End ReadLinesFacts.

(** ** The movement handlers *)

Section ViewFacts.
Import View.

Lemma run_app (st : view) (es1 es2 : list event) :
  run st (es1 ++ es2) = run st es1 ≫= fun st1 => run st1 es2.
Proof.
  unfold run. rewrite foldl_app.
  destruct (foldl _ (Some st) es1) as [st1|]; cbn [mbind option_bind]; [done|].
  induction es2 as [|e es2 IH]; [done|]. exact IH.
Qed.

Lemma run_cons (st : view) (e : event) (es : list event) :
  run st (e :: es) = handle st e ≫= fun st1 => run st1 es.
Proof.
  change (e :: es) with ([e] ++ es). rewrite run_app.
  unfold run at 1. cbn [foldl mbind option_bind]. reflexivity.
Qed.

(** What a drag keeps true between its [mousedown] and its [mouseup]:
    the listeners are registered, the values recorded by [onMouseDown]
    stay, and only the two angles (when rotating) or the two coordinates
    (when moving) that the drag controls have changed. *)
Lemma moves_keep_the_drag (m : mode) (c0 : vec) (t0 t1 t2 p0 p1 p2 s : R)
    (moves : list event) (st : view) :
  Forall is_move moves ->
  listening st = true -> drag_mode st = Some m -> initial_coord st = Some c0 ->
  initial_thetas st = Some [t0; t1; t2] -> initial_pos st = Some [p0; p1; p2] ->
  cur_scale st = s ->
  (exists a b, match m with
               | Rotate => thetas st = [a; b; t2] /\ position st = [p0; p1; p2]
               | Move => thetas st = [t0; t1; t2] /\ position st = [a; b; p2]
               end) ->
  exists st',
    run st moves = Some st' /\
    listening st' = true /\ drag_mode st' = Some m /\ initial_coord st' = Some c0 /\
    initial_thetas st' = Some [t0; t1; t2] /\ initial_pos st' = Some [p0; p1; p2] /\
    cur_scale st' = s /\
    exists a b, match m with
                | Rotate => thetas st' = [a; b; t2] /\ position st' = [p0; p1; p2]
                | Move => thetas st' = [t0; t1; t2] /\ position st' = [a; b; p2]
                end.
Proof.
  intros Hmoves. revert st.
  induction Hmoves as [|e moves He _ IH]; intros st Hl Hm Hc Ht Hp Hs Hab.
  - exists st. by repeat split.
  - destruct e as [|evt| |]; try done.
    rewrite run_cons. cbn [handle]. rewrite Hl. unfold onMouseMove.
    destruct (decide (buttons evt = 0%Z)); cbn [mbind option_bind]; [by apply IH|].
    unfold drag. rewrite Hc, Hm. cbn [mbind option_bind].
    destruct Hab as (a & b & Hab).
    destruct m; destruct Hab as [Hth Hpo].
    + rewrite Ht. cbn [mbind option_bind]. apply IH; cbn; try done.
      rewrite Hth. cbn. by eexists _, _.
    + rewrite Hp. cbn [mbind option_bind]. apply IH; cbn; try done.
      rewrite Hpo. cbn. by eexists _, _.
Qed.

(** X23: a drag only depends on where it starts and where it ends. From
    a [mousedown] at [e0], through any moves, to the [mouseup] at [e1],
    a plain drag turns the first two angles by 180 degrees per unit of
    the mouse coordinates and leaves the position alone; a shift-drag
    moves the first two coordinates by the mouse displacement and leaves
    the angles alone. The third angle, the third coordinate and the scale
    never change, and the drag ends with the listeners removed. *)
Theorem drag_depends_on_its_ends (st : view) (e0 e1 : mouse_event)
    (moves : list event) (t0 t1 t2 p0 p1 p2 : R) :
  thetas st = [t0; t1; t2] -> position st = [p0; p1; p2] ->
  Forall is_move moves ->
  let dx := (elt (mouse_coords e1) 0 - elt (mouse_coords e0) 0)%R in
  let dy := (elt (mouse_coords e1) 1 - elt (mouse_coords e0) 1)%R in
  exists st',
    run st (MouseDown e0 :: moves ++ [MouseUp e1]) = Some st' /\
    thetas st' = (if shiftKey e0 then [t0; t1; t2]
                  else [t0 - dy * -180; t1 - dx * 180; t2])%R /\
    position st' = (if shiftKey e0 then [p0 + dx; p1 + dy; p2]
                    else [p0; p1; p2])%R /\
    cur_scale st' = cur_scale st /\ listening st' = false.
Proof.
  intros Hth Hpo Hmoves dx dy.
  rewrite run_cons. cbn [handle mbind option_bind]. rewrite run_app.
  destruct (moves_keep_the_drag (if shiftKey e0 then Move else Rotate)
              (mouse_coords e0) t0 t1 t2 p0 p1 p2 (cur_scale st) moves
              (onMouseDown e0 st) Hmoves)
    as (st1 & -> & Hl & Hm & Hc & Ht & Hp & Hs & a & b & Hab); cbn; try done.
  { by rewrite Hth. } { by rewrite Hpo. }
  { destruct (shiftKey e0).
    - exists p0, p1. by rewrite Hth, Hpo.
    - exists t0, t1. by rewrite Hth, Hpo. }
  rewrite Hl.
  unfold onMouseUp, drag. rewrite Hc, Hm. cbn [mbind option_bind].
  destruct (shiftKey e0); destruct Hab as [Hth1 Hpo1].
  - rewrite Hp. cbn [mbind option_bind]. eexists. split; [reflexivity|].
    cbn. rewrite Hth1, Hpo1. cbn. by repeat split.
  - rewrite Ht. cbn [mbind option_bind]. eexists. split; [reflexivity|].
    cbn. rewrite Hth1, Hpo1. cbn. by repeat split.
Qed.

Lemma drag_depends_on_its_ends_witness :
  exists st',
    run initial [MouseDown (MouseEvent false 1 10 10 0 0 0 0 0 0 100 100);
                 MouseMove (MouseEvent false 1 90 30 0 0 0 0 0 0 100 100);
                 MouseUp (MouseEvent false 0 60 10 0 0 0 0 0 0 100 100)] = Some st' /\
    position st' = [0; 0; 0]%R /\ listening st' = false.
Proof.
  destruct (drag_depends_on_its_ends initial
              (MouseEvent false 1 10 10 0 0 0 0 0 0 100 100)
              (MouseEvent false 0 60 10 0 0 0 0 0 0 100 100)
              [MouseMove (MouseEvent false 1 90 30 0 0 0 0 0 0 100 100)]
              0 0 0 0 0 0 eq_refl eq_refl)
    as (st' & Hrun & _ & Hpos & _ & Hlis).
  - apply Forall_cons. split; [exact I|apply Forall_nil_2].
  - exists st'. split; [exact Hrun|]. split; [exact Hpos | exact Hlis].
Defined.





End ViewFacts.

(** ** The mesh builder: the cones *)

Section CanGeometry.
Import Mesh.

(** X25: the slanted side of each cone of the can, from vertex [j] of the
    inner ring (vertex [j] of the array) to vertex [j] of the body's rim
    (vertex [n + j]), has length sqrt 5 * |r1 - r2|: the rings differ by
    r1 - r2 in radius and by 2 (r1 - r2) in height. For r1 <> r2 this is
    less than the length [hyp] = sqrt (8 (r1 - r2)^2) from which [init]
    derives the texture heights. *)
Theorem cone_slant_is_shorter_than_hyp (c : vec) (r1 r2 : R) (n : nat) (h : R) (j : nat) :
  (j < n)%nat ->
  exists top rim,
    (soda_can c r1 r2 n h [] []).1 !! j = Some top /\
    (soda_can c r1 r2 n h [] []).1 !! (n + j)%nat = Some rim /\
    dist3 top rim = (sqrt 5 * Rabs (r1 - r2))%R /\
    (r1 <> r2 -> (dist3 top rim < sqrt (8 * (r1 - r2) * (r1 - r2)))%R).
Proof.
  intros Hj.
  pose proof (lookup_flat_map_blocks
                (fun i => map (circle_point (ring_center c r1 r2 h i)
                                            (ring_radius r1 r2 i) n) (seq 0 n))
                n 4) as Hblock.
  cbn [seq flat_map] in Hblock. rewrite app_nil_r in Hblock.
  assert (Hlen : forall i, length (map (circle_point (ring_center c r1 r2 h i)
                                          (ring_radius r1 r2 i) n) (seq 0 n)) = n)
    by (intros i; by rewrite length_map, length_seq).
  pose proof (Hblock 0%nat j Hlen ltac:(lia) Hj) as H0.
  pose proof (Hblock 1%nat j Hlen ltac:(lia) Hj) as H1.
  rewrite list_lookup_fmap, lookup_seq_lt in H0, H1 by done.
  cbn [fmap option_fmap option_map Nat.add] in H0, H1.
  replace (0 * n + j)%nat with j in H0 by lia.
  replace (1 * n + j)%nat with (n + j)%nat in H1 by lia.
  eexists _, _. rewrite soda_can_appends. cbn [fst app].
  split; [exact H0|]. split; [exact H1|].
  set (d := (r1 - r2)%R).
  assert (Hdist : dist3 (circle_point (ring_center c r1 r2 h 0) (ring_radius r1 r2 0) n j)
                        (circle_point (ring_center c r1 r2 h 1) (ring_radius r1 r2 1) n j)
                  = (sqrt 5 * Rabs d)%R).
  { unfold dist3, circle_point, ring_center, ring_radius, vec4, elt. cbn [nth].
    set (a := (INR j * (2 * PI / INR n))%R).
    replace ((nth 0 c 0 + cos a * r2 - (nth 0 c 0 + cos a * r1))²
             + (h - (h - 2 * (r1 - r2)))²
             + (nth 1 c 0 + sin a * r2 - (nth 1 c 0 + sin a * r1))²)%R
      with (5 * d²)%R.
    - rewrite sqrt_mult by (try lra; apply Rle_0_sqr). by rewrite sqrt_Rsqr_abs.
    - pose proof (sin2_cos2 a) as Hsc. unfold Rsqr in *. unfold d.
      replace (5 * ((r1 - r2) * (r1 - r2)))%R
        with (((sin a * sin a + cos a * cos a) + 4) * ((r1 - r2) * (r1 - r2)))%R
        by (rewrite Hsc; ring).
      ring. }
  split; [exact Hdist|]. intros Hne. rewrite Hdist.
  replace (8 * d * d)%R with (8 * d²)%R by (unfold Rsqr; ring).
  rewrite sqrt_mult by (try lra; apply Rle_0_sqr). rewrite sqrt_Rsqr_abs.
  apply Rmult_lt_compat_r.
  - apply Rabs_pos_lt. unfold d. lra.
  - apply sqrt_lt_1; lra.
Qed.

Lemma cone_slant_is_shorter_than_hyp_witness :
  exists top rim,
    (soda_can (vec4 0 0 0 0) 2 1 4 1 [] []).1 !! 1%nat = Some top /\
    (soda_can (vec4 0 0 0 0) 2 1 4 1 [] []).1 !! 5%nat = Some rim /\
    dist3 top rim = (sqrt 5 * Rabs (2 - 1))%R.
Proof.
  destruct (cone_slant_is_shorter_than_hyp (vec4 0 0 0 0) 2 1 4 1 1)
    as (top & rim & H0 & H1 & Hd & _); [lia|].
  exists top, rim. split; [exact H0|]. split; [exact H1 | exact Hd].
Defined.

End CanGeometry.
